(** * CleverMusic: the node-graph store and the timeline compositor

    A shallow embedding of the graph editing engine of [src/App.tsx]
    (history, clipboard, keyboard shortcuts, file drops, the node palette,
    the prompt editor, connect / disconnect, node deletion, timeline
    import and batch generation), of the timeline computations of
    [TimelinePlayer] in [src/components/Button.tsx] (total duration, clip
    start offsets, clip resize and reorder, the active clip, seeking, the
    playback loop, the time code) and of the gestures of [Canvas] in the
    same file (zoom, pan, node drag and resize, connection drag).

    Modelling conventions.
    - A JavaScript [number] holding a coordinate or a duration is an exact
      rational ([Q]); a [Date.now()] timestamp is an integer ([Z]).
    - An optional field [f?: T] is [option T]; [undefined] is [None].
    - React state is one record, [AppState].  A handler reads the slots it
      closes over from the state at the start of the event and applies its
      functional updates [setX(prev => ...)] in order.
    - Objects are immutable values, with one exception: the two handlers
      that call [push] on a node's [timelineClips] array mutate that array
      in place.  Clip arrays therefore live in a store ([Heap]) and a node
      configuration holds a reference ([Loc]) to its array, so that a
      history snapshot and the live graph share the array exactly as the
      JavaScript objects do.
    - [crypto.randomUUID()] and [Date.now()] are inputs of the handler that
      calls them: [randomUUID k] and [dateNow k] are the results of the
      k-th call made during the handler's run.  The remote generation call
      [generateVideoClip] is an input as well.
    - Events are handled one after the other, each on the state the former
      left; the asynchronous [handleGenerateTimeline] runs to its end with
      no other event between its awaits. *)

From Stdlib Require Import String DecimalString ZArith QArith Qminmax Qround Lia List.
From Stdlib Require Import Permutation.
Import ListNotations.

Local Open Scope string_scope.
Local Open Scope list_scope.

(** ** Data model ([src/types.ts]) *)

Inductive AspectRatio := SQUARE | STANDARD | PORTRAIT | WIDE | MOBILE | CINEMA.

Inductive GenerationMode := GRID_2x2 | GRID_3x3 | GRID_4x4.

Inductive StoryboardType :=
  generation | assets | agent | music | music_analysis | text_result | text
| mv_attribute_settings | mv_storyboard | timeline | video.

Scheme Equality for StoryboardType.

(** The [type] of a [CanvasItem]: ['image' | 'video' | 'audio']. *)
Inductive MediaType := image_t | video_t | audio_t.

Module CanvasItem.
Record t := mk {
  id : string;
  url : string;
  type : MediaType;
  prompt : option string;
  aspectRatio : option string;
  timestamp : Z;
  fullGridUrl : option string;
  duration : option Q;
  fileName : option string
}.

(** [{ ...item, id: i, timestamp: ts }] *)
Definition with_id_timestamp (i : string) (ts : Z) (item : t) : t :=
  mk i (url item) (type item) (prompt item) (aspectRatio item) ts
     (fullGridUrl item) (duration item) (fileName item).
End CanvasItem.

Module MVScene.
Record t := mk {
  timeCode : string;
  rhythm : string;
  visualDescription : string;
  midjourneyPrompt : string;
  cameraMovement : string;
  imageUrl : option string
}.
End MVScene.

Module TimelineClip.
Inductive Status := pending | generating | done | error.

Scheme Equality for Status.

Record t := mk {
  id : string;
  sceneId : string;
  videoUrl : string;
  thumbUrl : string;
  duration : Q;
  prompt : string;
  status : Status
}.

(** [{ ...c, duration: d }] *)
Definition with_duration (d : Q) (c : t) : t :=
  mk (id c) (sceneId c) (videoUrl c) (thumbUrl c) d (prompt c) (status c).

(** [{ ...c, videoUrl, status: 'done' }] *)
Definition with_videoUrl_done (v : string) (c : t) : t :=
  mk (id c) (sceneId c) v (thumbUrl c) (duration c) (prompt c) done.

(** [{ ...c, status: 'error', prompt: p }] *)
Definition with_error_prompt (p : string) (c : t) : t :=
  mk (id c) (sceneId c) (videoUrl c) (thumbUrl c) (duration c) p error.
End TimelineClip.

(** A reference to a clip array in the store. *)
Definition Loc := nat.

Module NodeConfig.
(** [prompt], [mode] and [aspectRatio] are required by the TypeScript
    interface, but [{ ...group.config, timelineAudioUrl: u }] on a node
    without a configuration builds an object that holds [timelineAudioUrl]
    only, so at run time every field may be absent. *)
Record t := mk {
  prompt : option string;
  mode : option GenerationMode;
  aspectRatio : option AspectRatio;
  recommendations : option (list string);
  isAnalyzing : option bool;
  cameraMove : option string;
  lightingStyle : option string;
  textResult : option string;
  customSystemPrompt : option string;
  mvStyleImageUrl : option string;
  mvProtagonistImageUrl : option string;
  mvScenes : option (list MVScene.t);
  timelineAudioUrl : option string;
  timelineClips : option Loc
}.

(** [{ ...undefined }] *)
Definition empty : t :=
  mk None None None None None None None None None None None None None None.

(** [{ ...c, timelineAudioUrl: u }] *)
Definition with_timelineAudioUrl (u : option string) (c : t) : t :=
  mk (prompt c) (mode c) (aspectRatio c) (recommendations c) (isAnalyzing c)
     (cameraMove c) (lightingStyle c) (textResult c) (customSystemPrompt c)
     (mvStyleImageUrl c) (mvProtagonistImageUrl c) (mvScenes c)
     u (timelineClips c).

(** [{ ...c, mvScenes: scenes }] *)
Definition with_mvScenes (scenes : option (list MVScene.t)) (c : t) : t :=
  mk (prompt c) (mode c) (aspectRatio c) (recommendations c) (isAnalyzing c)
     (cameraMove c) (lightingStyle c) (textResult c) (customSystemPrompt c)
     (mvStyleImageUrl c) (mvProtagonistImageUrl c) scenes
     (timelineAudioUrl c) (timelineClips c).

(** [{ ...c, timelineClips: l }] *)
Definition with_timelineClips (l : option Loc) (c : t) : t :=
  mk (prompt c) (mode c) (aspectRatio c) (recommendations c) (isAnalyzing c)
     (cameraMove c) (lightingStyle c) (textResult c) (customSystemPrompt c)
     (mvStyleImageUrl c) (mvProtagonistImageUrl c) (mvScenes c)
     (timelineAudioUrl c) l.
End NodeConfig.

Module StoryboardGroup.
Record t := mk {
  id : string;
  type : StoryboardType;
  title : string;
  x : Q;
  y : Q;
  width : option Q;
  height : option Q;
  items : list CanvasItem.t;
  timestamp : Z;
  connections : list string;
  inputs : option (list string);
  config : option NodeConfig.t;
  displayMode : option GenerationMode
}.

(** [{ ...g, title: s }] *)
Definition with_title (s : string) (g : t) : t :=
  mk (id g) (type g) s (x g) (y g) (width g) (height g) (items g)
     (timestamp g) (connections g) (inputs g) (config g) (displayMode g).

(** [{ ...g, items: l }] *)
Definition with_items (l : list CanvasItem.t) (g : t) : t :=
  mk (id g) (type g) (title g) (x g) (y g) (width g) (height g) l
     (timestamp g) (connections g) (inputs g) (config g) (displayMode g).

(** [{ ...g, connections: l }] *)
Definition with_connections (l : list string) (g : t) : t :=
  mk (id g) (type g) (title g) (x g) (y g) (width g) (height g) (items g)
     (timestamp g) l (inputs g) (config g) (displayMode g).

(** [{ ...g, inputs: l }] *)
Definition with_inputs (l : option (list string)) (g : t) : t :=
  mk (id g) (type g) (title g) (x g) (y g) (width g) (height g) (items g)
     (timestamp g) (connections g) l (config g) (displayMode g).

(** [{ ...g, config: c }] *)
Definition with_config (c : option NodeConfig.t) (g : t) : t :=
  mk (id g) (type g) (title g) (x g) (y g) (width g) (height g) (items g)
     (timestamp g) (connections g) (inputs g) c (displayMode g).

(** [{ ...g, width: w, height: h }] *)
Definition with_size (w h : option Q) (g : t) : t :=
  mk (id g) (type g) (title g) (x g) (y g) w h (items g)
     (timestamp g) (connections g) (inputs g) (config g) (displayMode g).

(** [g.inputs || []]: how every reader of the inbound list sees it. *)
Definition inputs_or_empty (g : t) : list string :=
  match inputs g with Some l => l | None => [] end.
End StoryboardGroup.

(** ** JavaScript helpers *)

(** Truthiness of a string-valued expression. *)
Definition truthy (s : option string) : bool :=
  match s with
  | Some s => negb (s =? EmptyString)
  | None => false
  end.

(** [a || b] on strings. *)
Definition or_else (a : option string) (b : string) : string :=
  match a with
  | Some s => if s =? EmptyString then b else s
  | None => b
  end.

(** [arr.includes(v)] *)
Definition includes (l : list string) (v : string) : bool :=
  existsb (fun e => e =? v) l.

(** [arr.map((e, i) => f(i, e))], counting from [k]. *)
Fixpoint mapi_from {A B : Type} (k : nat) (f : nat -> A -> B) (l : list A) : list B :=
  match l with
  | [] => []
  | a :: l' => f k a :: mapi_from (S k) f l'
  end.

Definition mapi {A B : Type} (f : nat -> A -> B) (l : list A) : list B :=
  mapi_from 0 f l.

(** Template-literal rendering of a non-negative integer index and of an
    integer. *)
Definition show_nat (n : nat) : string := NilZero.string_of_uint (Nat.to_uint n).

Definition show_Z (z : Z) : string := NilZero.string_of_int (Z.to_int z).

(** [Math.max(a, ...rest)] on at least one argument. *)
Definition Math_max (a : Q) (rest : list Q) : Q := fold_left Qmax rest a.

(** ** The store of clip arrays *)

Definition Heap := list (list TimelineClip.t).

Module Store.
(** The array at [l]. *)
Definition read (h : Heap) (l : Loc) : list TimelineClip.t := nth l h [].

(** A new array holding [v]; returns its reference. *)
Definition alloc (v : list TimelineClip.t) (h : Heap) : Loc * Heap :=
  (length h, h ++ [v]).

Fixpoint write (l : Loc) (v : list TimelineClip.t) (h : Heap) : Heap :=
  match h, l with
  | [], _ => []
  | _ :: h', O => v :: h'
  | a :: h', S l' => a :: write l' v h'
  end.

(** [arr.push(c)] on the array at [l], in place. *)
Definition push (l : Loc) (c : TimelineClip.t) (h : Heap) : Heap :=
  write l (read h l ++ [c]) h.
End Store.

(** ** Application state ([App], [src/App.tsx] lines 81-97) *)

Record AppState := mkApp {
  storyboards : list StoryboardGroup.t;
  history : list (list StoryboardGroup.t);
  clipboard : option StoryboardGroup.t;
  generatingAgents : list string;
  selectedItemId : option string;
  selectedNodeId : option string;
  error : option string;
  editorNodeId : option string;
  heap : Heap
}.

Definition setStoryboards (f : list StoryboardGroup.t -> list StoryboardGroup.t)
    (st : AppState) : AppState :=
  mkApp (f (storyboards st)) (history st) (clipboard st) (generatingAgents st)
        (selectedItemId st) (selectedNodeId st) (error st) (editorNodeId st) (heap st).

Definition setHistory (f : list (list StoryboardGroup.t) -> list (list StoryboardGroup.t))
    (st : AppState) : AppState :=
  mkApp (storyboards st) (f (history st)) (clipboard st) (generatingAgents st)
        (selectedItemId st) (selectedNodeId st) (error st) (editorNodeId st) (heap st).

Definition setClipboard (c : option StoryboardGroup.t) (st : AppState) : AppState :=
  mkApp (storyboards st) (history st) c (generatingAgents st)
        (selectedItemId st) (selectedNodeId st) (error st) (editorNodeId st) (heap st).

Definition setGeneratingAgents (f : list string -> list string) (st : AppState) : AppState :=
  mkApp (storyboards st) (history st) (clipboard st) (f (generatingAgents st))
        (selectedItemId st) (selectedNodeId st) (error st) (editorNodeId st) (heap st).

Definition setSelectedItemId (i : option string) (st : AppState) : AppState :=
  mkApp (storyboards st) (history st) (clipboard st) (generatingAgents st)
        i (selectedNodeId st) (error st) (editorNodeId st) (heap st).

Definition setSelectedNodeId (i : option string) (st : AppState) : AppState :=
  mkApp (storyboards st) (history st) (clipboard st) (generatingAgents st)
        (selectedItemId st) i (error st) (editorNodeId st) (heap st).

Definition setError (e : option string) (st : AppState) : AppState :=
  mkApp (storyboards st) (history st) (clipboard st) (generatingAgents st)
        (selectedItemId st) (selectedNodeId st) e (editorNodeId st) (heap st).

Definition setEditorNodeId (i : option string) (st : AppState) : AppState :=
  mkApp (storyboards st) (history st) (clipboard st) (generatingAgents st)
        (selectedItemId st) (selectedNodeId st) (error st) i (heap st).

(** The store is not a React slot; handlers that create or mutate a clip
    array thread it. *)
Definition with_heap (h : Heap) (st : AppState) : AppState :=
  mkApp (storyboards st) (history st) (clipboard st) (generatingAgents st)
        (selectedItemId st) (selectedNodeId st) (error st) (editorNodeId st) h.

(** [setStoryboards(prev => ...)] whose updater also allocates arrays. *)
Definition setStoryboardsH
    (f : list StoryboardGroup.t -> Heap -> list StoryboardGroup.t * Heap)
    (st : AppState) : AppState :=
  let '(sb, h) := f (storyboards st) (heap st) in
  with_heap h (setStoryboards (fun _ => sb) st).

(** [prev.map(g => ...)] whose body allocates. *)
Fixpoint map_alloc (f : StoryboardGroup.t -> Heap -> StoryboardGroup.t * Heap)
    (l : list StoryboardGroup.t) (h : Heap) : list StoryboardGroup.t * Heap :=
  match l with
  | [] => ([], h)
  | g :: l' =>
      let '(g', h1) := f g h in
      let '(l'', h2) := map_alloc f l' h1 in
      (g' :: l'', h2)
  end.

(** [storyboards.find(n => n.id === nodeId)] *)
Definition find_node (nodeId : string) (l : list StoryboardGroup.t)
    : option StoryboardGroup.t :=
  find (fun n => StoryboardGroup.id n =? nodeId) l.

(** [node.config?.timelineClips] *)
Definition clips_ref (g : StoryboardGroup.t) : option Loc :=
  match StoryboardGroup.config g with
  | Some c => NodeConfig.timelineClips c
  | None => None
  end.

(** [{ ...g.config }], also when [g.config] is undefined. *)
Definition spread_config (g : StoryboardGroup.t) : NodeConfig.t :=
  match StoryboardGroup.config g with
  | Some c => c
  | None => NodeConfig.empty
  end.

(** [group.config?.timelineClips || []], the clip list a timeline node
    hands to its player (Button.tsx line 1468). *)
Definition clips_of (h : Heap) (g : StoryboardGroup.t) : list TimelineClip.t :=
  match clips_ref g with
  | Some l => Store.read h l
  | None => []
  end.

(** The node collection with every clip array resolved: what a deep
    comparison of two node collections compares. *)
Definition deep (h : Heap) (sb : list StoryboardGroup.t)
    : list (StoryboardGroup.t * list TimelineClip.t) :=
  map (fun g => (g, clips_of h g)) sb.

(** ** History and shortcuts (lines 101-166) *)

(** [saveHistory]; [storyboards0] is the node collection the callback
    closed over. *)
Definition saveHistory (storyboards0 : list StoryboardGroup.t) (st : AppState) : AppState :=
  setHistory (fun prev =>
    let newHistory := prev ++ [storyboards0] in
    if (20 <? length newHistory)%nat then tl newHistory else newHistory) st.

Definition handleUndo (st : AppState) : AppState :=
  let prev := history st in
  if (length prev =? 0)%nat then st
  else
    let previousState := nth (length prev - 1) prev [] in
    setHistory (fun _ => removelast prev) (setStoryboards (fun _ => previousState) st).

Definition handleCopy (st : AppState) : AppState :=
  if truthy (selectedNodeId st) then
    match selectedNodeId st with
    | Some sel =>
        match find_node sel (storyboards st) with
        | Some node => setClipboard (Some node) st
        | None => st
        end
    | None => st
    end
  else st.

(** [newNode] of [handlePaste] (lines 128-147): the identifier is drawn
    first, then one identifier and one timestamp per item, then the node's
    timestamp. *)
Definition pasted_node (randomUUID : nat -> string) (dateNow : nat -> Z)
    (clipboard : StoryboardGroup.t) : StoryboardGroup.t :=
  let newId := randomUUID 0%nat in
  let offset := 40%Q in
  let newItems :=
    mapi (fun i item => CanvasItem.with_id_timestamp (randomUUID (S i)) (dateNow i) item)
         (StoryboardGroup.items clipboard) in
  StoryboardGroup.mk newId (StoryboardGroup.type clipboard)
    (StoryboardGroup.title clipboard ++ " (Copy)")%string
    (StoryboardGroup.x clipboard + offset)%Q
    (StoryboardGroup.y clipboard + offset)%Q
    (StoryboardGroup.width clipboard) (StoryboardGroup.height clipboard)
    newItems
    (dateNow (length (StoryboardGroup.items clipboard)))
    [] (Some [])
    (StoryboardGroup.config clipboard) (StoryboardGroup.displayMode clipboard).

Definition handlePaste (randomUUID : nat -> string) (dateNow : nat -> Z)
    (st : AppState) : AppState :=
  match clipboard st with
  | Some clipboard =>
      let st1 := saveHistory (storyboards st) st in
      let newNode := pasted_node randomUUID dateNow clipboard in
      setSelectedNodeId (Some (StoryboardGroup.id newNode))
        (setStoryboards (fun prev => prev ++ [newNode]) st1)
  | None => st
  end.

(** [x === nodeId ? null : x] for the selection and editor slots. *)
Definition clear_if (nodeId : string) (slot : option string) : option string :=
  match slot with
  | Some s => if s =? nodeId then None else Some s
  | None => None
  end.

Definition handleDeleteNode (nodeId : string) (st : AppState) : AppState :=
  let st1 := saveHistory (storyboards st) st in
  let st2 :=
    setStoryboards (fun prev =>
      let remaining := filter (fun g => negb (StoryboardGroup.id g =? nodeId)) prev in
      map (fun g =>
        StoryboardGroup.with_inputs
          (Some (match StoryboardGroup.inputs g with
                 | Some ins => filter (fun i => negb (i =? nodeId)) ins
                 | None => []
                 end))
          (StoryboardGroup.with_connections
             (filter (fun c => negb (c =? nodeId)) (StoryboardGroup.connections g)) g))
        remaining) st1 in
  let st3 := setSelectedNodeId (clear_if nodeId (selectedNodeId st)) st2 in
  setEditorNodeId (clear_if nodeId (editorNodeId st)) st3.

(** ** Node handlers (lines 168-170, 330-369, 532-595) *)

Definition handleResizeNode (nodeId : string) (width height : Q) (st : AppState) : AppState :=
  setStoryboards (map (fun g =>
    if StoryboardGroup.id g =? nodeId
    then StoryboardGroup.with_size (Some width) (Some height) g else g)) st.

(** [handleSelectNode] (lines 326-328). *)
Definition handleSelectNode (nodeId : option string) (st : AppState) : AppState :=
  setSelectedNodeId nodeId st.

Definition handleRenameNode (nodeId newTitle : string) (st : AppState) : AppState :=
  let st1 := saveHistory (storyboards st) st in
  setStoryboards (map (fun g =>
    if StoryboardGroup.id g =? nodeId then StoryboardGroup.with_title newTitle g else g)) st1.

Definition handleUpdateStoryboard (updatedGroup : StoryboardGroup.t) (st : AppState) : AppState :=
  setStoryboards (map (fun g =>
    if StoryboardGroup.id g =? StoryboardGroup.id updatedGroup then updatedGroup else g)) st.

Definition handleDeleteItem (itemId groupId : string) (st : AppState) : AppState :=
  let st1 := saveHistory (storyboards st) st in
  let st2 :=
    setStoryboards (map (fun group =>
      if negb (StoryboardGroup.id group =? groupId) then group
      else StoryboardGroup.with_items
             (filter (fun i => negb (CanvasItem.id i =? itemId)) (StoryboardGroup.items group))
             group)) st1 in
  match selectedItemId st with
  | Some sel => if sel =? itemId then setSelectedItemId None st2 else st2
  | None => st2
  end.

Definition handleDuplicateNode (randomUUID : nat -> string) (dateNow : nat -> Z)
    (nodeId : string) (st : AppState) : AppState :=
  let st1 := saveHistory (storyboards st) st in
  match find_node nodeId (storyboards st) with
  | None => st1
  | Some nodeToDuplicate =>
      let newId := randomUUID 0%nat in
      let duplicatedNode :=
        StoryboardGroup.mk newId (StoryboardGroup.type nodeToDuplicate)
          (StoryboardGroup.title nodeToDuplicate ++ " (Copy)")%string
          (StoryboardGroup.x nodeToDuplicate + 50)%Q
          (StoryboardGroup.y nodeToDuplicate + 50)%Q
          (StoryboardGroup.width nodeToDuplicate) (StoryboardGroup.height nodeToDuplicate)
          (mapi (fun i item =>
                   CanvasItem.with_id_timestamp (randomUUID (S i)) (dateNow i) item)
                (StoryboardGroup.items nodeToDuplicate))
          (StoryboardGroup.timestamp nodeToDuplicate)
          [] (Some [])
          (StoryboardGroup.config nodeToDuplicate)
          (StoryboardGroup.displayMode nodeToDuplicate) in
      setStoryboards (fun prev => prev ++ [duplicatedNode]) st1
  end.

Definition handleCreateMusicNode (randomUUID : nat -> string) (dateNow : nat -> Z)
    (x y : Q) (st : AppState) : AppState :=
  let st1 := saveHistory (storyboards st) st in
  let newNode :=
    StoryboardGroup.mk (randomUUID 0%nat) music "Music" x y None None []
      (dateNow 0%nat) [] None None None in
  setStoryboards (fun prev => prev ++ [newNode]) st1.

Definition handleCreateVideoNode (randomUUID : nat -> string) (dateNow : nat -> Z)
    (x y : Q) (st : AppState) : AppState :=
  let st1 := saveHistory (storyboards st) st in
  let newNode :=
    StoryboardGroup.mk (randomUUID 0%nat) video "Video Library" x y None None []
      (dateNow 0%nat) [] None None None in
  setStoryboards (fun prev => prev ++ [newNode]) st1.

(** [handleCreateMVStoryboard] (lines 508-530); [DEFAULT_STORYBOARD_PROMPT]
    is a constant of the generation service and is taken as an argument. *)
Definition handleCreateMVStoryboard (randomUUID : nat -> string) (dateNow : nat -> Z)
    (DEFAULT_STORYBOARD_PROMPT : string) (x y : Q) (st : AppState) : AppState :=
  let st1 := saveHistory (storyboards st) st in
  let newNode :=
    StoryboardGroup.mk (randomUUID 0%nat) mv_storyboard "MV Storyboard Script" x y
      (Some 1000%Q) None [] (dateNow 0%nat) [] (Some [])
      (Some (NodeConfig.mk (Some EmptyString) (Some GRID_2x2) (Some WIDE) None None None None None
               (Some DEFAULT_STORYBOARD_PROMPT) None None (Some []) None None))
      None in
  setStoryboards (fun prev => prev ++ [newNode]) st1.

(** The update that stores the scenes a storyboard synthesis returned
    (line 780). *)
Definition store_scenes (agentId : string) (scenes : list MVScene.t) (st : AppState)
    : AppState :=
  setStoryboards (map (fun g =>
    if StoryboardGroup.id g =? agentId
    then StoryboardGroup.with_config
           (Some (NodeConfig.with_mvScenes (Some scenes) (spread_config g))) g
    else g)) st.

(** The node's configuration is built with [timelineClips: []], a new
    array. *)
Definition handleCreateTimelineNode (randomUUID : nat -> string) (dateNow : nat -> Z)
    (x y : Q) (st : AppState) : AppState :=
  let st1 := saveHistory (storyboards st) st in
  let '(clips, h) := Store.alloc [] (heap st1) in
  let newNode :=
    StoryboardGroup.mk (randomUUID 0%nat) timeline "Timeline Edit" x y
      (Some 1000%Q) (Some 600%Q) [] (dateNow 0%nat) [] (Some [])
      (Some (NodeConfig.mk (Some EmptyString) (Some GRID_2x2) (Some WIDE) None None None None None
               None None None None None (Some clips)))
      None in
  with_heap h (setStoryboards (fun prev => prev ++ [newNode]) st1).

(** [sourceNode?.connections.includes(targetNodeId)] *)
Definition already_connected (sourceNode : option StoryboardGroup.t) (targetNodeId : string)
    : bool :=
  match sourceNode with
  | Some s => includes (StoryboardGroup.connections s) targetNodeId
  | None => false
  end.

(** The guard of the auto-configure branch (line 570):
    [group.type === 'timeline' && sourceNode?.type === 'music'
     && sourceNode.items.length > 0]; yields the first item when it holds. *)
Definition music_into_timeline (group : StoryboardGroup.t)
    (sourceNode : option StoryboardGroup.t) : option CanvasItem.t :=
  match sourceNode with
  | Some s =>
      if StoryboardType_beq (StoryboardGroup.type group) timeline
         && StoryboardType_beq (StoryboardGroup.type s) music
         && (0 <? length (StoryboardGroup.items s))%nat
      then nth_error (StoryboardGroup.items s) 0
      else None
  | None => None
  end.

(** The arrow function mapped over [prev] by [handleConnect]
    (lines 565-585). *)
Definition connect_node (sourceNode : option StoryboardGroup.t)
    (sourceNodeId targetNodeId : string) (group : StoryboardGroup.t) : StoryboardGroup.t :=
  let as_source :=
    if StoryboardGroup.id group =? sourceNodeId then
      let connections := StoryboardGroup.connections group in
      if negb (includes connections targetNodeId)
      then StoryboardGroup.with_connections (connections ++ [targetNodeId]) group
      else group
    else group in
  if StoryboardGroup.id group =? targetNodeId then
    let inputs := StoryboardGroup.inputs_or_empty group in
    match music_into_timeline group sourceNode with
    | Some first =>
        StoryboardGroup.with_config
          (Some (NodeConfig.with_timelineAudioUrl (Some (CanvasItem.url first))
                   (spread_config group)))
          (StoryboardGroup.with_inputs (Some (inputs ++ [sourceNodeId])) group)
    | None =>
        if negb (includes inputs sourceNodeId)
        then StoryboardGroup.with_inputs (Some (inputs ++ [sourceNodeId])) group
        else as_source
    end
  else as_source.

(** The updater passed to [setStoryboards] by [handleConnect]. *)
Definition connect_update (sourceNode : option StoryboardGroup.t)
    (sourceNodeId targetNodeId : string) (prev : list StoryboardGroup.t)
    : list StoryboardGroup.t :=
  map (connect_node sourceNode sourceNodeId targetNodeId) prev.

(** The arrow function mapped over [prev] by [handleDisconnect]
    (lines 590-594). *)
Definition disconnect_node (sourceNodeId targetNodeId : string)
    (group : StoryboardGroup.t) : StoryboardGroup.t :=
  if StoryboardGroup.id group =? targetNodeId then
    StoryboardGroup.with_inputs
      (Some (match StoryboardGroup.inputs group with
             | Some ins => filter (fun id => negb (id =? sourceNodeId)) ins
             | None => []
             end)) group
  else if StoryboardGroup.id group =? sourceNodeId then
    StoryboardGroup.with_connections
      (filter (fun id => negb (id =? targetNodeId)) (StoryboardGroup.connections group))
      group
  else group.

Definition handleConnect (sourceNodeId targetNodeId : string) (st : AppState) : AppState :=
  if sourceNodeId =? targetNodeId then st
  else
    let sourceNode := find_node sourceNodeId (storyboards st) in
    if already_connected sourceNode targetNodeId then st
    else
      let st1 := saveHistory (storyboards st) st in
      setStoryboards (connect_update sourceNode sourceNodeId targetNodeId) st1.

Definition handleDisconnect (sourceNodeId targetNodeId : string) (st : AppState) : AppState :=
  let st1 := saveHistory (storyboards st) st in
  setStoryboards (map (disconnect_node sourceNodeId targetNodeId)) st1.

(** ** Timeline handlers (lines 789-924) *)

(** [{ ...g, config: { ...g.config!, timelineClips: l } }] *)
Definition set_clips_ref (l : option Loc) (g : StoryboardGroup.t) : StoryboardGroup.t :=
  StoryboardGroup.with_config (Some (NodeConfig.with_timelineClips l (spread_config g))) g.

(** [agent.config?.timelineClips || []]: the node's own array when it has
    one (an array is truthy even when empty), a new empty array otherwise. *)
Definition clips_or_new (agentNode : StoryboardGroup.t) (h : Heap) : Loc * Heap :=
  match clips_ref agentNode with
  | Some l => (l, h)
  | None => Store.alloc [] h
  end.

(** [item.duration || 5] *)
Definition duration_or_5 (d : option Q) : Q :=
  match d with
  | Some q => if Qeq_bool q 0 then 5%Q else q
  | None => 5%Q
  end.

(** The body of [inputNode.items.forEach] (lines 801-814); the state of the
    loop is the store and [inputCount]. *)
Definition import_item (randomUUID : nat -> string) (dateNow : nat -> Z)
    (importedClips : Loc) (acc : Heap * nat) (item : CanvasItem.t) : Heap * nat :=
  let '(h, inputCount) := acc in
  if negb (existsb (fun c => TimelineClip.videoUrl c =? CanvasItem.url item)
                   (Store.read h importedClips))
  then
    (Store.push importedClips
       (TimelineClip.mk (randomUUID inputCount)
          ("import-" ++ show_Z (dateNow inputCount) ++ "-" ++ show_nat inputCount)%string
          (CanvasItem.url item) (CanvasItem.url item)
          (duration_or_5 (CanvasItem.duration item))
          (or_else (CanvasItem.fileName item) "Imported Video")
          TimelineClip.done) h,
     S inputCount)
  else acc.

(** The body of [agent.inputs.forEach] (lines 798-816). *)
Definition import_input (randomUUID : nat -> string) (dateNow : nat -> Z)
    (storyboards0 : list StoryboardGroup.t) (importedClips : Loc)
    (acc : Heap * nat) (inputId : string) : Heap * nat :=
  match find_node inputId storyboards0 with
  | Some inputNode =>
      if StoryboardType_beq (StoryboardGroup.type inputNode) video
      then fold_left (import_item randomUUID dateNow importedClips)
                     (StoryboardGroup.items inputNode) acc
      else acc
  | None => acc
  end.

Definition handleImportVideosToTimeline (randomUUID : nat -> string) (dateNow : nat -> Z)
    (agentId : string) (st : AppState) : AppState :=
  let storyboards0 := storyboards st in
  match find_node agentId storyboards0 with
  | None => st
  | Some agentNode =>
      let st1 := saveHistory storyboards0 st in
      let '(importedClips, h0) := clips_or_new agentNode (heap st1) in
      let '(h1, inputCount) :=
        match StoryboardGroup.inputs agentNode with
        | Some ins =>
            fold_left (import_input randomUUID dateNow storyboards0 importedClips)
                      ins (h0, 0%nat)
        | None => (h0, 0%nat)
        end in
      let st2 := with_heap h1 st1 in
      if (inputCount =? 0)%nat
      then setError (Some "No videos found in connected Video Nodes.") st2
      else
        setStoryboards (map (fun g =>
          if StoryboardGroup.id g =? agentId
          then set_clips_ref (Some importedClips) g else g)) st2
  end.

(** What a call of the remote [generateVideoClip] comes back with: the
    promise resolves with a URL, or rejects with a value whose [message]
    may be absent. *)
Inductive Outcome :=
| Resolved (videoUrl : string)
| Rejected (message : option string).

(** An entry of [clipsToGenerate]. *)
Record ToGenerate := mkToGenerate {
  index : nat;
  scene : MVScene.t;
  clipId : string
}.

(** [new Set(prev).add(id)] and [next.delete(id)] *)
Definition set_add (id : string) (s : list string) : list string :=
  if includes s id then s else s ++ [id].

Definition set_delete (id : string) (s : list string) : list string :=
  filter (fun e => negb (e =? id)) s.

(** The body of the loop over [agent.inputs] (lines 839-847); the state is
    [(mvScenes, audioUrl)]. *)
Definition gather_input (storyboards0 : list StoryboardGroup.t)
    (acc : list MVScene.t * option string) (inputId : string)
    : list MVScene.t * option string :=
  match find_node inputId storyboards0 with
  | Some inputNode =>
      let '(mvScenes, audioUrl) := acc in
      let mvScenes' :=
        if StoryboardType_beq (StoryboardGroup.type inputNode) mv_storyboard then
          match StoryboardGroup.config inputNode with
          | Some c =>
              match NodeConfig.mvScenes c with
              | Some scenes => scenes
              | None => mvScenes
              end
          | None => mvScenes
          end
        else mvScenes in
      let audioUrl' :=
        if StoryboardType_beq (StoryboardGroup.type inputNode) music then
          match StoryboardGroup.items inputNode with
          | first :: _ => Some (CanvasItem.url first)
          | [] => audioUrl
          end
        else audioUrl in
      (mvScenes', audioUrl')
  | None => acc
  end.

(** [placeholderClip] (lines 867-875). *)
Definition placeholderClip (clipId : string) (i : nat) (scene : MVScene.t) : TimelineClip.t :=
  TimelineClip.mk clipId ("scene-" ++ show_nat i)%string EmptyString
    (or_else (MVScene.imageUrl scene) EmptyString)
    4%Q (MVScene.visualDescription scene) TimelineClip.generating.

(** The body of the placeholder loop (lines 859-878); the state is the
    store, the number of identifiers drawn so far, and [clipsToGenerate]. *)
Definition placeholder_step (randomUUID : nat -> string) (currentClips : Loc)
    (acc : Heap * nat * list ToGenerate) (entry : nat * MVScene.t)
    : Heap * nat * list ToGenerate :=
  let '(h, drawn, clipsToGenerate) := acc in
  let '(i, scene) := entry in
  let sceneId := ("scene-" ++ show_nat i)%string in
  if existsb (fun c => (TimelineClip.sceneId c =? sceneId)
                       && TimelineClip.Status_beq (TimelineClip.status c) TimelineClip.done)
             (Store.read h currentClips)
  then acc
  else if negb (truthy (MVScene.imageUrl scene)) then acc
  else
    let clipId := randomUUID drawn in
    (Store.push currentClips (placeholderClip clipId i scene) h, S drawn,
     clipsToGenerate ++ [mkToGenerate i scene clipId]).

(** [prev.map(g => g.id !== agentId ? g :
       { ...g, config: { ...g.config!, timelineClips:
           g.config?.timelineClips?.map(f) } })] (lines 892-901, 906-915). *)
Definition update_clips (agentId : string) (f : TimelineClip.t -> TimelineClip.t)
    (prev : list StoryboardGroup.t) (h : Heap) : list StoryboardGroup.t * Heap :=
  map_alloc (fun g h =>
    if negb (StoryboardGroup.id g =? agentId) then (g, h)
    else
      match clips_ref g with
      | Some l =>
          let '(updatedClips, h') := Store.alloc (map f (Store.read h l)) h in
          (set_clips_ref (Some updatedClips) g, h')
      | None => (set_clips_ref None g, h)
      end) prev h.

(** [prev.map(g => g.id === agentId ?
       { ...g, config: { ...g.config!, timelineClips: [...currentClips] } } : g)]
    (line 881). *)
Definition copy_clips (agentId : string) (currentClips : Loc)
    (prev : list StoryboardGroup.t) (h : Heap) : list StoryboardGroup.t * Heap :=
  map_alloc (fun g h =>
    if StoryboardGroup.id g =? agentId then
      let '(copy, h') := Store.alloc (Store.read h currentClips) h in
      (set_clips_ref (Some copy) g, h')
    else (g, h)) prev h.

(** [{ ...g, config: { ...g.config!, timelineAudioUrl: audioUrl } }] on the
    node [agentId] (line 852). *)
Definition set_audio (agentId : string) (audioUrl : option string)
    (g : StoryboardGroup.t) : StoryboardGroup.t :=
  if StoryboardGroup.id g =? agentId
  then StoryboardGroup.with_config
         (Some (NodeConfig.with_timelineAudioUrl audioUrl (spread_config g))) g
  else g.

(** One turn of the generation loop (lines 884-917): the [try] branch when
    the call resolves, the [catch] branch when it rejects.  [k] is the
    number of calls of [generateVideoClip] made before this one. *)
Definition generate_step (generateVideoClip : nat -> string -> string -> Outcome)
    (agentId : string) (st : AppState) (entry : nat * ToGenerate) : AppState :=
  let '(k, item) := entry in
  let scene := scene item in
  match generateVideoClip k (or_else (MVScene.imageUrl scene) EmptyString)
          (or_else (Some (MVScene.midjourneyPrompt scene)) (MVScene.visualDescription scene)) with
  | Resolved videoUrl =>
      setStoryboardsH (update_clips agentId (fun c =>
        if TimelineClip.id c =? clipId item
        then TimelineClip.with_videoUrl_done videoUrl c else c)) st
  | Rejected message =>
      setStoryboardsH (update_clips agentId (fun c =>
        if TimelineClip.id c =? clipId item
        then TimelineClip.with_error_prompt ("Error: " ++ or_else message "Failed")%string c
        else c)) st
  end.

Definition handleGenerateTimeline (randomUUID : nat -> string)
    (generateVideoClip : nat -> string -> string -> Outcome)
    (agentId : string) (st : AppState) : AppState :=
  let storyboards0 := storyboards st in
  match find_node agentId storyboards0 with
  | None => st
  | Some agentNode =>
      let st1 := setError None (setGeneratingAgents (set_add agentId) st) in
      let finally := setGeneratingAgents (set_delete agentId) in
      let '(mvScenes, audioUrl) :=
        match StoryboardGroup.inputs agentNode with
        | Some ins => fold_left (gather_input storyboards0) ins ([], None)
        | None => ([], None)
        end in
      if (length mvScenes =? 0)%nat then
        finally (setError (Some "Please connect an MV Storyboard with generated scenes.") st1)
      else
        let st2 :=
          if truthy audioUrl then setStoryboards (map (set_audio agentId audioUrl)) st1
          else st1 in
        let '(currentClips, h0) := clips_or_new agentNode (heap st2) in
        let '(h1, _, clipsToGenerate) :=
          fold_left (placeholder_step randomUUID currentClips)
                    (mapi (fun i scene => (i, scene)) mvScenes) (h0, 0%nat, []) in
        let st3 := setStoryboardsH (copy_clips agentId currentClips) (with_heap h1 st2) in
        let st4 :=
          fold_left (generate_step generateVideoClip agentId)
                    (mapi (fun k item => (k, item)) clipsToGenerate) st3 in
        finally st4
  end.

(** ** The timeline player ([TimelinePlayer], Button.tsx lines 315-395, 777-784) *)

Module TimelinePlayer.
(** [clips.reduce((acc, clip) => acc + clip.duration, 0)] *)
Definition clipsDur (clips : list TimelineClip.t) : Q :=
  fold_left (fun acc clip => acc + TimelineClip.duration clip)%Q clips 0%Q.

(** The value the effect of lines 346-349 stores in [totalDuration]. *)
Definition totalDuration (clips : list TimelineClip.t) (audioDuration : Q) : Q :=
  Math_max (clipsDur clips) [audioDuration; 60%Q].

Record ResizingState := mkResizing {
  id : string;
  startX : Q;
  startDuration : Q
}.

(** [onMouseDown] of a clip's resize handle (line 863). *)
Definition onMouseDown (clip : TimelineClip.t) (clientX : Q) : ResizingState :=
  mkResizing (TimelineClip.id clip) clientX (TimelineClip.duration clip).

(** [Math.max(0.5, resizingState.startDuration + deltaTime)];
    [pixelsPerSecond] comes from a slider ranging over 10..100. *)
Definition newDuration (resizingState : ResizingState) (pixelsPerSecond clientX : Q) : Q :=
  let deltaPixels := (clientX - startX resizingState)%Q in
  let deltaTime := (deltaPixels / pixelsPerSecond)%Q in
  Math_max (1 # 2)%Q [(startDuration resizingState + deltaTime)%Q].

(** [handleMouseMove] (lines 366-378): the clip list handed to
    [onUpdateClips]; [None] when no resize is in progress and the
    handler returns at once. *)
Definition handleMouseMove (resizingState : option ResizingState)
    (pixelsPerSecond clientX : Q) (clips : list TimelineClip.t)
    : option (list TimelineClip.t) :=
  match resizingState with
  | None => None
  | Some rs =>
      Some (map (fun c =>
              if TimelineClip.id c =? id rs
              then TimelineClip.with_duration (newDuration rs pixelsPerSecond clientX) c
              else c) clips)
  end.

(** The start of clip [i] (lines 779-780):
    [let startTime = 0; for (let j = 0; j < i; j++) startTime += clips[j].duration].
    The loop runs inside [clips.map((clip, i) => ...)], so [j < i < clips.length]
    and [clips[j]] is always defined. *)
Definition startTime (clips : list TimelineClip.t) (i : nat) : Q :=
  fold_left (fun startTime j =>
               match nth_error clips j with
               | Some c => (startTime + TimelineClip.duration c)%Q
               | None => startTime
               end) (seq 0 i) 0%Q.

(** The [left] offsets of the rendered clips, in seconds. *)
Definition startTimes (clips : list TimelineClip.t) : list Q :=
  mapi (fun i _ => startTime clips i) clips.
End TimelinePlayer.

(** [onUpdateClips] as the canvas wires it (Button.tsx lines 1472-1477):
    the new clip list is a new array. *)
Definition onUpdateClips (group : StoryboardGroup.t) (newClips : list TimelineClip.t)
    (st : AppState) : AppState :=
  let '(l, h) := Store.alloc newClips (heap st) in
  handleUpdateStoryboard (set_clips_ref (Some l) group) (with_heap h st).

(** ** Initialization (lines 191-232) *)

(** [initTemplate]; [DEFAULT_AGENT_SYSTEM_PROMPT] is a constant of the
    generation service and is taken as an argument. *)
Definition initTemplate (randomUUID : nat -> string) (dateNow : nat -> Z)
    (DEFAULT_AGENT_SYSTEM_PROMPT : string) (st : AppState) : AppState :=
  let assetNodeId := randomUUID 0%nat in
  let agentNodeId := randomUUID 1%nat in
  let defaultAssets :=
    StoryboardGroup.mk assetNodeId assets "Reference Assets" 100%Q 300%Q None None []
      (dateNow 0%nat) [agentNodeId] None None None in
  let defaultAgent :=
    StoryboardGroup.mk agentNodeId agent "Storyboard Master" 600%Q 250%Q None None []
      (dateNow 1%nat) [] (Some [assetNodeId])
      (Some (NodeConfig.mk (Some "A cinematic shot of...") (Some GRID_2x2) (Some WIDE)
               (Some []) (Some false) (Some "None") (Some "None") None
               (Some DEFAULT_AGENT_SYSTEM_PROMPT) None None None None None))
      None in
  setStoryboards (fun _ => [defaultAssets; defaultAgent]) st.

(** ** Sample sessions

    Concrete states used to run the handlers. *)

Module Sample.
(** A deterministic stand-in for [crypto.randomUUID()]: the k-th
    identifier drawn by a handler run tagged [tag]. *)
Definition uuid (tag : string) (k : nat) : string :=
  (tag ++ "-" ++ show_nat k)%string.

Definition clock (base : Z) (k : nat) : Z := (base + Z.of_nat k)%Z.

(** The state of a freshly mounted [App]. *)
Definition mounted : AppState := mkApp [] [] None [] None None None None [].

(** After [initTemplate]: an assets node ["n-0"] wired to an agent ["n-1"]. *)
Definition template : AppState :=
  initTemplate (uuid "n") (clock 1000) "ACT AS: An Expert Visual Director." mounted.

(** The assets node ["n-0"] selected, then copied. *)
Definition copied : AppState :=
  handleCopy (handleSelectNode (Some "n-0") template).

(** A music bin ["m-0"] holding one audio item, and a timeline ["t-0"]. *)
Definition song : CanvasItem.t :=
  CanvasItem.mk "item-song" "blob:song.mp3" audio_t None None 1500%Z None None
    (Some "song.mp3").

Definition music_and_timeline : AppState :=
  handleCreateTimelineNode (uuid "t") (clock 1700) 600 100
    (setStoryboards
       (map (fun g => if StoryboardGroup.id g =? "m-0"
                      then StoryboardGroup.with_items [song] g else g))
       (handleCreateMusicNode (uuid "m") (clock 1400) 100 100 mounted)).

(** Three clips of four seconds each, as a generation batch leaves them. *)
Definition clip (name : string) : TimelineClip.t :=
  TimelineClip.mk name ("scene-" ++ name)%string ("blob:" ++ name)%string
    ("data:" ++ name)%string 4%Q name TimelineClip.done.

Definition three_clips : list TimelineClip.t := [clip "a"; clip "b"; clip "c"].

(** A video library ["v-0"] holding one file dropped on it, wired into a
    timeline ["t-0"] whose clip list is still empty. *)
Definition footage : CanvasItem.t :=
  CanvasItem.mk "item-footage" "blob:take1.mp4" video_t None None 1500%Z None (Some 7%Q)
    (Some "take1.mp4").

Definition video_into_timeline : AppState :=
  handleConnect "v-0" "t-0"
    (handleCreateTimelineNode (uuid "t") (clock 1700) 600 100
       (setStoryboards
          (map (fun g => if StoryboardGroup.id g =? "v-0"
                         then StoryboardGroup.with_items [footage] g else g))
          (handleCreateVideoNode (uuid "v") (clock 1400) 100 100 mounted))).

(** The "import videos" action on the timeline, then undo. *)
Definition imported : AppState :=
  handleImportVideosToTimeline (uuid "c") (clock 2000) "t-0" video_into_timeline.

Definition import_undone : AppState := handleUndo imported.

(** A storyboard ["s-0"] holding three scenes with images, wired into an
    empty timeline ["t-0"]. *)
Definition shot (name : string) : MVScene.t :=
  MVScene.mk "00:00" "steady" ("shot " ++ name)%string ("prompt " ++ name)%string "pan"
    (Some ("data:image-" ++ name)%string).

Definition storyboard_into_timeline : AppState :=
  handleConnect "s-0" "t-0"
    (handleCreateTimelineNode (uuid "t") (clock 1700) 900 100
       (store_scenes "s-0" [shot "one"; shot "two"; shot "three"]
          (handleCreateMVStoryboard (uuid "s") (clock 1400) "ACT AS: An Expert Film Director."
             100 100 mounted))).

(** The timeline node of that state. *)
Definition timeline_node : StoryboardGroup.t :=
  StoryboardGroup.mk "t-0" timeline "Timeline Edit" 900 100 (Some 1000%Q) (Some 600%Q) []
    1700%Z [] (Some ["s-0"])
    (Some (NodeConfig.mk (Some EmptyString) (Some GRID_2x2) (Some WIDE) None None None None None
             None None None None None (Some 0%nat)))
    None.

(** A generation service whose second call fails. *)
Definition second_fails (k : nat) (imageUrl prompt : string) : Outcome :=
  if (k =? 1)%nat then Rejected (Some "quota exceeded")
  else Resolved ("blob:video-" ++ show_nat k)%string.

(** The batch run on that timeline. *)
Definition generated : AppState :=
  handleGenerateTimeline (uuid "clip") second_fails "t-0" storyboard_into_timeline.

(** Two pastes in a row. *)
Definition pasted_twice : AppState :=
  handlePaste (uuid "q") (clock 3000) (handlePaste (uuid "p") (clock 2000) copied).
End Sample.

(** ** Vocabulary of the statements *)

(** The outbound and inbound lists of a node, as the graph reads them. *)
Definition edges (g : StoryboardGroup.t) : string * list string * list string :=
  (StoryboardGroup.id g, StoryboardGroup.connections g, StoryboardGroup.inputs_or_empty g).

(** Where a node sits on the canvas. *)
Definition position (g : StoryboardGroup.t) : Q * Q :=
  (StoryboardGroup.x g, StoryboardGroup.y g).

Definition same_position (p q : Q * Q) : Prop :=
  (fst p == fst q)%Q /\ (snd p == snd q)%Q.

(** The nodes added at the end of the collection [before] to give [after]. *)
Definition appended (before after : list StoryboardGroup.t) : list StoryboardGroup.t :=
  skipn (length before) after.

(** [group.config?.timelineAudioUrl], the audio reference a timeline node
    hands to its player (Button.tsx line 1469). *)
Definition audio_ref (g : StoryboardGroup.t) : option string :=
  match StoryboardGroup.config g with
  | Some c => NodeConfig.timelineAudioUrl c
  | None => None
  end.

(** The sum of the clip durations. *)
Fixpoint sum_durations (clips : list TimelineClip.t) : Q :=
  match clips with
  | [] => 0%Q
  | c :: rest => (TimelineClip.duration c + sum_durations rest)%Q
  end.

(** A history-guarded action whose update builds new objects:
    [saveHistory()] followed by [setStoryboards(prev => f(prev))]. *)
Definition guarded (f : list StoryboardGroup.t -> list StoryboardGroup.t)
    (st : AppState) : AppState :=
  setStoryboards f (saveHistory (storyboards st) st).

(** Guarded actions one after the other. *)
Definition run (fs : list (list StoryboardGroup.t -> list StoryboardGroup.t))
    (st : AppState) : AppState :=
  fold_left (fun s f => guarded f s) fs st.

(** The node collections the actions of [run fs st] start from, in order. *)
Fixpoint snapshots (fs : list (list StoryboardGroup.t -> list StoryboardGroup.t))
    (sb : list StoryboardGroup.t) : list (list StoryboardGroup.t) :=
  match fs with
  | [] => []
  | f :: fs' => sb :: snapshots fs' (f sb)
  end.

(** [n] undos in a row. *)
Fixpoint undos (n : nat) (st : AppState) : AppState :=
  match n with
  | O => st
  | S n' => undos n' (handleUndo st)
  end.

(** Every clip-array reference held by a node of [sb] points into [h]. *)
Definition refs_ok (h : Heap) (sb : list StoryboardGroup.t) : Prop :=
  forall g, In g sb -> forall r, clips_ref g = Some r -> (r < length h)%nat.

(** The call of [generateVideoClip] made for entry [item], the [k]-th of
    the batch (line 889). *)
Definition call (generateVideoClip : nat -> string -> string -> Outcome)
    (k : nat) (item : ToGenerate) : Outcome :=
  generateVideoClip k (or_else (MVScene.imageUrl (scene item)) EmptyString)
    (or_else (Some (MVScene.midjourneyPrompt (scene item)))
             (MVScene.visualDescription (scene item))).

(** What one turn of the generation loop does to a clip. *)
Definition entry_update (generateVideoClip : nat -> string -> string -> Outcome)
    (entry : nat * ToGenerate) : TimelineClip.t -> TimelineClip.t :=
  match call generateVideoClip (fst entry) (snd entry) with
  | Resolved videoUrl =>
      fun c => if TimelineClip.id c =? clipId (snd entry)
               then TimelineClip.with_videoUrl_done videoUrl c else c
  | Rejected message =>
      fun c => if TimelineClip.id c =? clipId (snd entry)
               then TimelineClip.with_error_prompt
                      ("Error: " ++ or_else message "Failed")%string c
               else c
  end.

(** What the turns for [entries], in order, do to a clip. *)
Definition finish (generateVideoClip : nat -> string -> string -> Outcome)
    (entries : list (nat * ToGenerate)) (c : TimelineClip.t) : TimelineClip.t :=
  fold_left (fun c e => entry_update generateVideoClip e c) entries c.

(** The placeholder the batch pushed for an entry of [clipsToGenerate]. *)
Definition placeholder_of (item : ToGenerate) : TimelineClip.t :=
  placeholderClip (clipId item) (index item) (scene item).

(** A later store [h'] keeps every array of [h]. *)
Definition extends (h h' : Heap) : Prop :=
  (length h <= length h')%nat /\
  forall r, (r < length h)%nat -> Store.read h' r = Store.read h r.

(** [currentClips.some(c => c.sceneId === sceneId && c.status === 'done')]
    for scene number [i]. *)
Definition done_in (clips : list TimelineClip.t) (i : nat) : bool :=
  existsb (fun c => (TimelineClip.sceneId c =? ("scene-" ++ show_nat i)%string)
                    && TimelineClip.Status_beq (TimelineClip.status c) TimelineClip.done)
          clips.

(** The entries the placeholder loop queues for the numbered scenes [es]
    when the timeline held [old] and [k] identifiers were drawn before:
    a scene is skipped when [old] has a finished clip for it or when it has
    no image. *)
Fixpoint select (randomUUID : nat -> string) (old : list TimelineClip.t) (k : nat)
    (es : list (nat * MVScene.t)) : list ToGenerate :=
  match es with
  | [] => []
  | (i, scene) :: es' =>
      if done_in old i || negb (truthy (MVScene.imageUrl scene))
      then select randomUUID old k es'
      else mkToGenerate i scene (randomUUID k) :: select randomUUID old (S k) es'
  end.

(** The scenes a timeline node reads from its inputs (lines 838-848). *)
Definition gathered_scenes (sb : list StoryboardGroup.t) (agentNode : StoryboardGroup.t)
    : list MVScene.t :=
  fst (fold_left (gather_input sb) (StoryboardGroup.inputs_or_empty agentNode) ([], None)).

(** The list [handleMouseMove] builds during a resize, with [d] for the new
    duration. *)
Definition resized_clips (rs : TimelinePlayer.ResizingState) (d : Q)
    (clips : list TimelineClip.t) : list TimelineClip.t :=
  map (fun c => if TimelineClip.id c =? TimelinePlayer.id rs
                then TimelineClip.with_duration d c else c) clips.

(** ** Graph invariants *)

(** Every edge is recorded on both sides: [a] lists [b] as a target exactly
    when [b] lists [a] as an input. *)
Definition symmetric (sb : list StoryboardGroup.t) : Prop :=
  forall a b, In a sb -> In b sb ->
    (In (StoryboardGroup.id b) (StoryboardGroup.connections a) <->
     In (StoryboardGroup.id a) (StoryboardGroup.inputs_or_empty b)).

(** Every identifier a node lists belongs to a node of the collection. *)
Definition closed (sb : list StoryboardGroup.t) : Prop :=
  forall g r, In g sb ->
    In r (StoryboardGroup.connections g) \/ In r (StoryboardGroup.inputs_or_empty g) ->
    In r (map StoryboardGroup.id sb).

(** No node lists itself. *)
Definition no_self_loops (sb : list StoryboardGroup.t) : Prop :=
  forall g, In g sb ->
    ~ In (StoryboardGroup.id g) (StoryboardGroup.connections g) /\
    ~ In (StoryboardGroup.id g) (StoryboardGroup.inputs_or_empty g).

(** ** Discrete editing actions *)

(** The history-guarded handlers of the graph store that build new objects,
    as one type of actions. *)
Inductive Action :=
| Rename (nodeId newTitle : string)
| DeleteNode (nodeId : string)
| DeleteItem (itemId groupId : string)
| Duplicate (randomUUID : nat -> string) (dateNow : nat -> Z) (nodeId : string)
| Connect (sourceNodeId targetNodeId : string)
| Disconnect (sourceNodeId targetNodeId : string)
| Paste (randomUUID : nat -> string) (dateNow : nat -> Z)
| CreateMusic (randomUUID : nat -> string) (dateNow : nat -> Z) (x y : Q)
| CreateVideo (randomUUID : nat -> string) (dateNow : nat -> Z) (x y : Q).

Definition step (a : Action) (st : AppState) : AppState :=
  match a with
  | Rename nodeId newTitle => handleRenameNode nodeId newTitle st
  | DeleteNode nodeId => handleDeleteNode nodeId st
  | DeleteItem itemId groupId => handleDeleteItem itemId groupId st
  | Duplicate u n nodeId => handleDuplicateNode u n nodeId st
  | Connect A B => handleConnect A B st
  | Disconnect A B => handleDisconnect A B st
  | Paste u n => handlePaste u n st
  | CreateMusic u n x y => handleCreateMusicNode u n x y st
  | CreateVideo u n x y => handleCreateVideoNode u n x y st
  end.

(** Whether the handler gets past its guards and calls [saveHistory]:
    [handleConnect] returns early on a self connection or an existing edge,
    [handlePaste] does nothing on an empty clipboard. *)
Definition commits (a : Action) (st : AppState) : bool :=
  match a with
  | Connect A B =>
      negb (A =? B) && negb (already_connected (find_node A (storyboards st)) B)
  | Paste _ _ => match clipboard st with Some _ => true | None => false end
  | _ => true
  end.

(** A session: actions one after the other. *)
Definition steps (l : list Action) (st : AppState) : AppState :=
  fold_left (fun s a => step a s) l st.

(** ** Edits that bypass the history *)

(** The handlers that change the state without a call to [saveHistory]:
    [handleResizeNode], [handleUpdateStoryboard], [handleSelectNode] and the
    timeline player's [onUpdateClips]. *)
Inductive Edit :=
| Resize (nodeId : string) (width height : Q)
| Update (updatedGroup : StoryboardGroup.t)
| Select (nodeId : option string)
| UpdateClips (group : StoryboardGroup.t) (newClips : list TimelineClip.t).

Definition edit (e : Edit) (st : AppState) : AppState :=
  match e with
  | Resize nodeId w h => handleResizeNode nodeId w h st
  | Update g => handleUpdateStoryboard g st
  | Select o => handleSelectNode o st
  | UpdateClips g newClips => onUpdateClips g newClips st
  end.

Definition edits (l : list Edit) (st : AppState) : AppState :=
  fold_left (fun s e => edit e s) l st.

(** ** Playback, seeking and clip order in [TimelinePlayer] *)

(** [Math.min(a, ...rest)] on at least one argument. *)
Definition Math_min (a : Q) (rest : list Q) : Q := fold_left Qmin rest a.

Module Playback.
(** The loop of [syncVideo] (Button.tsx lines 542-553), entered with the
    running offset [accumTime]: the first clip whose span holds [time],
    with the offset at which it starts. *)
Fixpoint scan (accumTime time : Q) (clips : list TimelineClip.t)
    : option (TimelineClip.t * Q) :=
  match clips with
  | [] => None
  | clip :: rest =>
      if Qle_bool accumTime time &&
         negb (Qle_bool (accumTime + TimelineClip.duration clip) time)
      then Some (clip, accumTime)
      else scan (accumTime + TimelineClip.duration clip) time rest
  end.

(** [activeClip] and [clipStartTime] of [syncVideo]. *)
Definition activeClip (time : Q) (clips : list TimelineClip.t)
    : option (TimelineClip.t * Q) :=
  scan 0 time clips.

(** [isActive] of the clip rendered at index [i] (line 784). *)
Definition isActive (currentTime : Q) (clips : list TimelineClip.t) (i : nat) : bool :=
  match nth_error clips i with
  | Some clip =>
      Qle_bool (TimelinePlayer.startTime clips i) currentTime &&
      negb (Qle_bool (TimelinePlayer.startTime clips i + TimelineClip.duration clip)
                     currentTime)
  | None => false
  end.

(** The time a click on the ruler seeks to (line 762). *)
Definition seekTime (totalDuration pixelsPerSecond clickX : Q) : Q :=
  Math_max 0 [Math_min totalDuration [(clickX / pixelsPerSecond)%Q]].

(** [arr.splice(start, 1)]: the element removed, if any, and the array
    left. *)
Definition splice_out {A : Type} (start : nat) (arr : list A) : option A * list A :=
  (nth_error arr start, firstn start arr ++ skipn (S start) arr).

(** [arr.splice(start, 0, x)]. *)
Definition splice_in {A : Type} (start : nat) (x : A) (arr : list A) : list A :=
  firstn start arr ++ x :: skipn start arr.

(** [onDrop] on the clip rendered at index [i] (lines 798-807): the array
    handed to [onUpdateClips], if the handler calls it.  An entry [None] is
    [undefined], which is what [splice] hands back when [draggedClipIndex]
    is past the end. *)
Definition onDrop (draggedClipIndex : option nat) (i : nat) (clips : list TimelineClip.t)
    : option (list (option TimelineClip.t)) :=
  match draggedClipIndex with
  | Some d =>
      if negb (d =? i)%nat then
        let newClips := map Some clips in
        let '(removed, newClips1) := splice_out d newClips in
        let removed := match removed with Some r => r | None => None end in
        Some (splice_in i removed newClips1)
      else None
  | None => None
  end.

(** The [<audio>] element as [animate] reads and writes it. *)
Record AudioElement := mkAudio {
  paused : bool;
  audioTime : Q;
  ended : bool
}.

(** What one run of [animate] reads and writes: the state slots
    [isPlaying] and [currentTime], the ref [lastFrameTimeRef] and the audio
    element behind [audioRef], if mounted.  The video element and the
    waveform canvas, which [animate] only writes, are left out. *)
Record Player := mkPlayer {
  isPlaying : bool;
  currentTime : Q;
  lastFrameTime : Q;
  audio : option AudioElement
}.

(** One run of [animate] (lines 499-537) at [performance.now() = now]. *)
Definition animate (totalDuration now : Q) (p : Player) : Player :=
  if isPlaying p then
    let last := if Qeq_bool (lastFrameTime p) 0 then now else lastFrameTime p in
    let dt := ((now - last) / 1000)%Q in
    let finish (nextTime : Q) : Player :=
      if Qle_bool totalDuration nextTime then
        mkPlayer false 0 now
          (match audio p with
           | Some a => Some (mkAudio true 0 (ended a))
           | None => None
           end)
      else mkPlayer true nextTime now (audio p) in
    match audio p with
    | Some a =>
        if negb (paused a) then
          if ended a then mkPlayer false (currentTime p) now (audio p)
          else finish (audioTime a)
        else finish (currentTime p + dt)%Q
    | None => finish (currentTime p + dt)%Q
    end
  else mkPlayer false (currentTime p) 0 (audio p).

(** [handleSeek] (lines 619-624) on the player state. *)
Definition handleSeek (time : Q) (p : Player) : Player :=
  mkPlayer (isPlaying p) time (lastFrameTime p)
    (match audio p with
     | Some a => Some (mkAudio (paused a) time (ended a))
     | None => None
     end).
End Playback.

(** The list without its element at index [k]. *)
Definition without {A : Type} (k : nat) (l : list A) : list A :=
  firstn k l ++ skipn (S k) l.

(** ** The time code of the player (Button.tsx lines 627-632) *)





(** ** Importing videos into a timeline *)

(** The files of the video libraries wired into [agentNode], in the order
    [handleImportVideosToTimeline] visits them (lines 797-816). *)
Definition video_items (sb : list StoryboardGroup.t) (agentNode : StoryboardGroup.t)
    : list CanvasItem.t :=
  flat_map (fun inputId =>
              match find_node inputId sb with
              | Some inputNode =>
                  if StoryboardType_beq (StoryboardGroup.type inputNode) video
                  then StoryboardGroup.items inputNode else []
              | None => []
              end)
           (StoryboardGroup.inputs_or_empty agentNode).

(** The clips of the first node identified [agentId], as its player
    receives them. *)
Definition clips_at (agentId : string) (st : AppState) : list TimelineClip.t :=
  match find_node agentId (storyboards st) with
  | Some g => clips_of (heap st) g
  | None => []
  end.

(** ** The canvas ([Canvas], Button.tsx lines 943-1308, 1372-1379, 1978-1980) *)

(** [{ ...group, x, y }] *)
Definition with_xy (x y : Q) (g : StoryboardGroup.t) : StoryboardGroup.t :=
  StoryboardGroup.mk (StoryboardGroup.id g) (StoryboardGroup.type g)
    (StoryboardGroup.title g) x y (StoryboardGroup.width g) (StoryboardGroup.height g)
    (StoryboardGroup.items g) (StoryboardGroup.timestamp g)
    (StoryboardGroup.connections g) (StoryboardGroup.inputs g)
    (StoryboardGroup.config g) (StoryboardGroup.displayMode g).

Module Canvas.
Module Point.
Record t := mk { x : Q; y : Q }.
End Point.

(** The result of [getBoundingClientRect()]. *)
Module Rect.
Record t := mk { left : Q; top : Q; width : Q; height : Q }.
End Rect.

Module ConnectionStart.
Record t := mk { nodeId : string; x : Q; y : Q }.
End ConnectionStart.

Module ResizeStart.
Record t := mk {
  nodeId : string;
  x : Q;
  y : Q;
  initialWidth : Q;
  initialHeight : Q
}.
End ResizeStart.

(** The state slots of [Canvas] (lines 975-992) and the ref
    [isSpacePressed]; [isSpaceDown], which mirrors the ref for styling, and
    [contextMenu] are left out. *)
Record State := mkState {
  scale : Q;
  position : Point.t;
  isPanning : bool;
  hoveredNodeId : option string;
  selectedConnection : option (string * string);
  isConnecting : bool;
  connectionStart : option ConnectionStart.t;
  mousePos : Point.t;
  isSpacePressed : bool;
  draggingGroupId : option string;
  dragOffset : Point.t;
  isResizing : bool;
  resizeStart : option ResizeStart.t
}.

Definition initial : State :=
  mkState 1 (Point.mk 0 0) false None None false None (Point.mk 0 0) false None
    (Point.mk 0 0) false None.

Definition setScale (f : Q -> Q) (c : State) : State :=
  mkState (f (scale c)) (position c) (isPanning c) (hoveredNodeId c) (selectedConnection c)
    (isConnecting c) (connectionStart c) (mousePos c) (isSpacePressed c)
    (draggingGroupId c) (dragOffset c) (isResizing c) (resizeStart c).

Definition setPosition (f : Point.t -> Point.t) (c : State) : State :=
  mkState (scale c) (f (position c)) (isPanning c) (hoveredNodeId c) (selectedConnection c)
    (isConnecting c) (connectionStart c) (mousePos c) (isSpacePressed c)
    (draggingGroupId c) (dragOffset c) (isResizing c) (resizeStart c).

Definition setIsPanning (b : bool) (c : State) : State :=
  mkState (scale c) (position c) b (hoveredNodeId c) (selectedConnection c)
    (isConnecting c) (connectionStart c) (mousePos c) (isSpacePressed c)
    (draggingGroupId c) (dragOffset c) (isResizing c) (resizeStart c).

Definition setHoveredNodeId (o : option string) (c : State) : State :=
  mkState (scale c) (position c) (isPanning c) o (selectedConnection c)
    (isConnecting c) (connectionStart c) (mousePos c) (isSpacePressed c)
    (draggingGroupId c) (dragOffset c) (isResizing c) (resizeStart c).

Definition setSelectedConnection (o : option (string * string)) (c : State) : State :=
  mkState (scale c) (position c) (isPanning c) (hoveredNodeId c) o
    (isConnecting c) (connectionStart c) (mousePos c) (isSpacePressed c)
    (draggingGroupId c) (dragOffset c) (isResizing c) (resizeStart c).

(** [setConnectionStart(s); setIsConnecting(b)] *)
Definition setConnecting (b : bool) (s : option ConnectionStart.t) (c : State) : State :=
  mkState (scale c) (position c) (isPanning c) (hoveredNodeId c) (selectedConnection c)
    b s (mousePos c) (isSpacePressed c)
    (draggingGroupId c) (dragOffset c) (isResizing c) (resizeStart c).

Definition setMousePos (p : Point.t) (c : State) : State :=
  mkState (scale c) (position c) (isPanning c) (hoveredNodeId c) (selectedConnection c)
    (isConnecting c) (connectionStart c) p (isSpacePressed c)
    (draggingGroupId c) (dragOffset c) (isResizing c) (resizeStart c).

Definition setIsSpacePressed (b : bool) (c : State) : State :=
  mkState (scale c) (position c) (isPanning c) (hoveredNodeId c) (selectedConnection c)
    (isConnecting c) (connectionStart c) (mousePos c) b
    (draggingGroupId c) (dragOffset c) (isResizing c) (resizeStart c).

Definition setDraggingGroupId (o : option string) (c : State) : State :=
  mkState (scale c) (position c) (isPanning c) (hoveredNodeId c) (selectedConnection c)
    (isConnecting c) (connectionStart c) (mousePos c) (isSpacePressed c)
    o (dragOffset c) (isResizing c) (resizeStart c).

Definition setDragOffset (p : Point.t) (c : State) : State :=
  mkState (scale c) (position c) (isPanning c) (hoveredNodeId c) (selectedConnection c)
    (isConnecting c) (connectionStart c) (mousePos c) (isSpacePressed c)
    (draggingGroupId c) p (isResizing c) (resizeStart c).

(** [setIsResizing(b); setResizeStart(s)] *)
Definition setResizing (b : bool) (s : option ResizeStart.t) (c : State) : State :=
  mkState (scale c) (position c) (isPanning c) (hoveredNodeId c) (selectedConnection c)
    (isConnecting c) (connectionStart c) (mousePos c) (isSpacePressed c)
    (draggingGroupId c) (dragOffset c) b s.

(** The layout constants (lines 81-93). *)
Definition HEADER_CENTER_Y : Q := 64 / 2.
Definition HANDLE_OFFSET : Q := 12.
Definition NODE_WIDTH_AGENT : Q := 360.
Definition NODE_WIDTH_ASSET : Q := 300.
Definition NODE_WIDTH_VIDEO : Q := 320.
Definition NODE_WIDTH_MUSIC : Q := 320.
Definition NODE_WIDTH_TEXT : Q := 400.
Definition NODE_WIDTH_MV_SETTINGS : Q := 480.
Definition NODE_WIDTH_MV_STORYBOARD : Q := 520.
Definition NODE_WIDTH_GENERATION : Q := 400.
Definition NODE_WIDTH_TIMELINE : Q := 900.

(** Truthiness of an optional number. *)
Definition truthy_num (n : option Q) : bool :=
  match n with
  | Some q => negb (Qeq_bool q 0)
  | None => false
  end.

(** The [switch] of [getNodeWidth]. *)
Definition defaultWidth (type : StoryboardType) : Q :=
  match type with
  | agent => NODE_WIDTH_AGENT
  | music => NODE_WIDTH_MUSIC
  | text_result => NODE_WIDTH_TEXT
  | text => NODE_WIDTH_TEXT
  | mv_attribute_settings => NODE_WIDTH_MV_SETTINGS
  | mv_storyboard => NODE_WIDTH_MV_STORYBOARD
  | music_analysis => NODE_WIDTH_TEXT
  | generation => NODE_WIDTH_GENERATION
  | timeline => NODE_WIDTH_TIMELINE
  | video => NODE_WIDTH_VIDEO
  | assets => NODE_WIDTH_ASSET
  end.

(** [getNodeWidth] (lines 1017-1033). *)
Definition getNodeWidth (group : StoryboardGroup.t) : Q :=
  match StoryboardGroup.width group with
  | Some w =>
      if truthy_num (Some w) then w else defaultWidth (StoryboardGroup.type group)
  | None => defaultWidth (StoryboardGroup.type group)
  end.

(** [getNodeHeight] (lines 1035-1038); [None] is [undefined]. *)
Definition getNodeHeight (group : StoryboardGroup.t) : option Q :=
  if truthy_num (StoryboardGroup.height group) then StoryboardGroup.height group else None.

(** [screenToCanvas] (lines 1003-1012); [bounds] is [None] when the
    container is not mounted. *)
Definition screenToCanvas (bounds : option Rect.t) (c : State) (sx sy : Q) : Point.t :=
  match bounds with
  | None => Point.mk 0 0
  | Some bounds =>
      let centerX := (Rect.width bounds / 2)%Q in
      let centerY := (Rect.height bounds / 2)%Q in
      Point.mk ((sx - Rect.left bounds - Point.x (position c) - centerX) / scale c)%Q
               ((sy - Rect.top bounds - Point.y (position c) - centerY) / scale c)%Q
  end.

(** The canvas together with the application state its callbacks act on;
    the callbacks are wired as in App.tsx lines 1052-1083. *)
Definition World : Type := State * AppState.

(** [handleWindowMouseMove] (lines 1041-1071). *)
Definition handleWindowMouseMove (bounds : option Rect.t)
    (clientX clientY movementX movementY : Q) (w : World) : World :=
  let '(c, st) := w in
  let canvasPos := screenToCanvas bounds c clientX clientY in
  let c1 := setMousePos canvasPos c in
  match (if isResizing c then resizeStart c else None) with
  | Some rs =>
      let deltaX := ((clientX - ResizeStart.x rs) / scale c)%Q in
      let deltaY := ((clientY - ResizeStart.y rs) / scale c)%Q in
      let newWidth := Math_max 300 [(ResizeStart.initialWidth rs + deltaX)%Q] in
      let newHeight := Math_max 200 [(ResizeStart.initialHeight rs + deltaY)%Q] in
      (c1, handleResizeNode (ResizeStart.nodeId rs) newWidth newHeight st)
  | None =>
      if isPanning c then
        (setPosition (fun prev => Point.mk (Point.x prev + movementX)%Q
                                           (Point.y prev + movementY)%Q) c1, st)
      else if truthy (draggingGroupId c) then
        match draggingGroupId c with
        | Some dragged =>
            match find_node dragged (storyboards st) with
            | Some group =>
                (c1, handleUpdateStoryboard
                       (with_xy (Point.x canvasPos - Point.x (dragOffset c))%Q
                                (Point.y canvasPos - Point.y (dragOffset c))%Q group) st)
            | None => (c1, st)
            end
        | None => (c1, st)
        end
      else (c1, st)
  end.

(** [handleWindowMouseUp] (lines 1073-1092); [portNodeId] and [nodeBodyId]
    are what the two [closest(...)?.getAttribute('data-node-id')] lookups
    on the event target give. *)
Definition handleWindowMouseUp (portNodeId nodeBodyId : option string) (w : World) : World :=
  let '(c, st) := w in
  let st1 :=
    match (if isConnecting c then connectionStart c else None) with
    | Some start =>
        let targetId := if truthy portNodeId then portNodeId else nodeBodyId in
        match targetId with
        | Some target =>
            if truthy targetId && negb (target =? ConnectionStart.nodeId start)
            then handleConnect (ConnectionStart.nodeId start) target st
            else st
        | None => st
        end
    | None => st
    end in
  (setResizing false None
     (setConnecting false None
        (setDraggingGroupId None (setIsPanning false c))), st1).

(** [handleKeyDown] (lines 1094-1113). *)
Definition handleKeyDown (code key : string) (w : World) : World :=
  let '(c, st) := w in
  let hoveredNode :=
    match hoveredNodeId c with
    | Some h => find_node h (storyboards st)
    | None => None
    end in
  let overTimeline :=
    match hoveredNode with
    | Some n => StoryboardType_beq (StoryboardGroup.type n) timeline
    | None => false
    end in
  if overTimeline && (code =? "Space") then w
  else
    let c1 := if code =? "Space" then setIsSpacePressed true c else c in
    if (key =? "Delete") || (key =? "Backspace") then
      match selectedConnection c with
      | Some (source, target) =>
          (setSelectedConnection None c1, handleDisconnect source target st)
      | None => (c1, st)
      end
    else (c1, st).

(** [handleKeyUp] (lines 1115-1122). *)
Definition handleKeyUp (code : string) (w : World) : World :=
  let '(c, st) := w in
  if code =? "Space" then (setIsPanning false (setIsSpacePressed false c), st) else w.

(** [handleCanvasMouseDown] (lines 1136-1148); [onPath] and [onNode] say
    whether the event target lies inside a connection path or a node.
    [onSelectItem({})] stores the missing [id] of the empty object. *)
Definition handleCanvasMouseDown (button : Z) (onPath onNode : bool) (w : World) : World :=
  let '(c, st) := w in
  if isSpacePressed c || (button =? 1)%Z then (setIsPanning true c, st)
  else if negb onPath && negb onNode then
    (setSelectedConnection None c, setSelectedItemId None (handleSelectNode None st))
  else w.

(** [handleStartConnection] (lines 1150-1162). *)
Definition handleStartConnection (nodeId : string) (w : World) : World :=
  let '(c, st) := w in
  match find_node nodeId (storyboards st) with
  | Some node =>
      let width := getNodeWidth node in
      let startX := (StoryboardGroup.x node + width + HANDLE_OFFSET)%Q in
      let startY := (StoryboardGroup.y node + HEADER_CENTER_Y)%Q in
      (setConnecting true (Some (ConnectionStart.mk nodeId startX startY)) c, st)
  | None => w
  end.

(** [handleResizeStart] (lines 1164-1175). *)
Definition handleResizeStart (node : StoryboardGroup.t) (clientX clientY : Q) (w : World)
    : World :=
  let '(c, st) := w in
  (setResizing true
     (Some (ResizeStart.mk (StoryboardGroup.id node) clientX clientY (getNodeWidth node)
              (match getNodeHeight node with Some h => h | None => 200%Q end))) c, st).

(** [onClick] of a rendered connection (line 1203). *)
Definition onConnectionClick (source target : string) (w : World) : World :=
  let '(c, st) := w in (setSelectedConnection (Some (source, target)) c, st).

(** [onWheel] of the container (lines 1301-1308). *)
Definition onWheel (ctrlOrMeta : bool) (deltaX deltaY : Q) (w : World) : World :=
  let '(c, st) := w in
  if ctrlOrMeta then
    (setScale (fun s => Math_min (Math_max (2 # 10) [(s - deltaY * (1 # 1000))%Q]) [3%Q]) c, st)
  else
    (setPosition (fun p => Point.mk (Point.x p - deltaX)%Q (Point.y p - deltaY)%Q) c, st).

(** The two zoom buttons (lines 1978 and 1980). *)
Definition onZoomOut (w : World) : World :=
  let '(c, st) := w in (setScale (fun s => Math_max (2 # 10) [(s - (1 # 10))%Q]) c, st).

Definition onZoomIn (w : World) : World :=
  let '(c, st) := w in (setScale (fun s => Math_min 3 [(s + (1 # 10))%Q]) c, st).

(** [onMouseEnter] and [onMouseLeave] of a node (lines 1336-1337). *)
Definition onHover (nodeId : option string) (w : World) : World :=
  let '(c, st) := w in (setHoveredNodeId nodeId c, st).

(** [onMouseDown] of a node header (lines 1372-1379). *)
Definition onHeaderMouseDown (group : StoryboardGroup.t) (bounds : option Rect.t)
    (clientX clientY : Q) (w : World) : World :=
  let '(c, st) := w in
  if isSpacePressed c then w
  else
    let pos := screenToCanvas bounds c clientX clientY in
    (setDragOffset (Point.mk (Point.x pos - StoryboardGroup.x group)%Q
                             (Point.y pos - StoryboardGroup.y group)%Q)
       (setDraggingGroupId (Some (StoryboardGroup.id group)) c),
     handleSelectNode (Some (StoryboardGroup.id group)) st).

(** The events of the canvas. *)
Inductive Event :=
| MouseMove (bounds : option Rect.t) (clientX clientY movementX movementY : Q)
| MouseUp (portNodeId nodeBodyId : option string)
| KeyDown (code key : string)
| KeyUp (code : string)
| CanvasMouseDown (button : Z) (onPath onNode : bool)
| StartConnection (nodeId : string)
| ResizeStartAt (node : StoryboardGroup.t) (clientX clientY : Q)
| ConnectionClick (source target : string)
| Wheel (ctrlOrMeta : bool) (deltaX deltaY : Q)
| ZoomOut
| ZoomIn
| Hover (nodeId : option string)
| HeaderMouseDown (group : StoryboardGroup.t) (bounds : option Rect.t) (clientX clientY : Q).

Definition handle (e : Event) (w : World) : World :=
  match e with
  | MouseMove b cx cy mx my => handleWindowMouseMove b cx cy mx my w
  | MouseUp p n => handleWindowMouseUp p n w
  | KeyDown code key => handleKeyDown code key w
  | KeyUp code => handleKeyUp code w
  | CanvasMouseDown b p n => handleCanvasMouseDown b p n w
  | StartConnection n => handleStartConnection n w
  | ResizeStartAt n cx cy => handleResizeStart n cx cy w
  | ConnectionClick s t => onConnectionClick s t w
  | Wheel c dx dy => onWheel c dx dy w
  | ZoomOut => onZoomOut w
  | ZoomIn => onZoomIn w
  | Hover n => onHover n w
  | HeaderMouseDown g b cx cy => onHeaderMouseDown g b cx cy w
  end.

Definition handle_all (es : list Event) (w : World) : World :=
  fold_left (fun w e => handle e w) es w.
End Canvas.

(** The range the zoom controls keep the zoom factor in. *)
Definition scale_ok (s : Q) : Prop := ((2 # 10) <= s /\ s <= 3)%Q.

(** The first node identified [nodeId], for naming a node of a sample
    state; a blank node when there is none. *)
Definition node_of (nodeId : string) (st : AppState) : StoryboardGroup.t :=
  match find_node nodeId (storyboards st) with
  | Some g => g
  | None => StoryboardGroup.mk EmptyString assets EmptyString 0 0 None None [] 0 []
              None None None
  end.

(** Two canvas points with equal coordinates. *)
Definition same_point (p q : Canvas.Point.t) : Prop :=
  (Canvas.Point.x p == Canvas.Point.x q)%Q /\ (Canvas.Point.y p == Canvas.Point.y q)%Q.

(** ** Keyboard shortcuts of the application (App.tsx lines 172-187) *)

(** [handleKeyDown] of [App]; [tagName] is the tag of the event target.
    The key names are distinct, so at most one of the four tests
    succeeds. *)
Definition handleKeyDown (randomUUID : nat -> string) (dateNow : nat -> Z)
    (tagName : string) (metaKey ctrlKey : bool) (key : string) (st : AppState) : AppState :=
  if includes ["INPUT"; "TEXTAREA"] tagName then st
  else
    let isCmdOrCtrl := metaKey || ctrlKey in
    let st1 := if isCmdOrCtrl && (key =? "z") then handleUndo st else st in
    let st2 := if isCmdOrCtrl && (key =? "c") then handleCopy st1 else st1 in
    let st3 := if isCmdOrCtrl && (key =? "v") then handlePaste randomUUID dateNow st2 else st2 in
    if ((key =? "Delete") || (key =? "Backspace")) && truthy (selectedNodeId st) then
      match selectedNodeId st with
      | Some sel => handleDeleteNode sel st3
      | None => st3
      end
    else st3.

(** ** Well-formed graphs and editing sessions *)

(** A well-formed graph: no two nodes share an identifier, every edge is
    recorded on both sides, every listed identifier names a node, and no
    node lists itself. *)
Definition well_formed (sb : list StoryboardGroup.t) : Prop :=
  NoDup (map StoryboardGroup.id sb) /\ symmetric sb /\ closed sb /\ no_self_loops sb.

(** The live graph and every snapshot of the history are well formed. *)
Definition sound (st : AppState) : Prop :=
  well_formed (storyboards st) /\ Forall well_formed (history st).

(** What the user interface guarantees of an action: an identifier drawn
    for a new node is not in use; a connection is made between two nodes
    of the graph; a connection is removed between two different nodes. *)
Definition legal (a : Action) (st : AppState) : Prop :=
  let ids := map StoryboardGroup.id (storyboards st) in
  match a with
  | Duplicate randomUUID _ _ => ~ In (randomUUID 0%nat) ids
  | Paste randomUUID _ => ~ In (randomUUID 0%nat) ids
  | CreateMusic randomUUID _ _ _ => ~ In (randomUUID 0%nat) ids
  | CreateVideo randomUUID _ _ _ => ~ In (randomUUID 0%nat) ids
  | Connect A B => In A ids /\ In B ids
  | Disconnect A B => A <> B
  | _ => True
  end.

(** One event of a session: a discrete action, or an undo. *)
Definition session_step (e : Action + unit) (st : AppState) : AppState :=
  match e with
  | inl a => step a st
  | inr _ => handleUndo st
  end.

Definition session (es : list (Action + unit)) (st : AppState) : AppState :=
  fold_left (fun s e => session_step e s) es st.

(** Every action of the session is legal in the state it is applied to. *)
Fixpoint admissible (es : list (Action + unit)) (st : AppState) : Prop :=
  match es with
  | [] => True
  | e :: es' =>
      match e with inl a => legal a st | inr _ => True end /\
      admissible es' (session_step e st)
  end.

(** ** Dropping files ([handleAddAsset], App.tsx lines 243-319) *)

(** A dropped [File]: its MIME type and its name. *)
Module File.
Record t := mk { type : string; name : string }.
End File.

(** An entry of the [assets] slot. *)
Module Asset.
Record t := mk { id : string; file : File.t; previewUrl : string; type : MediaType }.
End Asset.

(** Lower case of an ASCII letter, as the [i] flag of a regular expression
    compares letters. *)
Definition lower_ascii (c : Ascii.ascii) : Ascii.ascii :=
  let n := Ascii.nat_of_ascii c in
  if (65 <=? n)%nat && (n <=? 90)%nat then Ascii.ascii_of_nat (n + 32) else c.

Fixpoint toLowerCase (s : string) : string :=
  match s with
  | EmptyString => EmptyString
  | String c s' => String (lower_ascii c) (toLowerCase s')
  end.

Definition endsWith (suffix s : string) : bool :=
  (String.length suffix <=? String.length s)%nat &&
  (substring (String.length s - String.length suffix) (String.length suffix) s =? suffix).

(** [name.match(/\.(e1|e2|...)$/i)] *)
Definition matches_extension (exts : list string) (name : string) : bool :=
  existsb (fun e => endsWith ("." ++ e)%string (toLowerCase name)) exts.

(** [f.type.startsWith('audio') || f.name.match(/\.(mp3|wav|m4a|aac|ogg|flac)$/i)] *)
Definition isAudioFile (f : File.t) : bool :=
  String.prefix "audio" (File.type f) ||
  matches_extension ["mp3"; "wav"; "m4a"; "aac"; "ogg"; "flac"] (File.name f).

(** The [type] given to the item of a file (lines 280-283). *)
Definition item_type (file : File.t) : MediaType :=
  if isAudioFile file then audio_t
  else if String.prefix "video" (File.type file) ||
          matches_extension ["mp4"; "mov"; "webm"] (File.name file) then video_t
  else image_t.

(** [firstFileType] (lines 303-305) and the title that goes with it. *)
Definition firstFileType (file : File.t) : StoryboardType :=
  if isAudioFile file then music
  else if String.prefix "video" (File.type file) then video
  else assets.

Definition title_of (t : StoryboardType) : string :=
  match t with
  | music => "Music"
  | video => "Video Library"
  | _ => "Reference Assets"
  end.

(** [x || 100] *)
Definition or_100 (x : option Q) : Q :=
  match x with
  | Some q => if Qeq_bool q 0 then 100%Q else q
  | None => 100%Q
  end.

(** [{ ...c, mvProtagonistImageUrl: u }] *)
Definition with_mvProtagonistImageUrl (u : option string) (c : NodeConfig.t) : NodeConfig.t :=
  NodeConfig.mk (NodeConfig.prompt c) (NodeConfig.mode c) (NodeConfig.aspectRatio c)
    (NodeConfig.recommendations c) (NodeConfig.isAnalyzing c) (NodeConfig.cameraMove c)
    (NodeConfig.lightingStyle c) (NodeConfig.textResult c) (NodeConfig.customSystemPrompt c)
    (NodeConfig.mvStyleImageUrl c) u (NodeConfig.mvScenes c)
    (NodeConfig.timelineAudioUrl c) (NodeConfig.timelineClips c).

(** The first part of [handleAddAsset] (lines 246-273): either the handler
    returns after one update of the target node, or it goes on with the
    files it keeps. *)
Inductive Screened :=
| Returned (update : list StoryboardGroup.t -> list StoryboardGroup.t)
| Kept (validFiles : list File.t).

Definition screen_files (createObjectURL : nat -> string) (files : list File.t)
    (targetNodeId : string) (targetNode : option StoryboardGroup.t) : Screened :=
  match targetNode with
  | Some targetNode =>
      match StoryboardGroup.type targetNode with
      | timeline =>
          match find isAudioFile files with
          | Some audioFile =>
              Returned (map (set_audio targetNodeId (Some (createObjectURL 0%nat))))
          | None => Kept files
          end
      | music => Kept (filter isAudioFile files)
      | assets => Kept (filter (fun f => String.prefix "image" (File.type f)) files)
      | video => Kept (filter (fun f => String.prefix "video" (File.type f)) files)
      | mv_attribute_settings =>
          let validFiles := filter (fun f => String.prefix "image" (File.type f)) files in
          match validFiles with
          | file :: _ =>
              Returned (map (fun g =>
                if StoryboardGroup.id g =? targetNodeId
                then StoryboardGroup.with_config
                       (Some (with_mvProtagonistImageUrl (Some (createObjectURL 0%nat))
                                (spread_config g))) g
                else g))
          | [] => Kept validFiles
          end
      | _ => Kept files
      end
  | None => Kept files
  end.

(** The item and the asset entry made for the [i]-th kept file
    (lines 277-293). *)
Definition new_item (createObjectURL randomUUID : nat -> string) (dateNow : nat -> Z)
    (i : nat) (file : File.t) : CanvasItem.t :=
  CanvasItem.mk (randomUUID i) (createObjectURL i) (item_type file) None None (dateNow i)
    None None (Some (File.name file)).

Definition new_asset (createObjectURL randomUUID : nat -> string)
    (i : nat) (file : File.t) : Asset.t :=
  Asset.mk (randomUUID i) file (createObjectURL i) (item_type file).

(** [handleAddAsset]; the state is [App]'s state and its [assets] slot. *)
Definition handleAddAsset (createObjectURL randomUUID : nat -> string) (dateNow : nat -> Z)
    (files : list File.t) (x y : option Q) (targetNodeId : option string)
    (w : AppState * list Asset.t) : AppState * list Asset.t :=
  let '(st, assets0) := w in
  let st1 := saveHistory (storyboards st) st in
  let target := match targetNodeId with Some t => t | None => EmptyString end in
  let targetNode :=
    if truthy targetNodeId then find_node target (storyboards st) else None in
  match screen_files createObjectURL files target targetNode with
  | Returned update => (setStoryboards update st1, assets0)
  | Kept validFiles =>
      match validFiles with
      | [] => (st1, assets0)
      | first :: _ =>
          let newItems := mapi (new_item createObjectURL randomUUID dateNow) validFiles in
          let assets1 := assets0 ++ mapi (new_asset createObjectURL randomUUID) validFiles in
          if truthy targetNodeId then
            (setStoryboards (map (fun g =>
               if StoryboardGroup.id g =? target
               then StoryboardGroup.with_items (StoryboardGroup.items g ++ newItems) g
               else g)) st1, assets1)
          else
            let n := length validFiles in
            let group :=
              StoryboardGroup.mk (randomUUID n) (firstFileType first)
                (title_of (firstFileType first)) (or_100 x) (or_100 y) None None
                newItems (dateNow n) [] None None None in
            (setStoryboards (fun prev => prev ++ [group]) st1, assets1)
      end
  end.

(** The files a bin of kind [t] keeps when files are dropped on it; the
    timeline and the style panel are handled apart (see [screen_files]). *)
Definition accepts (t : StoryboardType) (f : File.t) : bool :=
  match t with
  | music => isAudioFile f
  | assets => String.prefix "image" (File.type f)
  | video => String.prefix "video" (File.type f)
  | _ => true
  end.

(** ** The node palette (App.tsx lines 373-554) and the prompt editor
    (lines 1024-1040) *)

(** The default prompts of the generation service, constants of
    [services/geminiService]. *)
Record Prompts := mkPrompts {
  DEFAULT_AGENT_SYSTEM_PROMPT : string;
  DEFAULT_MUSIC_ANALYSIS_PROMPT : string;
  DEFAULT_STYLE_GEN_PROMPT : string;
  DEFAULT_STORYBOARD_PROMPT : string
}.

Definition handleCreateAgent (randomUUID : nat -> string) (dateNow : nat -> Z)
    (prompts : Prompts) (x y : Q) (st : AppState) : AppState :=
  let st1 := saveHistory (storyboards st) st in
  let newAgent :=
    StoryboardGroup.mk (randomUUID 0%nat) agent "Storyboard Master" x y None None []
      (dateNow 0%nat) [] (Some [])
      (Some (NodeConfig.mk (Some EmptyString) (Some GRID_2x2) (Some WIDE)
               (Some []) (Some false) (Some "None") (Some "None") None
               (Some (DEFAULT_AGENT_SYSTEM_PROMPT prompts)) None None None None None))
      None in
  setStoryboards (fun prev => prev ++ [newAgent]) st1.

Definition handleCreateAssetNode (randomUUID : nat -> string) (dateNow : nat -> Z)
    (x y : Q) (st : AppState) : AppState :=
  let st1 := saveHistory (storyboards st) st in
  let newNode :=
    StoryboardGroup.mk (randomUUID 0%nat) assets "Reference Assets" x y None None []
      (dateNow 0%nat) [] None None None in
  setStoryboards (fun prev => prev ++ [newNode]) st1.

Definition handleCreateTextNode (randomUUID : nat -> string) (dateNow : nat -> Z)
    (x y : Q) (st : AppState) : AppState :=
  let st1 := saveHistory (storyboards st) st in
  let newNode :=
    StoryboardGroup.mk (randomUUID 0%nat) text "Context / Prompt" x y None None []
      (dateNow 0%nat) [] None
      (Some (NodeConfig.mk (Some EmptyString) (Some GRID_2x2) (Some WIDE)
               None None None None None None None None None None None))
      None in
  setStoryboards (fun prev => prev ++ [newNode]) st1.

Definition handleCreateMusicAnalysisAgent (randomUUID : nat -> string) (dateNow : nat -> Z)
    (prompts : Prompts) (x y : Q) (st : AppState) : AppState :=
  let st1 := saveHistory (storyboards st) st in
  let newNode :=
    StoryboardGroup.mk (randomUUID 0%nat) music_analysis "Music Analysis Master" x y
      None None [] (dateNow 0%nat) [] (Some [])
      (Some (NodeConfig.mk (Some EmptyString) (Some GRID_2x2) (Some WIDE)
               None None None None None
               (Some (DEFAULT_MUSIC_ANALYSIS_PROMPT prompts)) None None None None None))
      None in
  setStoryboards (fun prev => prev ++ [newNode]) st1.

Definition handleCreateMVAttributeSettings (randomUUID : nat -> string) (dateNow : nat -> Z)
    (prompts : Prompts) (x y : Q) (st : AppState) : AppState :=
  let st1 := saveHistory (storyboards st) st in
  let newNode :=
    StoryboardGroup.mk (randomUUID 0%nat) mv_attribute_settings "Visual Expert" x y
      None None [] (dateNow 0%nat) [] (Some [])
      (Some (NodeConfig.mk (Some EmptyString) (Some GRID_2x2) (Some WIDE)
               None None None None None
               (Some (DEFAULT_STYLE_GEN_PROMPT prompts)) None None None None None))
      None in
  setStoryboards (fun prev => prev ++ [newNode]) st1.

(** The entries of the context menu that create a node. *)
Inductive Palette :=
| NewAgent | NewAssets | NewVideo | NewMusic | NewText | NewMusicAnalysis
| NewMVSettings | NewMVStoryboard | NewTimeline.

Definition create (p : Palette) (randomUUID : nat -> string) (dateNow : nat -> Z)
    (prompts : Prompts) (x y : Q) (st : AppState) : AppState :=
  match p with
  | NewAgent => handleCreateAgent randomUUID dateNow prompts x y st
  | NewAssets => handleCreateAssetNode randomUUID dateNow x y st
  | NewVideo => handleCreateVideoNode randomUUID dateNow x y st
  | NewMusic => handleCreateMusicNode randomUUID dateNow x y st
  | NewText => handleCreateTextNode randomUUID dateNow x y st
  | NewMusicAnalysis => handleCreateMusicAnalysisAgent randomUUID dateNow prompts x y st
  | NewMVSettings => handleCreateMVAttributeSettings randomUUID dateNow prompts x y st
  | NewMVStoryboard =>
      handleCreateMVStoryboard randomUUID dateNow (DEFAULT_STORYBOARD_PROMPT prompts) x y st
  | NewTimeline => handleCreateTimelineNode randomUUID dateNow x y st
  end.

Definition kind_of (p : Palette) : StoryboardType :=
  match p with
  | NewAgent => agent
  | NewAssets => assets
  | NewVideo => video
  | NewMusic => music
  | NewText => text
  | NewMusicAnalysis => music_analysis
  | NewMVSettings => mv_attribute_settings
  | NewMVStoryboard => mv_storyboard
  | NewTimeline => timeline
  end.

(** [{ ...c, customSystemPrompt: p }] *)
Definition with_customSystemPrompt (p : option string) (c : NodeConfig.t) : NodeConfig.t :=
  NodeConfig.mk (NodeConfig.prompt c) (NodeConfig.mode c) (NodeConfig.aspectRatio c)
    (NodeConfig.recommendations c) (NodeConfig.isAnalyzing c) (NodeConfig.cameraMove c)
    (NodeConfig.lightingStyle c) (NodeConfig.textResult c) p
    (NodeConfig.mvStyleImageUrl c) (NodeConfig.mvProtagonistImageUrl c) (NodeConfig.mvScenes c)
    (NodeConfig.timelineAudioUrl c) (NodeConfig.timelineClips c).

(** [prev.map(g => g.id === editorNodeId ?
      { ...g, config: { ...g.config!, customSystemPrompt: p } } : g)] *)
Definition set_prompt (editor : string) (p : string) (g : StoryboardGroup.t)
    : StoryboardGroup.t :=
  if StoryboardGroup.id g =? editor
  then StoryboardGroup.with_config
         (Some (with_customSystemPrompt (Some p) (spread_config g))) g
  else g.

Definition handleOpenPromptEditor (nodeId : string) (st : AppState) : AppState :=
  setEditorNodeId (Some nodeId) st.

Definition handleSavePrompt (newPrompt : string) (st : AppState) : AppState :=
  if truthy (editorNodeId st) then
    match editorNodeId st with
    | Some editor =>
        setStoryboards (map (set_prompt editor newPrompt)) (saveHistory (storyboards st) st)
    | None => st
    end
  else st.

(** [defaultPrompt] of [handleResetPrompt] for a node of kind [t]; the
    empty string when the node is not found. *)
Definition default_prompt (prompts : Prompts) (t : option StoryboardType) : string :=
  match t with
  | Some music_analysis => DEFAULT_MUSIC_ANALYSIS_PROMPT prompts
  | Some mv_attribute_settings => DEFAULT_STYLE_GEN_PROMPT prompts
  | Some mv_storyboard => DEFAULT_STORYBOARD_PROMPT prompts
  | Some agent => DEFAULT_AGENT_SYSTEM_PROMPT prompts
  | _ => EmptyString
  end.

Definition handleResetPrompt (prompts : Prompts) (st : AppState) : AppState :=
  if truthy (editorNodeId st) then
    match editorNodeId st with
    | Some editor =>
        let st1 := saveHistory (storyboards st) st in
        let node := find_node editor (storyboards st) in
        let defaultPrompt := default_prompt prompts (option_map StoryboardGroup.type node) in
        setStoryboards (map (set_prompt editor defaultPrompt)) st1
    | None => st
    end
  else st.

(** [group.config?.customSystemPrompt] *)
Definition prompt_of (g : StoryboardGroup.t) : option string :=
  match StoryboardGroup.config g with
  | Some c => NodeConfig.customSystemPrompt c
  | None => None
  end.

(** * Properties *)

(** ** Lists and identifiers *)

Lemma includes_In (l : list string) (v : string) : includes l v = true <-> In v l.
Proof.
  unfold includes. rewrite existsb_exists. split.
  - intros [e [He Heq]]. apply String.eqb_eq in Heq. now subst.
  - intros H. exists v. split; [assumption | apply String.eqb_refl].
Qed.

Lemma includes_false (l : list string) (v : string) : includes l v = false <-> ~ In v l.
Proof.
  rewrite <- includes_In. destruct (includes l v); intuition congruence.
Qed.

Lemma includes_snoc (l : list string) (v : string) : includes (l ++ [v]) v = true.
Proof. apply includes_In, in_or_app. right. now left. Qed.

Lemma not_In_filter_neq (v : string) (l : list string) :
  ~ In v (filter (fun e => negb (e =? v)) l).
Proof.
  intros H. apply filter_In in H. destruct H as [_ H].
  now rewrite String.eqb_refl in H.
Qed.

Lemma filter_neq_id (v : string) (l : list string) :
  ~ In v l -> filter (fun e => negb (e =? v)) l = l.
Proof.
  induction l as [|a l IH]; intros H; simpl; [reflexivity|].
  destruct (String.eqb_spec a v) as [->|Hne]; simpl.
  - exfalso. apply H. now left.
  - f_equal. apply IH. intros Hin. apply H. now right.
Qed.

Lemma filter_neq_snoc (v : string) (l : list string) :
  ~ In v l -> filter (fun e => negb (e =? v)) (l ++ [v]) = l.
Proof.
  intros H. rewrite filter_app, filter_neq_id by assumption.
  simpl. rewrite String.eqb_refl. simpl. apply app_nil_r.
Qed.

Lemma find_node_Some (nodeId : string) (l : list StoryboardGroup.t) (g : StoryboardGroup.t) :
  find_node nodeId l = Some g -> In g l /\ StoryboardGroup.id g = nodeId.
Proof.
  unfold find_node. intros H. apply find_some in H. destruct H as [Hin Heq].
  split; [assumption | now apply String.eqb_eq].
Qed.

Lemma find_node_None (nodeId : string) (l : list StoryboardGroup.t) :
  find_node nodeId l = None -> forall g, In g l -> StoryboardGroup.id g <> nodeId.
Proof.
  unfold find_node. intros H g Hin Heq.
  pose proof (find_none _ _ H g Hin) as Hf. simpl in Hf.
  rewrite Heq, String.eqb_refl in Hf. discriminate.
Qed.

(** A per-node update that keeps identifiers commutes with [find]. *)
Lemma find_node_map (f : StoryboardGroup.t -> StoryboardGroup.t) (nodeId : string)
    (l : list StoryboardGroup.t) :
  (forall g, StoryboardGroup.id (f g) = StoryboardGroup.id g) ->
  find_node nodeId (map f l) = option_map f (find_node nodeId l).
Proof.
  intros Hid. unfold find_node. induction l as [|a l IH]; simpl; [reflexivity|].
  rewrite Hid. destruct (StoryboardGroup.id a =? nodeId); [reflexivity | exact IH].
Qed.

(** ** Undo on an empty history *)

Lemma handleUndo_nil (st : AppState) : history st = [] -> handleUndo st = st.
Proof. intros H. unfold handleUndo. now rewrite H. Qed.

(** C10. Undo invoked while the history stack is empty changes nothing:
    the whole application state, and so both the history stack and the
    node collection, is returned as it was. *)
Theorem handleUndo_empty_history (st : AppState) :
  history st = [] ->
  handleUndo st = st /\
  history (handleUndo st) = history st /\
  storyboards (handleUndo st) = storyboards st /\
  deep (heap (handleUndo st)) (storyboards (handleUndo st)) = deep (heap st) (storyboards st).
Proof.
  intros H. rewrite (handleUndo_nil st H). repeat split.
Qed.

Lemma handleUndo_empty_history_witness :
  history Sample.template = [] /\
  handleUndo Sample.template = Sample.template /\
  storyboards (handleUndo Sample.template) <> [].
Proof.
  split; [reflexivity|]. split.
  - apply (handleUndo_empty_history Sample.template). reflexivity.
  - destruct (handleUndo_empty_history Sample.template eq_refl) as [E _].
    rewrite E. discriminate.
Defined.

(** ** Deleting a node *)

Lemma handleDeleteNode_storyboards (X : string) (st : AppState) :
  storyboards (handleDeleteNode X st) =
  map (fun g =>
         StoryboardGroup.with_inputs
           (Some (match StoryboardGroup.inputs g with
                  | Some ins => filter (fun i => negb (i =? X)) ins
                  | None => []
                  end))
           (StoryboardGroup.with_connections
              (filter (fun c => negb (c =? X)) (StoryboardGroup.connections g)) g))
      (filter (fun g => negb (StoryboardGroup.id g =? X)) (storyboards st)).
Proof. reflexivity. Qed.

Lemma filter_length_lt {A : Type} (p : A -> bool) (l : list A) (a : A) :
  In a l -> p a = false -> (length (filter p l) < length l)%nat.
Proof.
  induction l as [|b l IH]; intros Hin Hp; [contradiction|].
  simpl. destruct Hin as [->|Hin].
  - rewrite Hp. pose proof (filter_length_le p l). lia.
  - specialize (IH Hin Hp). destruct (p b); simpl; lia.
Qed.

(** C1. When the graph holds a node with identifier [X], [handleDeleteNode X]
    removes it (the collection gets shorter, the surviving identifiers are
    the former ones without [X], in order) and, in the collection produced
    by that same update, no node has [X] in its [connections] or in its
    [inputs]. *)
Theorem handleDeleteNode_prunes_references (X : string) (st : AppState) :
  (exists n, In n (storyboards st) /\ StoryboardGroup.id n = X) ->
  let st' := handleDeleteNode X st in
  (length (storyboards st') < length (storyboards st))%nat /\
  map StoryboardGroup.id (storyboards st') =
    filter (fun i => negb (i =? X)) (map StoryboardGroup.id (storyboards st)) /\
  (forall g, In g (storyboards st') ->
     StoryboardGroup.id g <> X /\
     ~ In X (StoryboardGroup.connections g) /\
     ~ In X (StoryboardGroup.inputs_or_empty g)).
Proof.
  intros [n [Hn Hid]] st'. subst st'. rewrite handleDeleteNode_storyboards.
  split; [|split].
  - rewrite length_map. apply filter_length_lt with (a := n); [assumption|].
    rewrite Hid, String.eqb_refl. reflexivity.
  - rewrite map_map. simpl. clear Hn.
    induction (storyboards st) as [|a l IH]; simpl; [reflexivity|].
    destruct (StoryboardGroup.id a =? X); simpl; [exact IH | now rewrite IH].
  - intros g Hg. apply in_map_iff in Hg. destruct Hg as [g0 [<- Hg0]].
    apply filter_In in Hg0. destruct Hg0 as [_ Hne]. simpl.
    split; [|split].
    + intros E. rewrite E, String.eqb_refl in Hne. discriminate.
    + apply not_In_filter_neq.
    + unfold StoryboardGroup.inputs_or_empty. simpl.
      destruct (StoryboardGroup.inputs g0); [apply not_In_filter_neq | intros []].
Qed.

Lemma handleDeleteNode_prunes_references_witness :
  map StoryboardGroup.id (storyboards (handleDeleteNode "n-1" Sample.template)) = ["n-0"] /\
  (forall g, In g (storyboards (handleDeleteNode "n-1" Sample.template)) ->
     StoryboardGroup.id g <> "n-1" /\
     ~ In "n-1" (StoryboardGroup.connections g) /\
     ~ In "n-1" (StoryboardGroup.inputs_or_empty g)).
Proof.
  assert (H : exists n, In n (storyboards Sample.template) /\ StoryboardGroup.id n = "n-1").
  { eexists. split; [right; left; reflexivity | reflexivity]. }
  destruct (handleDeleteNode_prunes_references "n-1" Sample.template H) as [_ [Hids Hall]].
  split; [reflexivity | exact Hall].
Defined.

(** ** Connecting and disconnecting *)

Lemma handleConnect_unfold (A B : string) (st : AppState) :
  handleConnect A B st =
  if A =? B then st
  else if already_connected (find_node A (storyboards st)) B then st
  else setStoryboards (connect_update (find_node A (storyboards st)) A B)
                      (saveHistory (storyboards st) st).
Proof. reflexivity. Qed.

Lemma storyboards_guarded (f : list StoryboardGroup.t -> list StoryboardGroup.t)
    (sb : list StoryboardGroup.t) (st : AppState) :
  storyboards (setStoryboards f (saveHistory sb st)) = f (storyboards st).
Proof. reflexivity. Qed.

Lemma connect_node_id (src : option StoryboardGroup.t) (A B : string) (g : StoryboardGroup.t) :
  StoryboardGroup.id (connect_node src A B g) = StoryboardGroup.id g.
Proof.
  unfold connect_node.
  destruct (StoryboardGroup.id g =? B), (StoryboardGroup.id g =? A),
    (music_into_timeline g src),
    (includes (StoryboardGroup.inputs_or_empty g) A),
    (includes (StoryboardGroup.connections g) B); reflexivity.
Qed.

(** After the update, a node carrying the source identifier lists the target. *)
Lemma connect_node_source (src : option StoryboardGroup.t) (A B : string)
    (g : StoryboardGroup.t) :
  A <> B -> StoryboardGroup.id g = A ->
  includes (StoryboardGroup.connections (connect_node src A B g)) B = true.
Proof.
  intros HAB Hid. unfold connect_node. rewrite Hid.
  apply String.eqb_neq in HAB. rewrite HAB, String.eqb_refl.
  destruct (includes (StoryboardGroup.connections g) B) eqn:E; simpl.
  - exact E.
  - apply includes_snoc.
Qed.

(** With no source node in the graph the update is idempotent on every
    node that does not carry the source identifier. *)
Lemma connect_node_None (A B : string) (g : StoryboardGroup.t) :
  StoryboardGroup.id g <> A ->
  connect_node None A B g =
  if (StoryboardGroup.id g =? B) && negb (includes (StoryboardGroup.inputs_or_empty g) A)
  then StoryboardGroup.with_inputs (Some (StoryboardGroup.inputs_or_empty g ++ [A])) g
  else g.
Proof.
  intros Hne. apply String.eqb_neq in Hne. unfold connect_node. simpl. rewrite Hne.
  destruct (StoryboardGroup.id g =? B),
    (includes (StoryboardGroup.inputs_or_empty g) A); reflexivity.
Qed.

Lemma connect_node_None_idem (A B : string) (g : StoryboardGroup.t) :
  StoryboardGroup.id g <> A ->
  connect_node None A B (connect_node None A B g) = connect_node None A B g.
Proof.
  intros Hne. rewrite (connect_node_None A B g Hne).
  destruct (StoryboardGroup.id g =? B) eqn:EB,
    (includes (StoryboardGroup.inputs_or_empty g) A) eqn:EI; simpl;
    rewrite connect_node_None; simpl; try assumption.
  - now rewrite EB, EI.
  - unfold StoryboardGroup.inputs_or_empty at 1. simpl.
    now rewrite EB, includes_snoc.
  - now rewrite EB.
  - now rewrite EB.
Qed.

(** C2. [handleConnect A B] run twice in a row leaves the node collection
    (hence every node's [connections] and [inputs]) exactly as one run
    leaves it; and when the source node already lists the target, the
    call changes nothing at all. *)
Theorem handleConnect_idempotent (A B : string) (st : AppState) :
  storyboards (handleConnect A B (handleConnect A B st)) = storyboards (handleConnect A B st) /\
  (forall s, find_node A (storyboards st) = Some s ->
             In B (StoryboardGroup.connections s) ->
             handleConnect A B st = st).
Proof.
  split.
  - rewrite (handleConnect_unfold A B st).
    destruct (A =? B) eqn:EAB.
    { rewrite handleConnect_unfold, EAB. reflexivity. }
    destruct (already_connected (find_node A (storyboards st)) B) eqn:Eac.
    { rewrite handleConnect_unfold, EAB, Eac. reflexivity. }
    apply String.eqb_neq in EAB.
    rewrite handleConnect_unfold. rewrite (proj2 (String.eqb_neq A B) EAB).
    rewrite !storyboards_guarded.
    assert (Hfind : find_node A (connect_update (find_node A (storyboards st)) A B (storyboards st))
                    = option_map (connect_node (find_node A (storyboards st)) A B)
                                 (find_node A (storyboards st))).
    { unfold connect_update. apply find_node_map. intros g. apply connect_node_id. }
    rewrite Hfind. clear Hfind.
    destruct (find_node A (storyboards st)) as [s|] eqn:Efind; simpl.
    + apply find_node_Some in Efind. destruct Efind as [_ Hid].
      rewrite (connect_node_source (Some s) A B s EAB Hid). reflexivity.
    + unfold connect_update.
      rewrite map_map. apply map_ext_in. intros g Hg.
      apply connect_node_None_idem. now apply (find_node_None A (storyboards st)).
  - intros s Hs Hin. rewrite handleConnect_unfold, Hs. simpl.
    apply includes_In in Hin. rewrite Hin. now destruct (A =? B).
Qed.

Lemma handleConnect_idempotent_witness :
  find_node "n-0" (storyboards Sample.template) <> None /\
  handleConnect "n-0" "n-1" Sample.template = Sample.template /\
  storyboards (handleConnect "n-1" "n-0" (handleConnect "n-1" "n-0" Sample.template)) =
  storyboards (handleConnect "n-1" "n-0" Sample.template).
Proof.
  split; [discriminate|]. split.
  - destruct (find_node "n-0" (storyboards Sample.template)) as [s|] eqn:E; [|discriminate].
    apply (proj2 (handleConnect_idempotent "n-0" "n-1" Sample.template) s E).
    injection E as <-. left. reflexivity.
  - apply (proj1 (handleConnect_idempotent "n-1" "n-0" Sample.template)).
Defined.

Lemma handleDisconnect_storyboards (A B : string) (st : AppState) :
  storyboards (handleDisconnect A B st) = map (disconnect_node A B) (storyboards st).
Proof. reflexivity. Qed.

Lemma roundtrip_node (src : option StoryboardGroup.t) (A B : string) (g : StoryboardGroup.t) :
  A <> B ->
  (StoryboardGroup.id g = A -> ~ In B (StoryboardGroup.connections g)) ->
  (StoryboardGroup.id g = B -> ~ In A (StoryboardGroup.inputs_or_empty g)) ->
  edges (disconnect_node A B (connect_node src A B g)) = edges g.
Proof.
  intros HAB HA HB. unfold connect_node.
  destruct (String.eqb_spec (StoryboardGroup.id g) B) as [EB|EB].
  - specialize (HB EB). pose proof HB as HI. apply includes_false in HI.
    assert (E : edges (disconnect_node A B
                  (StoryboardGroup.with_inputs
                     (Some (StoryboardGroup.inputs_or_empty g ++ [A])) g)) = edges g).
    { unfold disconnect_node, edges. simpl. rewrite EB, String.eqb_refl. simpl.
      unfold StoryboardGroup.inputs_or_empty at 1. simpl.
      rewrite filter_neq_snoc by assumption. congruence. }
    destruct (music_into_timeline g src).
    + rewrite <- E. unfold disconnect_node, edges. simpl.
      rewrite EB, String.eqb_refl. reflexivity.
    + rewrite HI. simpl. exact E.
  - apply String.eqb_neq in EB.
    destruct (String.eqb_spec (StoryboardGroup.id g) A) as [EA|EA].
    + specialize (HA EA). pose proof HA as HI. apply includes_false in HI.
      rewrite HI. unfold disconnect_node, edges. simpl.
      rewrite EB, EA, String.eqb_refl. simpl.
      rewrite filter_neq_snoc by assumption.
      unfold StoryboardGroup.inputs_or_empty. simpl. congruence.
    + apply String.eqb_neq in EA. unfold disconnect_node. now rewrite EB, EA.
Qed.

(** The [inputs] field itself after the round trip: as it was, except that
    on the target an absent field comes back as the empty array. *)
Lemma roundtrip_node_inputs (src : option StoryboardGroup.t) (A B : string)
    (g : StoryboardGroup.t) :
  A <> B ->
  (StoryboardGroup.id g = B -> ~ In A (StoryboardGroup.inputs_or_empty g)) ->
  StoryboardGroup.inputs (disconnect_node A B (connect_node src A B g)) =
    StoryboardGroup.inputs g \/
  (StoryboardGroup.id g = B /\ StoryboardGroup.inputs g = None /\
   StoryboardGroup.inputs (disconnect_node A B (connect_node src A B g)) = Some []).
Proof.
  intros HAB HB. unfold connect_node.
  destruct (String.eqb_spec (StoryboardGroup.id g) B) as [EB|EB].
  - specialize (HB EB). pose proof HB as HI. apply includes_false in HI.
    assert (E : StoryboardGroup.inputs
                  (disconnect_node A B
                     (StoryboardGroup.with_inputs
                        (Some (StoryboardGroup.inputs_or_empty g ++ [A])) g))
                = Some (StoryboardGroup.inputs_or_empty g)).
    { unfold disconnect_node. simpl. rewrite EB, String.eqb_refl. simpl.
      now rewrite filter_neq_snoc. }
    assert (E' : StoryboardGroup.inputs
                   (disconnect_node A B (connect_node src A B g))
                 = Some (StoryboardGroup.inputs_or_empty g)).
    { unfold connect_node. rewrite (proj2 (String.eqb_eq _ _) EB).
      destruct (music_into_timeline g src).
      - rewrite <- E. unfold disconnect_node. simpl.
        now rewrite EB, String.eqb_refl.
      - rewrite HI. exact E. }
    unfold connect_node in E'. rewrite (proj2 (String.eqb_eq _ _) EB) in E'.
    rewrite E'. unfold StoryboardGroup.inputs_or_empty.
    destruct (StoryboardGroup.inputs g) as [l|]; [now left | right; auto].
  - left. apply String.eqb_neq in EB.
    destruct (StoryboardGroup.id g =? A) eqn:EA;
      [destruct (negb (includes (StoryboardGroup.connections g) B))|];
      unfold disconnect_node; simpl; rewrite EB, ?EA; reflexivity.
Qed.

(** C3. For distinct [A] and [B] with no edge from [A] to [B] recorded on
    either side, [handleConnect A B] followed by [handleDisconnect A B]
    gives every node, and so [A] and [B], the [connections] and [inputs]
    lists it had before, an absent [inputs] reading as the empty list: the
    [inputs] field of every node is as it was, except that on the target an
    absent field comes back as the empty array. *)
Theorem connect_then_disconnect_restores_edges (A B : string) (st : AppState) :
  A <> B ->
  (forall g, In g (storyboards st) -> StoryboardGroup.id g = A ->
             ~ In B (StoryboardGroup.connections g)) ->
  (forall g, In g (storyboards st) -> StoryboardGroup.id g = B ->
             ~ In A (StoryboardGroup.inputs_or_empty g)) ->
  let st' := handleDisconnect A B (handleConnect A B st) in
  map edges (storyboards st') = map edges (storyboards st) /\
  (forall i g, nth_error (storyboards st) i = Some g ->
     exists g', nth_error (storyboards st') i = Some g' /\
       (StoryboardGroup.inputs g' = StoryboardGroup.inputs g \/
        (StoryboardGroup.id g = B /\ StoryboardGroup.inputs g = None /\
         StoryboardGroup.inputs g' = Some []))).
Proof.
  intros HAB HA HB st'. subst st'.
  rewrite handleDisconnect_storyboards, handleConnect_unfold.
  rewrite (proj2 (String.eqb_neq A B) HAB).
  assert (Hac : already_connected (find_node A (storyboards st)) B = false).
  { destruct (find_node A (storyboards st)) as [s|] eqn:E; [|reflexivity].
    apply find_node_Some in E. destruct E as [Hin Hid].
    simpl. apply includes_false. now apply HA. }
  rewrite Hac, storyboards_guarded. unfold connect_update. split.
  - rewrite !map_map. apply map_ext_in. intros g Hg.
    apply roundtrip_node; auto.
  - intros i g Hi. eexists. split.
    + rewrite !nth_error_map, Hi. reflexivity.
    + apply roundtrip_node_inputs; [assumption|].
      apply HB. now apply nth_error_In with (n := i).
Qed.

Lemma connect_then_disconnect_restores_edges_witness :
  map edges (storyboards (handleConnect "n-1" "n-0" Sample.template)) =
    [("n-0", ["n-1"], ["n-1"]); ("n-1", ["n-0"], ["n-0"])] /\
  map edges (storyboards (handleDisconnect "n-1" "n-0"
                            (handleConnect "n-1" "n-0" Sample.template))) =
    map edges (storyboards Sample.template).
Proof.
  split; [reflexivity|].
  apply (connect_then_disconnect_restores_edges "n-1" "n-0" Sample.template).
  - discriminate.
  - intros g [<-|[<-|[]]]; simpl; intros E; try discriminate E; intros [].
  - intros g [<-|[<-|[]]]; simpl; intros E; try discriminate E; intros [].
Defined.

(** The round trip restores the inbound list as it is read; the field
    itself, when it was absent, comes back as an empty array. *)
Example roundtrip_absent_inputs_field :
  map StoryboardGroup.inputs (storyboards Sample.template) = [None; Some ["n-0"]] /\
  map StoryboardGroup.inputs
      (storyboards (handleDisconnect "n-1" "n-0"
                      (handleConnect "n-1" "n-0" Sample.template))) =
    [Some []; Some ["n-0"]].
Proof. split; reflexivity. Qed.

(** ** Copy and paste *)

Lemma handlePaste_clipboard (u : nat -> string) (n : nat -> Z) (st : AppState) :
  clipboard (handlePaste u n st) = clipboard st.
Proof. unfold handlePaste. destruct (clipboard st) eqn:E; simpl; congruence. Qed.

(** C5, as stated, fails: in the sample session the clipboard holds the
    node at (100, 300); two pastes add two nodes, and their positions are
    not (140, 340) and (180, 380). *)
Lemma paste_twice_offsets_counterexample :
  clipboard Sample.copied = nth_error (storyboards Sample.template) 0 /\
  ~ Forall2 same_position
      (map position (appended (storyboards Sample.copied) (storyboards Sample.pasted_twice)))
      [((100 + 40)%Q, (300 + 40)%Q); ((100 + 80)%Q, (300 + 80)%Q)].
Proof.
  split; [reflexivity|].
  intros H. inversion H as [|p q ps qs _ H2]; subst.
  inversion H2 as [|p' q' ps' qs' [Hx _] _]; subst.
  vm_compute in Hx. discriminate Hx.
Qed.

(** C5, amended. With a node [c] on the clipboard, two pastes in a row add
    two nodes at the end of the collection, both at [c]'s stored position
    plus (40, 40): each paste offsets from the clipboard content, which no
    paste changes.  Each new node has the identifier drawn for it, the
    title suffixed with " (Copy)", no connections and no inputs, and the
    second one ends up selected. *)
Theorem paste_twice_same_offset (u1 u2 : nat -> string) (n1 n2 : nat -> Z)
    (st : AppState) (c : StoryboardGroup.t) :
  clipboard st = Some c ->
  let st1 := handlePaste u1 n1 st in
  let st2 := handlePaste u2 n2 st1 in
  clipboard st1 = Some c /\ clipboard st2 = Some c /\
  selectedNodeId st2 = Some (u2 0%nat) /\
  exists p1 p2,
    storyboards st1 = storyboards st ++ [p1] /\
    storyboards st2 = storyboards st ++ [p1; p2] /\
    StoryboardGroup.id p1 = u1 0%nat /\ StoryboardGroup.id p2 = u2 0%nat /\
    position p1 = ((StoryboardGroup.x c + 40)%Q, (StoryboardGroup.y c + 40)%Q) /\
    position p2 = ((StoryboardGroup.x c + 40)%Q, (StoryboardGroup.y c + 40)%Q) /\
    StoryboardGroup.title p1 = (StoryboardGroup.title c ++ " (Copy)")%string /\
    StoryboardGroup.title p2 = (StoryboardGroup.title c ++ " (Copy)")%string /\
    edges p1 = (u1 0%nat, [], []) /\ edges p2 = (u2 0%nat, [], []).
Proof.
  intros Hc st1 st2.
  assert (E1 : st1 = setSelectedNodeId (Some (u1 0%nat))
                 (setStoryboards (fun prev => prev ++ [pasted_node u1 n1 c])
                    (saveHistory (storyboards st) st))).
  { subst st1. unfold handlePaste. now rewrite Hc. }
  assert (Hc1 : clipboard st1 = Some c) by (rewrite E1; exact Hc).
  assert (E2 : st2 = setSelectedNodeId (Some (u2 0%nat))
                 (setStoryboards (fun prev => prev ++ [pasted_node u2 n2 c])
                    (saveHistory (storyboards st1) st1))).
  { subst st2. unfold handlePaste. now rewrite Hc1. }
  split; [assumption|]. split; [rewrite E2; exact Hc1|].
  split; [rewrite E2; reflexivity|].
  exists (pasted_node u1 n1 c), (pasted_node u2 n2 c).
  split; [rewrite E1; reflexivity|]. split.
  - rewrite E2. simpl. rewrite E1. simpl. now rewrite <- app_assoc.
  - repeat split.
Qed.

Lemma paste_twice_same_offset_witness :
  clipboard Sample.copied <> None /\
  map position (appended (storyboards Sample.copied) (storyboards Sample.pasted_twice)) =
    [((100 + 40)%Q, (300 + 40)%Q); ((100 + 40)%Q, (300 + 40)%Q)] /\
  clipboard Sample.pasted_twice = clipboard Sample.copied.
Proof.
  split; [discriminate|].
  destruct (clipboard Sample.copied) as [c|] eqn:E; [|discriminate].
  destruct (paste_twice_same_offset (Sample.uuid "p") (Sample.uuid "q")
              (Sample.clock 2000) (Sample.clock 3000) Sample.copied c E)
    as [_ [H2 [_ [p1 [p2 [_ [Hsb [_ [_ [Hp1 [Hp2 _]]]]]]]]]]].
  fold Sample.pasted_twice in H2, Hsb. split; [|exact H2].
  rewrite Hsb. unfold appended. rewrite skipn_app, skipn_all, Nat.sub_diag. simpl.
  rewrite Hp1, Hp2. injection E as <-. reflexivity.
Defined.

(** ** Connecting a music bin to a timeline *)

Lemma connect_node_music_timeline (src g : StoryboardGroup.t) (A B : string)
    (first : CanvasItem.t) (rest : list CanvasItem.t) :
  StoryboardGroup.type src = music ->
  StoryboardGroup.items src = first :: rest ->
  StoryboardGroup.id g = B ->
  StoryboardGroup.type g = timeline ->
  connect_node (Some src) A B g =
  StoryboardGroup.with_config
    (Some (NodeConfig.with_timelineAudioUrl (Some (CanvasItem.url first)) (spread_config g)))
    (StoryboardGroup.with_inputs (Some (StoryboardGroup.inputs_or_empty g ++ [A])) g).
Proof.
  intros Hty Hit Hid Hg. unfold connect_node, music_into_timeline.
  rewrite Hid, String.eqb_refl, Hg, Hty, Hit. reflexivity.
Qed.

Lemma connect_node_plain_source (src : option StoryboardGroup.t) (g : StoryboardGroup.t)
    (A B : string) :
  A <> B -> StoryboardGroup.id g = A -> ~ In B (StoryboardGroup.connections g) ->
  connect_node src A B g =
  StoryboardGroup.with_connections (StoryboardGroup.connections g ++ [B]) g.
Proof.
  intros HAB Hid Hnot. unfold connect_node. rewrite Hid, String.eqb_refl.
  rewrite (proj2 (String.eqb_neq A B) HAB).
  apply includes_false in Hnot. now rewrite Hnot.
Qed.

(** C6. When [handleConnect A B] commits ([A <> B], the source node does
    not list [B] yet), the source node is a music bin with a first item,
    then in the collection produced by the one update: every timeline node
    carrying the identifier [B] has [timelineAudioUrl] set to the URL of
    that first item and [A] appended to its inputs, nothing else of it
    changed; and the source node has [B] appended to its connections. *)
Theorem handleConnect_music_timeline_seeds_audio (A B : string) (st : AppState)
    (src : StoryboardGroup.t) (first : CanvasItem.t) (rest : list CanvasItem.t) :
  A <> B ->
  find_node A (storyboards st) = Some src ->
  ~ In B (StoryboardGroup.connections src) ->
  StoryboardGroup.type src = music ->
  StoryboardGroup.items src = first :: rest ->
  let st' := handleConnect A B st in
  (forall i g, nth_error (storyboards st) i = Some g ->
     StoryboardGroup.id g = B -> StoryboardGroup.type g = timeline ->
     exists g', nth_error (storyboards st') i = Some g' /\
       audio_ref g' = Some (CanvasItem.url first) /\
       StoryboardGroup.inputs g' = Some (StoryboardGroup.inputs_or_empty g ++ [A]) /\
       StoryboardGroup.connections g' = StoryboardGroup.connections g /\
       StoryboardGroup.id g' = B /\ StoryboardGroup.type g' = timeline /\
       StoryboardGroup.title g' = StoryboardGroup.title g /\
       position g' = position g /\
       StoryboardGroup.items g' = StoryboardGroup.items g /\
       clips_ref g' = clips_ref g) /\
  (exists j, nth_error (storyboards st) j = Some src /\
     nth_error (storyboards st') j =
       Some (StoryboardGroup.with_connections (StoryboardGroup.connections src ++ [B]) src)) /\
  history st' = history (saveHistory (storyboards st) st).
Proof.
  intros HAB Hfind Hnot Hty Hit st'.
  assert (E : st' = setStoryboards (connect_update (Some src) A B)
                      (saveHistory (storyboards st) st)).
  { subst st'. rewrite handleConnect_unfold, Hfind.
    rewrite (proj2 (String.eqb_neq A B) HAB). simpl.
    apply includes_false in Hnot. now rewrite Hnot. }
  rewrite E, storyboards_guarded. unfold connect_update.
  split; [|split; [|reflexivity]].
  - intros i g Hi Hid Hg. eexists. split.
    + rewrite nth_error_map, Hi. simpl.
      rewrite (connect_node_music_timeline src g A B first rest Hty Hit Hid Hg).
      reflexivity.
    + unfold audio_ref, position, clips_ref, spread_config. simpl.
      repeat split; try assumption.
      now destruct (StoryboardGroup.config g).
  - apply find_node_Some in Hfind. destruct Hfind as [Hin Hid].
    apply In_nth_error in Hin. destruct Hin as [j Hj]. exists j.
    split; [assumption|].
    rewrite nth_error_map, Hj. simpl.
    now rewrite (connect_node_plain_source (Some src) src A B HAB Hid Hnot).
Qed.

Lemma handleConnect_music_timeline_seeds_audio_witness :
  map audio_ref (storyboards Sample.music_and_timeline) = [None; None] /\
  exists g',
    nth_error (storyboards (handleConnect "m-0" "t-0" Sample.music_and_timeline)) 1 = Some g' /\
    audio_ref g' = Some "blob:song.mp3" /\
    StoryboardGroup.inputs g' = Some ["m-0"].
Proof.
  split; [reflexivity|].
  destruct (find_node "m-0" (storyboards Sample.music_and_timeline)) as [src|] eqn:Hfind;
    [|discriminate].
  assert (Hnot : ~ In "t-0" (StoryboardGroup.connections src)).
  { injection Hfind as <-. intros []. }
  assert (Hty : StoryboardGroup.type src = music) by (injection Hfind as <-; reflexivity).
  assert (Hit : StoryboardGroup.items src = Sample.song :: [])
    by (injection Hfind as <-; reflexivity).
  assert (HAB : "m-0" <> "t-0") by discriminate.
  destruct (handleConnect_music_timeline_seeds_audio "m-0" "t-0" Sample.music_and_timeline
              src Sample.song [] HAB Hfind Hnot Hty Hit) as [Htl _].
  destruct (nth_error (storyboards Sample.music_and_timeline) 1) as [g|] eqn:Hg;
    [|discriminate].
  assert (Hid : StoryboardGroup.id g = "t-0") by (injection Hg as <-; reflexivity).
  assert (Htg : StoryboardGroup.type g = timeline) by (injection Hg as <-; reflexivity).
  destruct (Htl 1%nat g Hg Hid Htg) as [g' [Hg' [Haudio [Hin _]]]].
  exists g'. split; [exact Hg'|]. split; [exact Haudio|].
  rewrite Hin. injection Hg as <-. reflexivity.
Defined.

(** ** The timeline: total duration *)

Lemma fold_durations (clips : list TimelineClip.t) (a : Q) :
  (fold_left (fun acc clip => acc + TimelineClip.duration clip) clips a
   == a + sum_durations clips)%Q.
Proof.
  revert a. induction clips as [|c clips IH]; intros a; simpl.
  - ring.
  - rewrite IH. ring.
Qed.

Lemma clipsDur_sum (clips : list TimelineClip.t) :
  (TimelinePlayer.clipsDur clips == sum_durations clips)%Q.
Proof. unfold TimelinePlayer.clipsDur. rewrite fold_durations. ring. Qed.

Lemma sum_durations_all_4 (clips : list TimelineClip.t) :
  (forall c, In c clips -> (TimelineClip.duration c == 4)%Q) ->
  (sum_durations clips == 4 * inject_Z (Z.of_nat (length clips)))%Q.
Proof.
  induction clips as [|c clips IH]; intros H.
  - simpl. ring.
  - cbn [sum_durations length]. rewrite (H c) by now left.
    rewrite IH by (intros c' Hc'; apply H; now right).
    rewrite Nat2Z.inj_succ. unfold Z.succ. rewrite inject_Z_plus. ring.
Qed.

(** C7. The total duration the player stores is the maximum of the sum of
    the clip durations, the audio duration and 60; with three clips of
    4 seconds and an audio track no longer than 60 seconds it is 60. *)
Theorem totalDuration_is_max (clips : list TimelineClip.t) (audioDuration : Q) :
  (TimelinePlayer.totalDuration clips audioDuration
   == Qmax (Qmax (sum_durations clips) audioDuration) 60)%Q /\
  (length clips = 3%nat ->
   (forall c, In c clips -> (TimelineClip.duration c == 4)%Q) ->
   (audioDuration <= 60)%Q ->
   (TimelinePlayer.totalDuration clips audioDuration == 60)%Q).
Proof.
  assert (E : (TimelinePlayer.totalDuration clips audioDuration
               == Qmax (Qmax (sum_durations clips) audioDuration) 60)%Q).
  { unfold TimelinePlayer.totalDuration, Math_max. simpl.
    now rewrite clipsDur_sum. }
  split; [exact E|].
  intros Hlen Hall Haudio. rewrite E, (sum_durations_all_4 clips Hall), Hlen.
  apply Q.max_r. apply Q.max_lub; [|assumption].
  vm_compute. discriminate.
Qed.

Lemma totalDuration_is_max_witness :
  (TimelinePlayer.totalDuration Sample.three_clips 0 == 60)%Q.
Proof.
  apply (proj2 (totalDuration_is_max Sample.three_clips 0)).
  - reflexivity.
  - intros c [<-|[<-|[<-|[]]]]; reflexivity.
  - vm_compute. discriminate.
Defined.

(** ** The timeline: clip starts and clip resize *)

Lemma startTime_S (clips : list TimelineClip.t) (k : nat) (c : TimelineClip.t) :
  nth_error clips k = Some c ->
  TimelinePlayer.startTime clips (S k) =
  (TimelinePlayer.startTime clips k + TimelineClip.duration c)%Q.
Proof.
  intros H. unfold TimelinePlayer.startTime.
  rewrite seq_S, fold_left_app. simpl. now rewrite H.
Qed.

(** The start of clip [k] reads the clips before [k] only. *)
Lemma startTime_ext (l1 l2 : list TimelineClip.t) (k : nat) :
  (forall j, (j < k)%nat -> nth_error l1 j = nth_error l2 j) ->
  TimelinePlayer.startTime l1 k = TimelinePlayer.startTime l2 k.
Proof.
  intros H. unfold TimelinePlayer.startTime.
  assert (G : forall (js : list nat) (a : Q),
             (forall j, In j js -> (j < k)%nat) ->
             fold_left (fun startTime j =>
                          match nth_error l1 j with
                          | Some c => (startTime + TimelineClip.duration c)%Q
                          | None => startTime
                          end) js a =
             fold_left (fun startTime j =>
                          match nth_error l2 j with
                          | Some c => (startTime + TimelineClip.duration c)%Q
                          | None => startTime
                          end) js a).
  { induction js as [|j js IH]; intros a Hjs; simpl; [reflexivity|].
    rewrite (H j) by (apply Hjs; now left).
    apply IH. intros j' Hj'. apply Hjs. now right. }
  apply G. intros j Hj. apply in_seq in Hj. lia.
Qed.

Lemma sum_durations_app (l1 l2 : list TimelineClip.t) :
  (sum_durations (l1 ++ l2) == sum_durations l1 + sum_durations l2)%Q.
Proof.
  induction l1 as [|c l1 IH]; simpl.
  - ring.
  - rewrite IH. ring.
Qed.

Lemma firstn_S_snoc {A : Type} (l : list A) (k : nat) (a : A) :
  nth_error l k = Some a -> firstn (S k) l = firstn k l ++ [a].
Proof.
  revert k. induction l as [|b l IH]; intros k H.
  - destruct k; discriminate H.
  - destruct k as [|k]; simpl in H.
    + injection H as ->. reflexivity.
    + simpl. f_equal. exact (IH k H).
Qed.

(** Each start offset is the sum of the durations of the clips before it. *)
Lemma startTime_prefix_sum (clips : list TimelineClip.t) (k : nat) :
  (k <= length clips)%nat ->
  (TimelinePlayer.startTime clips k == sum_durations (firstn k clips))%Q.
Proof.
  induction k as [|k IH]; intros Hk.
  - reflexivity.
  - destruct (nth_error clips k) as [c|] eqn:E.
    + rewrite (startTime_S clips k c E), (firstn_S_snoc clips k c E).
      rewrite sum_durations_app, IH by lia. simpl. ring.
    + apply nth_error_None in E. lia.
Qed.

Section Resize.
Variable clips : list TimelineClip.t.
Variable i : nat.
Variable c : TimelineClip.t.
Variable rs : TimelinePlayer.ResizingState.
Variable d : Q.

Hypothesis ids_unique : NoDup (map TimelineClip.id clips).
Hypothesis at_i : nth_error clips i = Some c.
Hypothesis rs_id : TimelinePlayer.id rs = TimelineClip.id c.

Let resized : list TimelineClip.t := resized_clips rs d clips.

Lemma resized_at_i : nth_error resized i = Some (TimelineClip.with_duration d c).
Proof.
  unfold resized, resized_clips. rewrite nth_error_map, at_i. simpl.
  now rewrite rs_id, String.eqb_refl.
Qed.

Lemma resized_elsewhere (j : nat) : j <> i -> nth_error resized j = nth_error clips j.
Proof.
  intros Hj. unfold resized, resized_clips. rewrite nth_error_map.
  destruct (nth_error clips j) as [cj|] eqn:Ej; [|reflexivity]. simpl.
  destruct (String.eqb_spec (TimelineClip.id cj) (TimelinePlayer.id rs)) as [E|E];
    [|reflexivity].
  exfalso. apply Hj.
  apply (proj1 (NoDup_nth_error (map TimelineClip.id clips)) ids_unique).
  - rewrite length_map. apply nth_error_Some. congruence.
  - rewrite !nth_error_map, Ej, at_i. simpl. congruence.
Qed.

Lemma resized_start_upto (k : nat) :
  (k <= i)%nat -> TimelinePlayer.startTime resized k = TimelinePlayer.startTime clips k.
Proof.
  intros Hk. apply startTime_ext. intros j Hj. apply resized_elsewhere. lia.
Qed.

Lemma resized_start_after (k : nat) :
  (i < k <= length clips)%nat ->
  (TimelinePlayer.startTime resized k
   == TimelinePlayer.startTime clips k + (d - TimelineClip.duration c))%Q.
Proof.
  induction k as [|k IH]; intros Hk; [lia|].
  destruct (nth_error clips k) as [ck|] eqn:Ek;
    [|apply nth_error_None in Ek; lia].
  destruct (Nat.eq_dec k i) as [->|Hne].
  - rewrite (startTime_S resized i _ resized_at_i), (startTime_S clips i c at_i).
    rewrite resized_start_upto by lia. simpl. ring.
  - assert (Ek' : nth_error resized k = Some ck)
      by (rewrite resized_elsewhere; assumption).
    rewrite (startTime_S resized k ck Ek'), (startTime_S clips k ck Ek).
    rewrite IH by lia. ring.
Qed.
End Resize.

(** C8. Each clip's start offset is the sum of the durations of the clips
    before it.  With distinct clip identifiers, a pointer move during the
    resize of clip [i] (grabbed at [x0] when it was [c0]) yields a list in
    which clip [i] has duration [max(0.5, c0.duration + (clientX - x0) /
    pixelsPerSecond)], every other clip is unchanged, the start offsets up
    to and including clip [i]'s are unchanged, and each later start offset
    moves by the change of clip [i]'s duration. *)
Theorem resize_changes_one_duration_and_later_starts
    (clips : list TimelineClip.t) (i : nat) (c c0 : TimelineClip.t)
    (x0 pixelsPerSecond clientX : Q) :
  NoDup (map TimelineClip.id clips) ->
  nth_error clips i = Some c ->
  TimelineClip.id c0 = TimelineClip.id c ->
  let d := Qmax (1 # 2) (TimelineClip.duration c0 + (clientX - x0) / pixelsPerSecond)%Q in
  (forall k, (k <= length clips)%nat ->
     (TimelinePlayer.startTime clips k == sum_durations (firstn k clips))%Q) /\
  exists clips',
    TimelinePlayer.handleMouseMove (Some (TimelinePlayer.onMouseDown c0 x0))
      pixelsPerSecond clientX clips = Some clips' /\
    length clips' = length clips /\
    nth_error clips' i = Some (TimelineClip.with_duration d c) /\
    (forall j, j <> i -> nth_error clips' j = nth_error clips j) /\
    (forall k, (k <= i)%nat ->
       TimelinePlayer.startTime clips' k = TimelinePlayer.startTime clips k) /\
    (forall k, (i < k <= length clips)%nat ->
       (TimelinePlayer.startTime clips' k
        == TimelinePlayer.startTime clips k + (d - TimelineClip.duration c))%Q).
Proof.
  intros Hnd Hi Hid d. split; [apply startTime_prefix_sum|].
  eexists. split; [reflexivity|].
  assert (Hrs : TimelinePlayer.id (TimelinePlayer.onMouseDown c0 x0) = TimelineClip.id c)
    by exact Hid.
  split; [apply length_map|].
  split; [exact (resized_at_i clips i c _ d Hi Hrs)|].
  split; [exact (resized_elsewhere clips i c _ d Hnd Hi Hrs)|].
  split; [exact (resized_start_upto clips i c _ d Hnd Hi Hrs)|].
  exact (resized_start_after clips i c _ d Hnd Hi Hrs).
Qed.

Lemma resize_changes_one_duration_and_later_starts_witness :
  exists clips',
    TimelinePlayer.handleMouseMove
      (Some (TimelinePlayer.onMouseDown (Sample.clip "a") 0)) 40 80 Sample.three_clips
    = Some clips' /\
    nth_error clips' 0 =
      Some (TimelineClip.with_duration (Qmax (1 # 2) (4 + (80 - 0) / 40)%Q) (Sample.clip "a")) /\
    TimelinePlayer.startTime clips' 0 = TimelinePlayer.startTime Sample.three_clips 0 /\
    (TimelinePlayer.startTime clips' 1 == 6)%Q /\
    (TimelinePlayer.startTime Sample.three_clips 1 == 4)%Q.
Proof.
  assert (Hnd : NoDup (map TimelineClip.id Sample.three_clips)).
  { repeat constructor; simpl; intuition discriminate. }
  destruct (resize_changes_one_duration_and_later_starts Sample.three_clips 0
              (Sample.clip "a") (Sample.clip "a") 0 40 80 Hnd eq_refl eq_refl)
    as [_ [clips' [Hm [_ [H0 [_ [Hup Hafter]]]]]]].
  exists clips'. split; [exact Hm|]. split; [exact H0|].
  split; [apply Hup; lia|]. split.
  - rewrite (Hafter 1%nat) by (simpl; lia). vm_compute. reflexivity.
  - vm_compute. reflexivity.
Defined.

(** ** The history stack *)

Lemma saveHistory_history (sb : list StoryboardGroup.t) (st : AppState) :
  (length (history st) <= 20)%nat ->
  history (saveHistory sb st) =
  skipn (S (length (history st)) - 20) (history st ++ [sb]).
Proof.
  intros Hlen. unfold saveHistory, setHistory. cbn [history].
  rewrite length_app, Nat.add_1_r.
  destruct (Nat.ltb_spec 20 (S (length (history st)))) as [H|H].
  - replace (S (length (history st)) - 20)%nat with 1%nat by lia.
    now destruct (history st ++ [sb]).
  - replace (S (length (history st)) - 20)%nat with 0%nat by lia. reflexivity.
Qed.

(** The newest entry of the stack is the collection just saved. *)
Lemma saveHistory_snoc (sb : list StoryboardGroup.t) (st : AppState) :
  exists l, history (saveHistory sb st) = l ++ [sb] /\
            (l = history st \/ l = tl (history st)).
Proof.
  unfold saveHistory. simpl.
  destruct (Nat.ltb_spec 20 (length (history st ++ [sb]))) as [H|H].
  - destruct (history st) as [|a l].
    + simpl in H. lia.
    + exists l. split; [reflexivity | now right].
  - exists (history st). split; [reflexivity | now left].
Qed.

(** FIFO cap: a stack of at most 20 entries stays so. *)
Lemma saveHistory_capped (sb : list StoryboardGroup.t) (st : AppState) :
  (length (history st) <= 20)%nat -> (length (history (saveHistory sb st)) <= 20)%nat.
Proof.
  intros H. rewrite saveHistory_history by assumption.
  rewrite length_skipn, length_app. simpl. lia.
Qed.

Lemma handleUndo_snoc (st : AppState) (l : list (list StoryboardGroup.t))
    (s : list StoryboardGroup.t) :
  history st = l ++ [s] ->
  handleUndo st = setHistory (fun _ => l) (setStoryboards (fun _ => s) st).
Proof.
  intros H. unfold handleUndo. rewrite H, length_app, Nat.add_1_r. simpl.
  rewrite Nat.sub_0_r, nth_middle, removelast_last. reflexivity.
Qed.

(** Undo right after a guarded action puts back the node collection, with
    the store untouched, so the collections are deeply equal. *)
Lemma undo_after_guarded (f : list StoryboardGroup.t -> list StoryboardGroup.t)
    (st : AppState) :
  storyboards (handleUndo (guarded f st)) = storyboards st /\
  heap (handleUndo (guarded f st)) = heap st /\
  deep (heap (handleUndo (guarded f st))) (storyboards (handleUndo (guarded f st))) =
  deep (heap st) (storyboards st).
Proof.
  destruct (saveHistory_snoc (storyboards st) st) as [l [Hl _]].
  assert (E : handleUndo (guarded f st) =
              setHistory (fun _ => l) (setStoryboards (fun _ => storyboards st) (guarded f st))).
  { apply handleUndo_snoc. exact Hl. }
  rewrite E. repeat split.
Qed.

Lemma run_cons (f : list StoryboardGroup.t -> list StoryboardGroup.t)
    (fs : list (list StoryboardGroup.t -> list StoryboardGroup.t)) (st : AppState) :
  run (f :: fs) st = run fs (guarded f st).
Proof. reflexivity. Qed.

(** The stack after a run of guarded actions: the last 20 entries of the
    former stack followed by the collections the actions started from. *)
Lemma history_run (fs : list (list StoryboardGroup.t -> list StoryboardGroup.t))
    (st : AppState) :
  (length (history st) <= 20)%nat ->
  history (run fs st) =
  skipn (length (history st) + length fs - 20)
        (history st ++ snapshots fs (storyboards st)).
Proof.
  revert st. induction fs as [|f fs IH]; intros st Hlen.
  - simpl. rewrite app_nil_r.
    replace (length (history st) + 0 - 20)%nat with 0%nat by lia. reflexivity.
  - rewrite run_cons, IH by (apply saveHistory_capped; exact Hlen).
    change (storyboards (guarded f st)) with (f (storyboards st)).
    change (history (guarded f st)) with (history (saveHistory (storyboards st) st)).
    rewrite saveHistory_history by assumption.
    set (j := (S (length (history st)) - 20)%nat).
    assert (Hj : (j <= length (history st ++ [storyboards st]))%nat).
    { subst j. rewrite length_app. simpl. lia. }
    replace (skipn j (history st ++ [storyboards st]) ++ snapshots fs (f (storyboards st)))
      with (skipn j ((history st ++ [storyboards st]) ++ snapshots fs (f (storyboards st)))).
    2:{ rewrite skipn_app. replace (j - length (history st ++ [storyboards st]))%nat
          with 0%nat by lia. reflexivity. }
    rewrite skipn_skipn, <- app_assoc. simpl. f_equal.
    rewrite length_skipn, length_app. simpl. subst j. lia.
Qed.

Lemma undos_pops (ss : list (list StoryboardGroup.t)) :
  forall (st : AppState) (pre : list (list StoryboardGroup.t)),
    history st = pre ++ ss ->
    storyboards (undos (length ss) st) = hd (storyboards st) ss /\
    history (undos (length ss) st) = pre /\
    heap (undos (length ss) st) = heap st.
Proof.
  induction ss as [|s ss IH] using rev_ind; intros st pre H.
  - simpl. rewrite app_nil_r in H. auto.
  - rewrite length_app, Nat.add_1_r. simpl.
    rewrite app_assoc in H. rewrite (handleUndo_snoc st _ s H).
    destruct (IH (setHistory (fun _ => pre ++ ss) (setStoryboards (fun _ => s) st)) pre eq_refl)
      as [Hsb [Hh Hheap]].
    rewrite Hsb, Hh, Hheap. repeat split. now destruct ss.
Qed.

(** Up to 20 guarded actions in a row are undone one by one, back to the
    collection the first of them started from. *)
Lemma undo_all_restores (fs : list (list StoryboardGroup.t -> list StoryboardGroup.t))
    (st : AppState) :
  (length (history st) <= 20)%nat -> (length fs <= 20)%nat ->
  storyboards (undos (length fs) (run fs st)) = storyboards st /\
  heap (undos (length fs) (run fs st)) = heap st.
Proof.
  intros Hh Hfs.
  assert (Hheap : forall gs s, heap (run gs s) = heap s).
  { induction gs as [|g gs IH]; intros s; [reflexivity|]. rewrite run_cons, IH. reflexivity. }
  assert (Hlen : forall gs sb, length (snapshots gs sb) = length gs).
  { induction gs as [|g gs IH]; intros sb; simpl; [reflexivity | now rewrite IH]. }
  pose proof (history_run fs st Hh) as H.
  rewrite skipn_app in H.
  replace (length (history st) + length fs - 20 - length (history st))%nat with 0%nat in H by lia.
  simpl in H.
  destruct (undos_pops (snapshots fs (storyboards st)) (run fs st) _ H) as [Hsb [_ Hhp]].
  rewrite Hlen in Hsb, Hhp. rewrite Hsb, Hhp, Hheap. split; [|reflexivity].
  destruct fs as [|f fs]; reflexivity.
Qed.

Lemma undos_in_history (n : nat) :
  forall st, storyboards (undos n st) = storyboards st \/
             In (storyboards (undos n st)) (history st).
Proof.
  induction n as [|n IH]; intros st; [now left|]. simpl.
  destruct (history st) as [|a l] eqn:E using rev_ind.
  - rewrite (handleUndo_nil st E).
    destruct (IH st) as [H|H]; [now left | rewrite E in H; contradiction].
  - clear IHl. rewrite (handleUndo_snoc st l a E).
    destruct (IH (setHistory (fun _ => l) (setStoryboards (fun _ => a) st))) as [H|H];
      right; apply in_or_app.
    + right. left. symmetry. exact H.
    + left. exact H.
Qed.

(** After 21 guarded actions on a fresh stack the stack holds the 20
    collections actions 2 to 21 started from: the collection the first
    action started from has been evicted, and no number of undos reaches
    anything but the current collection or one of those 20. *)
Lemma oldest_snapshot_evicted (fs : list (list StoryboardGroup.t -> list StoryboardGroup.t))
    (st : AppState) :
  history st = [] -> length fs = 21%nat ->
  history (run fs st) = tl (snapshots fs (storyboards st)) /\
  length (history (run fs st)) = 20%nat /\
  forall n, In (storyboards (undos n (run fs st)))
               (storyboards (run fs st) :: tl (snapshots fs (storyboards st))).
Proof.
  intros Hh Hfs.
  assert (E : history (run fs st) = tl (snapshots fs (storyboards st))).
  { rewrite history_run by (rewrite Hh; simpl; lia).
    rewrite Hh, Hfs. simpl. now destruct (snapshots fs (storyboards st)). }
  split; [exact E|]. split.
  - rewrite E. destruct fs as [|f fs]; [discriminate|]. simpl.
    assert (Hlen : forall gs sb, length (snapshots gs sb) = length gs).
    { induction gs as [|g gs IH]; intros sb; simpl; [reflexivity | now rewrite IH]. }
    rewrite Hlen. simpl in Hfs. lia.
  - intros n. destruct (undos_in_history n (run fs st)) as [H|H].
    + left. now rewrite H.
    + right. now rewrite <- E.
Qed.

(** The handlers that only build new objects are guarded actions. *)
Lemma functional_handlers_are_guarded (st : AppState) :
  (forall nodeId newTitle,
     handleRenameNode nodeId newTitle st =
     guarded (map (fun g => if StoryboardGroup.id g =? nodeId
                            then StoryboardGroup.with_title newTitle g else g)) st) /\
  (forall A B, handleDisconnect A B st = guarded (map (disconnect_node A B)) st) /\
  (forall A B, handleConnect A B st = st \/
               handleConnect A B st =
               guarded (connect_update (find_node A (storyboards st)) A B) st) /\
  (forall u n c, clipboard st = Some c ->
     handlePaste u n st =
     setSelectedNodeId (Some (u 0%nat)) (guarded (fun prev => prev ++ [pasted_node u n c]) st)) /\
  (forall X, exists f,
     storyboards (handleDeleteNode X st) = storyboards (guarded f st) /\
     history (handleDeleteNode X st) = history (guarded f st) /\
     heap (handleDeleteNode X st) = heap (guarded f st)).
Proof.
  split; [reflexivity|]. split; [reflexivity|]. split; [|split].
  - intros A B. rewrite handleConnect_unfold.
    destruct (A =? B); [now left|].
    destruct (already_connected (find_node A (storyboards st)) B); [now left | now right].
  - intros u n c Hc. unfold handlePaste. now rewrite Hc.
  - intros X. eexists. repeat split.
Qed.

(** C4. The "import videos" action saves the node collection and then
    pushes the imported clip onto the timeline node's own clip array, the
    array the saved collection shares.  Undo puts the saved node records
    back, but the timeline's clip list still holds the imported clip: the
    collection after undo is not deeply equal to the one before the
    action. *)
Theorem undo_after_import_keeps_imported_clip :
  history Sample.imported =
    history Sample.video_into_timeline ++ [storyboards Sample.video_into_timeline] /\
  storyboards Sample.import_undone = storyboards Sample.video_into_timeline /\
  history Sample.import_undone = history Sample.video_into_timeline /\
  map (fun g => length (clips_of (heap Sample.video_into_timeline) g))
      (storyboards Sample.video_into_timeline) = [0%nat; 0%nat] /\
  map (fun g => map TimelineClip.videoUrl (clips_of (heap Sample.import_undone) g))
      (storyboards Sample.import_undone) = [[]; ["blob:take1.mp4"]] /\
  deep (heap Sample.import_undone) (storyboards Sample.import_undone) <>
  deep (heap Sample.video_into_timeline) (storyboards Sample.video_into_timeline).
Proof.
  split; [reflexivity|]. split; [reflexivity|]. split; [reflexivity|].
  split; [reflexivity|]. split; [reflexivity|].
  intros H. apply (f_equal (map (fun p => length (snd p)))) in H.
  vm_compute in H. discriminate H.
Qed.

(** ** The store *)

Lemma read_app_l (h ext : Heap) (r : Loc) :
  (r < length h)%nat -> Store.read (h ++ ext) r = Store.read h r.
Proof. intros H. unfold Store.read. now apply app_nth1. Qed.

Lemma read_alloc (h : Heap) (v : list TimelineClip.t) :
  Store.read (snd (Store.alloc v h)) (fst (Store.alloc v h)) = v.
Proof. unfold Store.read, Store.alloc. simpl. apply nth_middle. Qed.

Lemma clips_ref_set (l : option Loc) (g : StoryboardGroup.t) :
  clips_ref (set_clips_ref l g) = l.
Proof. reflexivity. Qed.

Lemma extends_refl (h : Heap) : extends h h.
Proof. split; auto. Qed.

Lemma extends_trans (h1 h2 h3 : Heap) : extends h1 h2 -> extends h2 h3 -> extends h1 h3.
Proof.
  intros [L1 R1] [L2 R2]. split; [lia|].
  intros r Hr. rewrite R2 by lia. now apply R1.
Qed.

Lemma extends_alloc (v : list TimelineClip.t) (h : Heap) : extends h (snd (Store.alloc v h)).
Proof.
  unfold Store.alloc. simpl. split.
  - rewrite length_app. simpl. lia.
  - intros r Hr. now apply read_app_l.
Qed.

Lemma clips_of_extends (h h' : Heap) (g : StoryboardGroup.t) :
  extends h h' ->
  (forall r, clips_ref g = Some r -> (r < length h)%nat) ->
  clips_of h' g = clips_of h g.
Proof.
  intros [_ R] Hg. unfold clips_of.
  destruct (clips_ref g) as [r|]; [|reflexivity]. apply R. now apply Hg.
Qed.

Lemma refs_ok_extends (h h' : Heap) (sb : list StoryboardGroup.t) :
  extends h h' -> refs_ok h sb -> refs_ok h' sb.
Proof.
  intros [L _] Hok g Hg r Hr. specialize (Hok g Hg r Hr). lia.
Qed.

Lemma map_alloc_cons (f : StoryboardGroup.t -> Heap -> StoryboardGroup.t * Heap)
    (g : StoryboardGroup.t) (l : list StoryboardGroup.t) (h : Heap) :
  map_alloc f (g :: l) h =
  (fst (f g h) :: fst (map_alloc f l (snd (f g h))),
   snd (map_alloc f l (snd (f g h)))).
Proof.
  simpl. destruct (f g h) as [g' h1]. simpl.
  now destruct (map_alloc f l h1).
Qed.

(** ** The generation loop *)

Section UpdateClips.
Variable agentId : string.
Variable f : TimelineClip.t -> TimelineClip.t.

(** One [setStoryboards] of the loop: every node carrying [agentId] gets a
    new array holding its clips mapped through [f]; nothing else moves. *)
Lemma update_clips_spec (X : list TimelineClip.t) (sb : list StoryboardGroup.t) :
  forall h,
    refs_ok h sb ->
    (forall g, In g sb -> StoryboardGroup.id g = agentId -> clips_of h g = X) ->
    extends h (snd (update_clips agentId f sb h)) /\
    refs_ok (snd (update_clips agentId f sb h)) (fst (update_clips agentId f sb h)) /\
    (forall g', In g' (fst (update_clips agentId f sb h)) ->
                StoryboardGroup.id g' = agentId ->
                clips_of (snd (update_clips agentId f sb h)) g' = map f X) /\
    map StoryboardGroup.id (fst (update_clips agentId f sb h)) = map StoryboardGroup.id sb.
Proof.
  induction sb as [|g l IH]; intros h Hok HP.
  - simpl. split; [apply extends_refl|]. split; [intros g []|]. split; [intros g' []|reflexivity].
  - unfold update_clips in *. rewrite map_alloc_cons.
    cbn [fst snd].
    set (body := fun (g0 : StoryboardGroup.t) (h0 : Heap) =>
                   if negb (StoryboardGroup.id g0 =? agentId) then (g0, h0)
                   else match clips_ref g0 with
                        | Some l0 =>
                            let '(updatedClips, h') :=
                              Store.alloc (map f (Store.read h0 l0)) h0 in
                            (set_clips_ref (Some updatedClips) g0, h')
                        | None => (set_clips_ref None g0, h0)
                        end) in *.
    assert (Hg : extends h (snd (body g h)) /\
                 (forall r, clips_ref (fst (body g h)) = Some r ->
                            (r < length (snd (body g h)))%nat) /\
                 (StoryboardGroup.id (fst (body g h)) = agentId ->
                  clips_of (snd (body g h)) (fst (body g h)) = map f X) /\
                 StoryboardGroup.id (fst (body g h)) = StoryboardGroup.id g).
    { subst body. cbn beta.
      destruct (String.eqb_spec (StoryboardGroup.id g) agentId) as [E|E]; cbn [negb].
      - pose proof (HP g (or_introl eq_refl) E) as HX. unfold clips_of in HX.
        destruct (clips_ref g) as [r|] eqn:Er.
        + cbn [Store.alloc fst snd].
          split; [apply (extends_alloc (map f (Store.read h r)) h)|].
          split.
          * intros r0 Hr0. rewrite clips_ref_set in Hr0. injection Hr0 as <-.
            rewrite length_app. simpl. lia.
          * split; [|reflexivity]. intros _. unfold clips_of. rewrite clips_ref_set.
            unfold Store.read at 1. rewrite nth_middle. now rewrite HX.
        + cbn [fst snd]. split; [apply extends_refl|]. split.
          * intros r0 Hr0. rewrite clips_ref_set in Hr0. discriminate.
          * split; [|reflexivity]. intros _. unfold clips_of. rewrite clips_ref_set.
            now rewrite <- HX.
      - cbn [fst snd]. split; [apply extends_refl|]. split.
        + intros r Hr. apply (Hok g (or_introl eq_refl) r Hr).
        + split; [|reflexivity]. intros E'. contradiction. }
    destruct Hg as [Hext [Hr1 [Hc1 Hid1]]].
    assert (Hok1 : refs_ok (snd (body g h)) l).
    { apply (refs_ok_extends h); [assumption|]. intros g0 Hg0. apply Hok. now right. }
    assert (HP1 : forall g0, In g0 l -> StoryboardGroup.id g0 = agentId ->
                             clips_of (snd (body g h)) g0 = X).
    { intros g0 Hg0 E0. rewrite (clips_of_extends h) by
        (try assumption; intros r Hr; apply (Hok g0 (or_intror Hg0) r Hr)).
      apply HP; [now right | assumption]. }
    destruct (IH (snd (body g h)) Hok1 HP1) as [Hext2 [Hok2 [HP2 Hids]]].
    split; [exact (extends_trans _ _ _ Hext Hext2)|]. split; [|split].
    + intros g0 [<-|Hg0] r Hr.
      * specialize (Hr1 r Hr). destruct Hext2 as [L _].
        eapply Nat.lt_le_trans; [exact Hr1 | exact L].
      * exact (Hok2 g0 Hg0 r Hr).
    + intros g0 [<-|Hg0] E0.
      * transitivity (clips_of (snd (body g h)) (fst (body g h))).
        -- apply clips_of_extends; assumption.
        -- now apply Hc1.
      * now apply HP2.
    + cbn [map]. f_equal; [exact Hid1 | exact Hids].
Qed.
End UpdateClips.

Lemma setStoryboardsH_fields
    (f : list StoryboardGroup.t -> Heap -> list StoryboardGroup.t * Heap) (st : AppState) :
  storyboards (setStoryboardsH f st) = fst (f (storyboards st) (heap st)) /\
  heap (setStoryboardsH f st) = snd (f (storyboards st) (heap st)).
Proof.
  unfold setStoryboardsH. now destruct (f (storyboards st) (heap st)).
Qed.

Lemma generate_step_eq (gen : nat -> string -> string -> Outcome) (agentId : string)
    (st : AppState) (e : nat * ToGenerate) :
  generate_step gen agentId st e =
  setStoryboardsH (update_clips agentId (entry_update gen e)) st.
Proof.
  destruct e as [k item]. unfold generate_step, entry_update, call. cbn [fst snd].
  now destruct (gen k _ _).
Qed.

Lemma entry_update_id (gen : nat -> string -> string -> Outcome) (e : nat * ToGenerate)
    (c : TimelineClip.t) :
  TimelineClip.id (entry_update gen e c) = TimelineClip.id c.
Proof.
  unfold entry_update.
  destruct (call gen (fst e) (snd e)); destruct (TimelineClip.id c =? clipId (snd e));
    reflexivity.
Qed.

Lemma entry_update_other (gen : nat -> string -> string -> Outcome) (e : nat * ToGenerate)
    (c : TimelineClip.t) :
  TimelineClip.id c <> clipId (snd e) -> entry_update gen e c = c.
Proof.
  intros H. apply String.eqb_neq in H. unfold entry_update.
  destruct (call gen (fst e) (snd e)); now rewrite H.
Qed.

Lemma finish_cons (gen : nat -> string -> string -> Outcome) (e : nat * ToGenerate)
    (es : list (nat * ToGenerate)) (c : TimelineClip.t) :
  finish gen (e :: es) c = finish gen es (entry_update gen e c).
Proof. reflexivity. Qed.

(** A clip no entry names goes through the whole loop untouched. *)
Lemma finish_other (gen : nat -> string -> string -> Outcome)
    (entries : list (nat * ToGenerate)) (c : TimelineClip.t) :
  ~ In (TimelineClip.id c) (map (fun e => clipId (snd e)) entries) ->
  finish gen entries c = c.
Proof.
  revert c. induction entries as [|e es IH]; intros c H; [reflexivity|].
  rewrite finish_cons.
  rewrite entry_update_other by (intros E; apply H; left; now rewrite E).
  apply IH. intros Hin. apply H. now right.
Qed.

Lemma mapi_from_clipIds (j : nat) (items : list ToGenerate) :
  map (fun e : nat * ToGenerate => clipId (snd e)) (mapi_from j (fun k item => (k, item)) items)
  = map clipId items.
Proof.
  revert j. induction items as [|it items IH]; intros j; simpl; [reflexivity|].
  now rewrite IH.
Qed.

(** The clip an entry names is changed by that entry's turn and by no other. *)
Lemma finish_hit (gen : nat -> string -> string -> Outcome) (items : list ToGenerate) :
  forall (j k : nat) (item : ToGenerate) (c : TimelineClip.t),
    NoDup (map clipId items) ->
    nth_error items k = Some item ->
    TimelineClip.id c = clipId item ->
    finish gen (mapi_from j (fun k item => (k, item)) items) c
    = entry_update gen ((j + k)%nat, item) c.
Proof.
  induction items as [|it items IH]; intros j k item c Hnd Hk Hid.
  - destruct k; discriminate.
  - inversion Hnd as [|? ? Hnot Hnd']; subst.
    destruct k as [|k]; simpl in Hk.
    + injection Hk as ->. rewrite Nat.add_0_r.
      cbn [mapi_from]. rewrite finish_cons.
      apply finish_other. rewrite entry_update_id, mapi_from_clipIds, Hid. exact Hnot.
    + cbn [mapi_from]. rewrite finish_cons.
      rewrite entry_update_other.
      * rewrite (IH (S j) k item c Hnd' Hk Hid). f_equal. f_equal. lia.
      * simpl. rewrite Hid. intros E. apply Hnot. rewrite <- E.
        apply in_map. now apply nth_error_In with (n := k).
Qed.

(** The whole loop: every node carrying [agentId] ends with its clip list
    mapped through the turns, whatever the outcomes were. *)
Lemma generate_loop_spec (gen : nat -> string -> string -> Outcome) (agentId : string)
    (entries : list (nat * ToGenerate)) :
  forall (st : AppState) (X : list TimelineClip.t),
    refs_ok (heap st) (storyboards st) ->
    (forall g, In g (storyboards st) -> StoryboardGroup.id g = agentId ->
               clips_of (heap st) g = X) ->
    let st' := fold_left (generate_step gen agentId) entries st in
    refs_ok (heap st') (storyboards st') /\
    (forall g', In g' (storyboards st') -> StoryboardGroup.id g' = agentId ->
                clips_of (heap st') g' = map (finish gen entries) X) /\
    map StoryboardGroup.id (storyboards st') = map StoryboardGroup.id (storyboards st).
Proof.
  induction entries as [|e es IH]; intros st X Hok HP; cbn [fold_left].
  - split; [assumption|]. split; [|reflexivity].
    intros g' Hg' E. rewrite (HP g' Hg' E). unfold finish. simpl. now rewrite map_id.
  - rewrite generate_step_eq.
    destruct (setStoryboardsH_fields (update_clips agentId (entry_update gen e)) st) as [Esb Eh].
    destruct (update_clips_spec agentId (entry_update gen e) X (storyboards st) (heap st) Hok HP)
      as [_ [Hok1 [HP1 Hids1]]].
    rewrite <- Esb, <- Eh in Hok1, HP1. rewrite <- Esb in Hids1.
    destruct (IH _ (map (entry_update gen e) X) Hok1 HP1) as [Hok2 [HP2 Hids2]].
    split; [exact Hok2|]. split.
    + intros g' Hg' E. rewrite (HP2 g' Hg' E), map_map. reflexivity.
    + now rewrite Hids2.
Qed.

(** ** In-place pushes *)

Lemma write_length (l : Loc) (v : list TimelineClip.t) (h : Heap) :
  length (Store.write l v h) = length h.
Proof.
  revert l. induction h as [|a h IH]; intros l; [now destruct l|].
  destruct l; simpl; [reflexivity | now rewrite IH].
Qed.

Lemma read_write_same (l : Loc) (v : list TimelineClip.t) (h : Heap) :
  (l < length h)%nat -> Store.read (Store.write l v h) l = v.
Proof.
  revert l. induction h as [|a h IH]; intros l H; [simpl in H; lia|].
  destruct l; [reflexivity|]. simpl in *. apply IH. lia.
Qed.

Lemma read_write_other (l l' : Loc) (v : list TimelineClip.t) (h : Heap) :
  l' <> l -> Store.read (Store.write l v h) l' = Store.read h l'.
Proof.
  revert l l'. induction h as [|a h IH]; intros l l' H; [now destruct l|].
  destruct l, l'; try reflexivity; [contradiction|].
  simpl. apply (IH l l'). congruence.
Qed.

Lemma done_in_generating (old phs : list TimelineClip.t) (i : nat) :
  (forall c, In c phs -> TimelineClip.status c = TimelineClip.generating) ->
  done_in (old ++ phs) i = done_in old i.
Proof.
  intros H. unfold done_in. rewrite existsb_app.
  replace (existsb _ phs) with false; [apply orb_false_r|].
  symmetry. apply not_true_is_false. intros E. apply existsb_exists in E.
  destruct E as [c [Hc Hd]]. rewrite (H c Hc) in Hd.
  now rewrite andb_false_r in Hd.
Qed.

Lemma placeholder_step_eq (randomUUID : nat -> string) (cur : Loc) (h : Heap) (drawn : nat)
    (gens : list ToGenerate) (i : nat) (scene : MVScene.t) :
  placeholder_step randomUUID cur (h, drawn, gens) (i, scene) =
  if done_in (Store.read h cur) i || negb (truthy (MVScene.imageUrl scene))
  then (h, drawn, gens)
  else (Store.push cur (placeholderClip (randomUUID drawn) i scene) h, S drawn,
        gens ++ [mkToGenerate i scene (randomUUID drawn)]).
Proof.
  unfold placeholder_step, done_in.
  destruct (existsb _ (Store.read h cur)); [reflexivity|].
  now destruct (truthy (MVScene.imageUrl scene)).
Qed.

(** The placeholder loop pushes, in place and in order, one placeholder per
    selected scene onto the array [cur], and touches no other array. *)
Lemma placeholder_fold (randomUUID : nat -> string) (cur : Loc) (old : list TimelineClip.t)
    (es : list (nat * MVScene.t)) :
  forall (h : Heap) (gens : list ToGenerate),
    (cur < length h)%nat ->
    Store.read h cur = old ++ map placeholder_of gens ->
    exists h',
      fold_left (placeholder_step randomUUID cur) es (h, length gens, gens) =
        (h', length (gens ++ select randomUUID old (length gens) es),
         gens ++ select randomUUID old (length gens) es) /\
      length h' = length h /\
      Store.read h' cur =
        old ++ map placeholder_of (gens ++ select randomUUID old (length gens) es) /\
      (forall r, r <> cur -> Store.read h' r = Store.read h r).
Proof.
  induction es as [|[i scene] es IH]; intros h gens Hcur Hread.
  - exists h. simpl. rewrite app_nil_r. auto.
  - cbn [fold_left select]. rewrite placeholder_step_eq, Hread.
    rewrite done_in_generating
      by (intros c Hc; apply in_map_iff in Hc; destruct Hc as [it [<- _]]; reflexivity).
    destruct (done_in old i) eqn:Ed; cbn [orb].
    + destruct (IH h gens Hcur Hread) as [h' Hh']. exists h'. exact Hh'.
    + destruct (truthy (MVScene.imageUrl scene)) eqn:Et; cbn [negb].
      * set (item := mkToGenerate i scene (randomUUID (length gens))).
        set (h1 := Store.push cur (placeholderClip (randomUUID (length gens)) i scene) h).
        assert (Hlen1 : length h1 = length h) by apply write_length.
        assert (Hread1 : Store.read h1 cur = old ++ map placeholder_of (gens ++ [item])).
        { subst h1. unfold Store.push. rewrite read_write_same by assumption.
          rewrite Hread, map_app, <- app_assoc. reflexivity. }
        assert (Hcur1 : (cur < length h1)%nat) by lia.
        destruct (IH h1 (gens ++ [item]) Hcur1 Hread1) as [h' [Hf [Hl [Hr Ho]]]].
        assert (Hlg : length (gens ++ [item]) = S (length gens))
          by (rewrite length_app; simpl; lia).
        rewrite Hlg in Hf, Hr. rewrite <- !app_assoc in Hf, Hr. cbn [app] in Hf, Hr.
        exists h'. split; [exact Hf|]. split; [lia|]. split; [exact Hr|].
        intros r Hne. rewrite (Ho r Hne). subst h1. unfold Store.push.
        now apply read_write_other.
      * destruct (IH h gens Hcur Hread) as [h' Hh']. exists h'. exact Hh'.
Qed.

Lemma copy_clips_spec (agentId : string) (cur : Loc) (C : list TimelineClip.t)
    (sb : list StoryboardGroup.t) :
  forall h,
    refs_ok h sb -> (cur < length h)%nat -> Store.read h cur = C ->
    extends h (snd (copy_clips agentId cur sb h)) /\
    refs_ok (snd (copy_clips agentId cur sb h)) (fst (copy_clips agentId cur sb h)) /\
    (forall g', In g' (fst (copy_clips agentId cur sb h)) ->
                StoryboardGroup.id g' = agentId ->
                clips_of (snd (copy_clips agentId cur sb h)) g' = C) /\
    map StoryboardGroup.id (fst (copy_clips agentId cur sb h)) = map StoryboardGroup.id sb.
Proof.
  induction sb as [|g l IH]; intros h Hok Hcur HC.
  - simpl. split; [apply extends_refl|]. split; [intros g []|]. split; [intros g' []|reflexivity].
  - unfold copy_clips in *. rewrite map_alloc_cons. cbn [fst snd].
    set (body := fun (g0 : StoryboardGroup.t) (h0 : Heap) =>
                   if StoryboardGroup.id g0 =? agentId
                   then let '(copy, h') := Store.alloc (Store.read h0 cur) h0 in
                        (set_clips_ref (Some copy) g0, h')
                   else (g0, h0)) in *.
    assert (Hg : extends h (snd (body g h)) /\
                 (forall r, clips_ref (fst (body g h)) = Some r ->
                            (r < length (snd (body g h)))%nat) /\
                 (StoryboardGroup.id (fst (body g h)) = agentId ->
                  clips_of (snd (body g h)) (fst (body g h)) = C) /\
                 StoryboardGroup.id (fst (body g h)) = StoryboardGroup.id g).
    { subst body. cbn beta.
      destruct (String.eqb_spec (StoryboardGroup.id g) agentId) as [E|E].
      - cbn [Store.alloc fst snd].
        split; [apply (extends_alloc (Store.read h cur) h)|]. split.
        + intros r0 Hr0. rewrite clips_ref_set in Hr0. injection Hr0 as <-.
          rewrite length_app. simpl. lia.
        + split; [|reflexivity]. intros _. unfold clips_of. rewrite clips_ref_set.
          unfold Store.read at 1. rewrite nth_middle. exact HC.
      - cbn [fst snd]. split; [apply extends_refl|]. split.
        + intros r Hr. apply (Hok g (or_introl eq_refl) r Hr).
        + split; [|reflexivity]. intros E'. contradiction. }
    destruct Hg as [Hext [Hr1 [Hc1 Hid1]]].
    assert (Hok1 : refs_ok (snd (body g h)) l).
    { apply (refs_ok_extends h); [assumption|]. intros g0 Hg0. apply Hok. now right. }
    assert (Hcur1 : (cur < length (snd (body g h)))%nat).
    { destruct Hext as [L _]. eapply Nat.lt_le_trans; [exact Hcur | exact L]. }
    assert (HC1 : Store.read (snd (body g h)) cur = C).
    { destruct Hext as [_ R]. rewrite R by assumption. exact HC. }
    destruct (IH (snd (body g h)) Hok1 Hcur1 HC1) as [Hext2 [Hok2 [HP2 Hids]]].
    split; [exact (extends_trans _ _ _ Hext Hext2)|]. split; [|split].
    + intros g0 [<-|Hg0] r Hr.
      * specialize (Hr1 r Hr). destruct Hext2 as [L _].
        eapply Nat.lt_le_trans; [exact Hr1 | exact L].
      * exact (Hok2 g0 Hg0 r Hr).
    + intros g0 [<-|Hg0] E0.
      * transitivity (clips_of (snd (body g h)) (fst (body g h))).
        -- apply clips_of_extends; assumption.
        -- now apply Hc1.
      * now apply HP2.
    + cbn [map]. f_equal; [exact Hid1 | exact Hids].
Qed.

Lemma set_audio_keeps (agentId : string) (audioUrl : option string) (g : StoryboardGroup.t) :
  StoryboardGroup.id (set_audio agentId audioUrl g) = StoryboardGroup.id g /\
  clips_ref (set_audio agentId audioUrl g) = clips_ref g.
Proof.
  unfold set_audio. destruct (StoryboardGroup.id g =? agentId); [|auto].
  split; [reflexivity|]. unfold clips_ref, spread_config. simpl.
  now destruct (StoryboardGroup.config g).
Qed.

Lemma clips_or_new_spec (T : StoryboardGroup.t) (h : Heap) :
  (forall r, clips_ref T = Some r -> (r < length h)%nat) ->
  extends h (snd (clips_or_new T h)) /\
  (fst (clips_or_new T h) < length (snd (clips_or_new T h)))%nat /\
  Store.read (snd (clips_or_new T h)) (fst (clips_or_new T h)) = clips_of h T.
Proof.
  intros H. unfold clips_or_new, clips_of. destruct (clips_ref T) as [r|].
  - simpl. split; [apply extends_refl|]. split; [now apply H | reflexivity].
  - split; [apply extends_alloc|]. split.
    + simpl. rewrite length_app. simpl. lia.
    + apply read_alloc.
Qed.

(** ** Batch generation *)

(** What [handleGenerateTimeline] leaves in the timeline: the clips it had,
    followed by one placeholder per selected scene, each taken through the
    turns of the loop. *)
Lemma handleGenerateTimeline_clips (randomUUID : nat -> string)
    (gen : nat -> string -> string -> Outcome) (agentId : string) (st : AppState)
    (T : StoryboardGroup.t) :
  find_node agentId (storyboards st) = Some T ->
  refs_ok (heap st) (storyboards st) ->
  gathered_scenes (storyboards st) T <> [] ->
  let old := clips_of (heap st) T in
  let sel := select randomUUID old 0
               (mapi (fun i scene => (i, scene)) (gathered_scenes (storyboards st) T)) in
  let st' := handleGenerateTimeline randomUUID gen agentId st in
  map StoryboardGroup.id (storyboards st') = map StoryboardGroup.id (storyboards st) /\
  forall g', In g' (storyboards st') -> StoryboardGroup.id g' = agentId ->
    clips_of (heap st') g' =
    map (finish gen (mapi (fun k item => (k, item)) sel)) (old ++ map placeholder_of sel).
Proof.
  intros Hfind Hok Hsc old sel st'. subst st'.
  unfold handleGenerateTimeline. rewrite Hfind.
  assert (Eg : match StoryboardGroup.inputs T with
               | Some ins => fold_left (gather_input (storyboards st)) ins ([], None)
               | None => ([], None)
               end =
               fold_left (gather_input (storyboards st))
                         (StoryboardGroup.inputs_or_empty T) ([], None)).
  { unfold StoryboardGroup.inputs_or_empty. now destruct (StoryboardGroup.inputs T). }
  rewrite Eg. clear Eg. unfold gathered_scenes in *.
  destruct (fold_left (gather_input (storyboards st)) (StoryboardGroup.inputs_or_empty T)
              ([], None)) as [mvScenes audioUrl] eqn:Egather.
  cbn [fst] in *.
  destruct mvScenes as [|sc0 scs]; [contradiction|].
  cbn [length Nat.eqb].
  set (st2 := if truthy audioUrl
              then setStoryboards (map (set_audio agentId audioUrl))
                     (setError None (setGeneratingAgents (set_add agentId) st))
              else setError None (setGeneratingAgents (set_add agentId) st)).
  assert (Hheap2 : heap st2 = heap st) by (subst st2; now destruct (truthy audioUrl)).
  assert (Hids2 : map StoryboardGroup.id (storyboards st2) = map StoryboardGroup.id (storyboards st)).
  { subst st2. destruct (truthy audioUrl); [|reflexivity]. simpl.
    rewrite map_map. apply map_ext. intros g. apply set_audio_keeps. }
  assert (Hok2 : refs_ok (heap st) (storyboards st2)).
  { subst st2. destruct (truthy audioUrl); [|exact Hok]. simpl.
    intros g Hg r Hr. apply in_map_iff in Hg. destruct Hg as [g0 [<- Hg0]].
    rewrite (proj2 (set_audio_keeps agentId audioUrl g0)) in Hr.
    exact (Hok g0 Hg0 r Hr). }
  rewrite Hheap2.
  apply find_node_Some in Hfind. destruct Hfind as [HTin HTid].
  destruct (clips_or_new_spec T (heap st) (Hok T HTin)) as [Hext0 [Hcur0 Hread0]].
  destruct (clips_or_new T (heap st)) as [cur h0] eqn:Ec. cbn [fst snd] in *.
  destruct (placeholder_fold randomUUID cur old
              (mapi (fun i scene => (i, scene)) (sc0 :: scs)) h0 [] Hcur0)
    as [h1 [Hfold [Hlen1 [Hread1 _]]]].
  { simpl. rewrite app_nil_r. exact Hread0. }
  cbn [length app] in Hfold, Hread1. fold sel in Hfold, Hread1.
  rewrite Hfold.
  set (st3 := setStoryboardsH (copy_clips agentId cur) (with_heap h1 st2)).
  destruct (setStoryboardsH_fields (copy_clips agentId cur) (with_heap h1 st2)) as [Esb3 Eh3].
  fold st3 in Esb3, Eh3. cbn [storyboards heap with_heap] in Esb3, Eh3.
  assert (Hok1 : refs_ok h1 (storyboards st2)).
  { intros g Hg r Hr. specialize (Hok2 g Hg r Hr). destruct Hext0 as [L _]. lia. }
  assert (Hcur1 : (cur < length h1)%nat) by lia.
  destruct (copy_clips_spec agentId cur _ (storyboards st2) h1 Hok1 Hcur1 Hread1)
    as [_ [Hok3 [HP3 Hids3]]].
  rewrite <- Esb3, <- Eh3 in Hok3, HP3. rewrite <- Esb3 in Hids3.
  destruct (generate_loop_spec gen agentId (mapi (fun k item => (k, item)) sel) st3 _ Hok3 HP3)
    as [_ [HP4 Hids4]].
  split.
  - cbn [storyboards setGeneratingAgents]. now rewrite Hids4, Hids3, Hids2.
  - intros g' Hg' E. apply (HP4 g' Hg' E).
Qed.

Lemma generate_loop_error (gen : nat -> string -> string -> Outcome) (agentId : string)
    (entries : list (nat * ToGenerate)) :
  forall st, error (fold_left (generate_step gen agentId) entries st) = error st.
Proof.
  induction entries as [|e es IH]; intros st; [reflexivity|].
  cbn [fold_left]. rewrite IH, generate_step_eq. unfold setStoryboardsH.
  now destruct (update_clips agentId (entry_update gen e) (storyboards st) (heap st)).
Qed.

(** A failed clip does not reach the handler's outer [catch]: no global
    error is set by a batch that found its scenes. *)
Lemma handleGenerateTimeline_error (randomUUID : nat -> string)
    (gen : nat -> string -> string -> Outcome) (agentId : string) (st : AppState)
    (T : StoryboardGroup.t) :
  find_node agentId (storyboards st) = Some T ->
  gathered_scenes (storyboards st) T <> [] ->
  error (handleGenerateTimeline randomUUID gen agentId st) = None.
Proof.
  intros Hfind Hsc. unfold handleGenerateTimeline. rewrite Hfind.
  assert (Eg : match StoryboardGroup.inputs T with
               | Some ins => fold_left (gather_input (storyboards st)) ins ([], None)
               | None => ([], None)
               end =
               fold_left (gather_input (storyboards st))
                         (StoryboardGroup.inputs_or_empty T) ([], None)).
  { unfold StoryboardGroup.inputs_or_empty. now destruct (StoryboardGroup.inputs T). }
  rewrite Eg. clear Eg. unfold gathered_scenes in Hsc.
  destruct (fold_left (gather_input (storyboards st)) (StoryboardGroup.inputs_or_empty T)
              ([], None)) as [mvScenes audioUrl].
  cbn [fst] in Hsc. destruct mvScenes as [|sc0 scs]; [contradiction|].
  cbn [length Nat.eqb].
  destruct (clips_or_new T _) as [cur h0].
  destruct (fold_left (placeholder_step randomUUID cur) _ _) as [[h1 drawn] gens].
  cbn [error setGeneratingAgents]. rewrite generate_loop_error.
  unfold setStoryboardsH.
  destruct (copy_clips agentId cur _ _) as [sb3 h3].
  now destruct (truthy audioUrl).
Qed.

(** C9. Take a batch run by [handleGenerateTimeline] on a timeline that
    found its scenes, with fresh clip identifiers, in which the call for
    the entry at [k0] rejects and every other call resolves.  Then in the
    final state every node carrying the timeline's identifier holds its
    former clips, unchanged, followed by one clip per entry: the one at
    [k0] is its placeholder with status [error] and the label
    ["Error: " ++ (message || "Failed")]; every other one is its
    placeholder with status [done] and the URL its call returned, also
    those queued after [k0]; and no global error is raised. *)
Theorem generation_batch_isolates_failure (randomUUID : nat -> string)
    (gen : nat -> string -> string -> Outcome) (agentId : string) (st : AppState)
    (T : StoryboardGroup.t) (k0 : nat) (failed : ToGenerate) (message : option string) :
  find_node agentId (storyboards st) = Some T ->
  refs_ok (heap st) (storyboards st) ->
  gathered_scenes (storyboards st) T <> [] ->
  let old := clips_of (heap st) T in
  let sel := select randomUUID old 0
               (mapi (fun i scene => (i, scene)) (gathered_scenes (storyboards st) T)) in
  NoDup (map clipId sel) ->
  (forall c, In c old -> ~ In (TimelineClip.id c) (map clipId sel)) ->
  nth_error sel k0 = Some failed ->
  call gen k0 failed = Rejected message ->
  (forall k item, nth_error sel k = Some item -> k <> k0 ->
                  exists url, call gen k item = Resolved url) ->
  let st' := handleGenerateTimeline randomUUID gen agentId st in
  error st' = None /\
  map StoryboardGroup.id (storyboards st') = map StoryboardGroup.id (storyboards st) /\
  forall g', In g' (storyboards st') -> StoryboardGroup.id g' = agentId ->
    exists finals,
      clips_of (heap st') g' = old ++ finals /\
      length finals = length sel /\
      nth_error finals k0 =
        Some (TimelineClip.with_error_prompt ("Error: " ++ or_else message "Failed")%string
                (placeholder_of failed)) /\
      (forall k item, nth_error sel k = Some item -> k <> k0 ->
         exists url, call gen k item = Resolved url /\
           nth_error finals k =
             Some (TimelineClip.with_videoUrl_done url (placeholder_of item))).
Proof.
  intros Hfind Hok Hsc old sel Hnd Hfresh Hk0 Hrej Hres st'.
  destruct (handleGenerateTimeline_clips randomUUID gen agentId st T Hfind Hok Hsc)
    as [Hids Hclips].
  fold old sel st' in Hids, Hclips.
  split; [exact (handleGenerateTimeline_error randomUUID gen agentId st T Hfind Hsc)|].
  split; [exact Hids|].
  intros g' Hg' Eid.
  set (E := mapi (fun k item => (k, item)) sel) in *.
  exists (map (finish gen E) (map placeholder_of sel)).
  assert (Hhit : forall k item, nth_error sel k = Some item ->
            nth_error (map (finish gen E) (map placeholder_of sel)) k =
            Some (entry_update gen (k, item) (placeholder_of item))).
  { intros k item Hk. rewrite !nth_error_map, Hk. simpl. f_equal.
    subst E. unfold mapi.
    now rewrite (finish_hit gen sel 0 k item (placeholder_of item) Hnd Hk eq_refl). }
  split; [|split; [|split]].
  - rewrite (Hclips g' Hg' Eid), map_app. f_equal.
    rewrite <- (map_id old) at 2. apply map_ext_in. intros c Hc.
    apply finish_other. subst E. unfold mapi. rewrite mapi_from_clipIds.
    now apply Hfresh.
  - now rewrite !length_map.
  - rewrite (Hhit k0 failed Hk0). unfold entry_update. cbn [fst snd].
    rewrite Hrej. unfold placeholder_of at 1, placeholderClip. cbn [TimelineClip.id].
    now rewrite String.eqb_refl.
  - intros k item Hk Hne. destruct (Hres k item Hk Hne) as [url Hurl].
    exists url. split; [exact Hurl|].
    rewrite (Hhit k item Hk). unfold entry_update. cbn [fst snd].
    rewrite Hurl. unfold placeholder_of at 1, placeholderClip. cbn [TimelineClip.id].
    now rewrite String.eqb_refl.
Qed.

Lemma generation_batch_isolates_failure_witness :
  exists g' finals,
    nth_error (storyboards Sample.generated) 1 = Some g' /\
    clips_of (heap Sample.generated) g' = finals /\
    length finals = 3%nat /\
    option_map TimelineClip.status (nth_error finals 0) = Some TimelineClip.done /\
    option_map TimelineClip.status (nth_error finals 1) = Some TimelineClip.error /\
    option_map TimelineClip.prompt (nth_error finals 1) = Some "Error: quota exceeded" /\
    option_map TimelineClip.status (nth_error finals 2) = Some TimelineClip.done.
Proof.
  pose (failed := mkToGenerate 1 (Sample.shot "two") "clip-1").
  assert (Hfind : find_node "t-0" (storyboards Sample.storyboard_into_timeline)
                  = Some Sample.timeline_node) by reflexivity.
  assert (Hok : refs_ok (heap Sample.storyboard_into_timeline)
                        (storyboards Sample.storyboard_into_timeline)).
  { intros g [<-|[<-|[]]] r Hr; vm_compute in Hr; [discriminate|].
    injection Hr as <-. vm_compute. lia. }
  assert (Hsc : gathered_scenes (storyboards Sample.storyboard_into_timeline)
                  Sample.timeline_node <> []) by (vm_compute; discriminate).
  assert (Hnd : NoDup (map clipId
            (select (Sample.uuid "clip")
               (clips_of (heap Sample.storyboard_into_timeline) Sample.timeline_node) 0
               (mapi (fun i scene => (i, scene))
                  (gathered_scenes (storyboards Sample.storyboard_into_timeline)
                     Sample.timeline_node))))).
  { vm_compute. repeat constructor; simpl; intuition discriminate. }
  destruct (generation_batch_isolates_failure (Sample.uuid "clip") Sample.second_fails "t-0"
              Sample.storyboard_into_timeline Sample.timeline_node 1 failed
              (Some "quota exceeded") Hfind Hok Hsc Hnd)
    as [_ [_ Hclips]].
  - intros c Hc. vm_compute in Hc. contradiction.
  - reflexivity.
  - reflexivity.
  - intros k item Hk Hne.
    destruct k as [|[|[|k]]].
    + vm_compute in Hk. injection Hk as <-. eexists. reflexivity.
    + exfalso. now apply Hne.
    + vm_compute in Hk. injection Hk as <-. eexists. reflexivity.
    + vm_compute in Hk. destruct k; discriminate Hk.
  - fold Sample.generated in Hclips.
    destruct (nth_error (storyboards Sample.generated) 1) as [g'|] eqn:Hg'; [|discriminate].
    assert (Hid : StoryboardGroup.id g' = "t-0") by (injection Hg' as <-; reflexivity).
    destruct (Hclips g' (nth_error_In _ _ Hg') Hid) as [finals [Hf [Hlen [Herr Hdone]]]].
    exists g', finals. split; [reflexivity|]. split; [exact Hf|].
    split; [exact Hlen|].
    destruct (Hdone 0%nat (mkToGenerate 0 (Sample.shot "one") "clip-0") eq_refl
                ltac:(discriminate)) as [u0 [_ H0]].
    destruct (Hdone 2%nat (mkToGenerate 2 (Sample.shot "three") "clip-2") eq_refl
                ltac:(discriminate)) as [u2 [_ H2]].
    rewrite H0, H2, Herr. repeat split.
Defined.

(** The batch of three with the second call failing, run through the
    handler: statuses and labels of the timeline's clips at the end. *)
Example batch_of_three_second_fails :
  map (fun g => map (fun c => (TimelineClip.status c, TimelineClip.prompt c))
                    (clips_of (heap Sample.generated) g))
      (storyboards Sample.generated) =
  [[];
   [(TimelineClip.done, "shot one");
    (TimelineClip.error, "Error: quota exceeded");
    (TimelineClip.done, "shot three")]] /\
  error Sample.generated = None /\
  generatingAgents Sample.generated = [].
Proof. vm_compute. repeat split. Qed.

(** * Further properties of the graph store *)

(** ** What connecting, disconnecting and deleting do to the edge lists *)

Lemma connect_node_connections (src : option StoryboardGroup.t) (A B x : string)
    (g : StoryboardGroup.t) :
  A <> B ->
  (In x (StoryboardGroup.connections (connect_node src A B g)) <->
   In x (StoryboardGroup.connections g) \/ (StoryboardGroup.id g = A /\ x = B)).
Proof.
  intros HAB. unfold connect_node.
  destruct (String.eqb_spec (StoryboardGroup.id g) B) as [EB|EB].
  - assert (EA : (StoryboardGroup.id g =? A) = false).
    { apply String.eqb_neq. congruence. }
    rewrite EA.
    destruct (music_into_timeline g src);
      [|destruct (negb (includes (StoryboardGroup.inputs_or_empty g) A))]; simpl;
      (split; [now left | intros [H|[H _]]; [assumption | congruence]]).
  - destruct (String.eqb_spec (StoryboardGroup.id g) A) as [EA|EA].
    + destruct (includes (StoryboardGroup.connections g) B) eqn:EI; simpl.
      * apply includes_In in EI. split; [now left|].
        intros [H|[_ ->]]; assumption.
      * rewrite in_app_iff. simpl. split.
        -- intros [H|[H|[]]]; [now left | right; auto].
        -- intros [H|[_ ->]]; [now left | right; now left].
    + split; [now left | intros [H|[H _]]; [assumption | contradiction]].
Qed.

Lemma connect_node_inputs (src : option StoryboardGroup.t) (A B x : string)
    (g : StoryboardGroup.t) :
  A <> B ->
  (In x (StoryboardGroup.inputs_or_empty (connect_node src A B g)) <->
   In x (StoryboardGroup.inputs_or_empty g) \/ (StoryboardGroup.id g = B /\ x = A)).
Proof.
  intros HAB. unfold connect_node.
  destruct (String.eqb_spec (StoryboardGroup.id g) B) as [EB|EB].
  - assert (EA : (StoryboardGroup.id g =? A) = false).
    { apply String.eqb_neq. congruence. }
    rewrite EA.
    assert (Happ : In x (StoryboardGroup.inputs_or_empty g ++ [A]) <->
                   In x (StoryboardGroup.inputs_or_empty g) \/
                   (StoryboardGroup.id g = B /\ x = A)).
    { rewrite in_app_iff. simpl. split.
      - intros [H|[H|[]]]; [now left | right; auto].
      - intros [H|[_ ->]]; [now left | right; now left]. }
    destruct (music_into_timeline g src); [exact Happ|].
    destruct (includes (StoryboardGroup.inputs_or_empty g) A) eqn:EI; simpl.
    + apply includes_In in EI. split; [now left|].
      intros [H|[_ ->]]; assumption.
    + exact Happ.
  - assert (E : StoryboardGroup.inputs_or_empty
                  (if StoryboardGroup.id g =? A
                   then if negb (includes (StoryboardGroup.connections g) B)
                        then StoryboardGroup.with_connections
                               (StoryboardGroup.connections g ++ [B]) g
                        else g
                   else g) = StoryboardGroup.inputs_or_empty g).
    { destruct (StoryboardGroup.id g =? A);
        [destruct (negb (includes (StoryboardGroup.connections g) B))|]; reflexivity. }
    rewrite E. split; [now left | intros [H|[H _]]; [assumption | contradiction]].
Qed.

Lemma In_filter_neq (v x : string) (l : list string) :
  In x (filter (fun e => negb (e =? v)) l) <-> In x l /\ x <> v.
Proof.
  rewrite filter_In. split; intros [H1 H2]; split; try assumption.
  - intros ->. now rewrite String.eqb_refl in H2.
  - apply String.eqb_neq in H2. now rewrite H2.
Qed.

Lemma disconnect_node_id (A B : string) (g : StoryboardGroup.t) :
  StoryboardGroup.id (disconnect_node A B g) = StoryboardGroup.id g.
Proof.
  unfold disconnect_node.
  now destruct (StoryboardGroup.id g =? B), (StoryboardGroup.id g =? A).
Qed.

Lemma disconnect_node_connections (A B x : string) (g : StoryboardGroup.t) :
  A <> B ->
  (In x (StoryboardGroup.connections (disconnect_node A B g)) <->
   In x (StoryboardGroup.connections g) /\ ~ (StoryboardGroup.id g = A /\ x = B)).
Proof.
  intros HAB. unfold disconnect_node.
  destruct (String.eqb_spec (StoryboardGroup.id g) B) as [EB|EB]; simpl.
  - split; [intros H; split; [assumption | intros [E _]; congruence] | now intros [H _]].
  - destruct (String.eqb_spec (StoryboardGroup.id g) A) as [EA|EA]; simpl.
    + rewrite In_filter_neq. split; intros [H1 H2]; split; try assumption.
      * intros [_ E]. contradiction.
      * intros E. apply H2. auto.
    + split; [intros H; split; [assumption | intros [E _]; contradiction] | now intros [H _]].
Qed.

Lemma disconnect_node_inputs (A B x : string) (g : StoryboardGroup.t) :
  (In x (StoryboardGroup.inputs_or_empty (disconnect_node A B g)) <->
   In x (StoryboardGroup.inputs_or_empty g) /\ ~ (StoryboardGroup.id g = B /\ x = A)).
Proof.
  unfold disconnect_node.
  destruct (String.eqb_spec (StoryboardGroup.id g) B) as [EB|EB].
  - unfold StoryboardGroup.inputs_or_empty. simpl.
    destruct (StoryboardGroup.inputs g) as [ins|].
    + rewrite In_filter_neq. split; intros [H1 H2]; split; try assumption.
      * intros [_ E]. contradiction.
      * intros E. apply H2. auto.
    + simpl. tauto.
  - assert (E : StoryboardGroup.inputs_or_empty
                  (if StoryboardGroup.id g =? A
                   then StoryboardGroup.with_connections
                          (filter (fun id => negb (id =? B)) (StoryboardGroup.connections g)) g
                   else g) = StoryboardGroup.inputs_or_empty g).
    { now destruct (StoryboardGroup.id g =? A). }
    rewrite E. split; [intros H; split; [assumption | intros [E' _]; contradiction]
                      | now intros [H _]].
Qed.

Lemma connect_update_ids (src : option StoryboardGroup.t) (A B : string)
    (sb : list StoryboardGroup.t) :
  map StoryboardGroup.id (connect_update src A B sb) = map StoryboardGroup.id sb.
Proof.
  unfold connect_update. rewrite map_map. apply map_ext. intros g. apply connect_node_id.
Qed.

(** X1. [handleConnect] keeps the graph well formed: the node identifiers
    are unchanged; if every edge was recorded on both sides it still is; if
    no node listed itself none does; and when both end points are nodes of
    the graph, every listed identifier still belongs to a node. *)
Theorem handleConnect_keeps_invariants (A B : string) (st : AppState) :
  map StoryboardGroup.id (storyboards (handleConnect A B st)) =
    map StoryboardGroup.id (storyboards st) /\
  (symmetric (storyboards st) -> symmetric (storyboards (handleConnect A B st))) /\
  (no_self_loops (storyboards st) -> no_self_loops (storyboards (handleConnect A B st))) /\
  (In A (map StoryboardGroup.id (storyboards st)) ->
   In B (map StoryboardGroup.id (storyboards st)) ->
   closed (storyboards st) -> closed (storyboards (handleConnect A B st))).
Proof.
  rewrite handleConnect_unfold.
  destruct (String.eqb_spec A B) as [E|HAB];
    [split; [reflexivity | split; [|split]; intros; assumption]|].
  destruct (already_connected (find_node A (storyboards st)) B);
    [split; [reflexivity | split; [|split]; intros; assumption]|].
  rewrite storyboards_guarded.
  set (src := find_node A (storyboards st)).
  split; [apply connect_update_ids|]. unfold connect_update. split; [|split].
  - intros Hsym a' b' Ha' Hb'.
    apply in_map_iff in Ha'. destruct Ha' as [a [<- Ha]].
    apply in_map_iff in Hb'. destruct Hb' as [b [<- Hb]].
    rewrite !connect_node_id.
    rewrite (connect_node_connections src A B _ a HAB).
    rewrite (connect_node_inputs src A B _ b HAB).
    rewrite (Hsym a b Ha Hb). tauto.
  - intros Hno g' Hg'. apply in_map_iff in Hg'. destruct Hg' as [g [<- Hg]].
    rewrite connect_node_id.
    rewrite (connect_node_connections src A B _ g HAB).
    rewrite (connect_node_inputs src A B _ g HAB).
    destruct (Hno g Hg) as [H1 H2].
    split; intros [H|[E1 E2]]; try contradiction; congruence.
  - intros HA HB Hcl g' r Hg' Hr. apply in_map_iff in Hg'. destruct Hg' as [g [<- Hg]].
    fold (connect_update src A B (storyboards st)). rewrite connect_update_ids.
    rewrite (connect_node_connections src A B _ g HAB) in Hr.
    rewrite (connect_node_inputs src A B _ g HAB) in Hr.
    destruct Hr as [[Hr|[_ ->]]|[Hr|[_ ->]]]; try assumption.
    + apply (Hcl g r Hg). now left.
    + apply (Hcl g r Hg). now right.
Qed.

Lemma handleConnect_keeps_invariants_witness :
  symmetric (storyboards Sample.template) /\
  symmetric (storyboards (handleConnect "n-1" "n-0" Sample.template)) /\
  no_self_loops (storyboards (handleConnect "n-1" "n-0" Sample.template)) /\
  closed (storyboards (handleConnect "n-1" "n-0" Sample.template)).
Proof.
  assert (Hsym : symmetric (storyboards Sample.template)).
  { intros a b [<-|[<-|[]]] [<-|[<-|[]]]; simpl; split; intros H;
      repeat (destruct H as [H|H]; try discriminate H); auto. }
  assert (Hno : no_self_loops (storyboards Sample.template)).
  { intros g [<-|[<-|[]]]; simpl; split; intros H;
      repeat (destruct H as [H|H]; try discriminate H); auto. }
  assert (Hcl : closed (storyboards Sample.template)).
  { intros g r [<-|[<-|[]]] [H|H]; simpl in *;
      repeat (destruct H as [H|H]; try contradiction); subst; auto. }
  destruct (handleConnect_keeps_invariants "n-1" "n-0" Sample.template)
    as [_ [H1 [H2 H3]]].
  split; [exact Hsym|]. split; [exact (H1 Hsym)|]. split; [exact (H2 Hno)|].
  apply H3; [simpl; auto | simpl; auto | exact Hcl].
Defined.

(** X2. [handleDisconnect A B] with [A <> B] removes the edge and nothing
    else: node by node, the identifiers are unchanged, a node's connections
    are the former ones without [B] when the node is [A], its inputs the
    former ones without [A] when the node is [B].  Hence two-sided
    recording of edges, absence of self loops and validity of the listed
    identifiers all survive. *)
Theorem handleDisconnect_removes_that_edge_only (A B : string) (st : AppState) :
  A <> B ->
  let sb := storyboards st in
  let sb' := storyboards (handleDisconnect A B st) in
  (forall i g, nth_error sb i = Some g ->
     exists g', nth_error sb' i = Some g' /\
       StoryboardGroup.id g' = StoryboardGroup.id g /\
       forall x,
         (In x (StoryboardGroup.connections g') <->
          In x (StoryboardGroup.connections g) /\ ~ (StoryboardGroup.id g = A /\ x = B)) /\
         (In x (StoryboardGroup.inputs_or_empty g') <->
          In x (StoryboardGroup.inputs_or_empty g) /\ ~ (StoryboardGroup.id g = B /\ x = A))) /\
  (symmetric sb -> symmetric sb') /\
  (no_self_loops sb -> no_self_loops sb') /\
  (closed sb -> closed sb').
Proof.
  intros HAB sb sb'. subst sb sb'. rewrite handleDisconnect_storyboards.
  split; [|split; [|split]].
  - intros i g Hi. exists (disconnect_node A B g).
    split; [rewrite nth_error_map, Hi; reflexivity|].
    split; [apply disconnect_node_id|].
    intros x. split; [now apply disconnect_node_connections | apply disconnect_node_inputs].
  - intros Hsym a' b' Ha' Hb'.
    apply in_map_iff in Ha'. destruct Ha' as [a [<- Ha]].
    apply in_map_iff in Hb'. destruct Hb' as [b [<- Hb]].
    rewrite !disconnect_node_id.
    rewrite (disconnect_node_connections A B _ a HAB), (disconnect_node_inputs A B _ b).
    rewrite (Hsym a b Ha Hb). tauto.
  - intros Hno g' Hg'. apply in_map_iff in Hg'. destruct Hg' as [g [<- Hg]].
    rewrite disconnect_node_id.
    rewrite (disconnect_node_connections A B _ g HAB), (disconnect_node_inputs A B _ g).
    destruct (Hno g Hg). tauto.
  - intros Hcl g' r Hg' Hr. apply in_map_iff in Hg'. destruct Hg' as [g [<- Hg]].
    rewrite map_map.
    rewrite (map_ext _ StoryboardGroup.id (disconnect_node_id A B)).
    rewrite (disconnect_node_connections A B _ g HAB), (disconnect_node_inputs A B _ g) in Hr.
    apply (Hcl g r Hg). tauto.
Qed.

Lemma handleDisconnect_removes_that_edge_only_witness :
  map edges (storyboards Sample.template) = [("n-0", ["n-1"], []); ("n-1", [], ["n-0"])] /\
  exists g0 g1,
    storyboards (handleDisconnect "n-0" "n-1" Sample.template) = [g0; g1] /\
    ~ In "n-1" (StoryboardGroup.connections g0) /\
    ~ In "n-0" (StoryboardGroup.inputs_or_empty g1).
Proof.
  split; [reflexivity|].
  assert (HAB : "n-0" <> "n-1") by discriminate.
  destruct (handleDisconnect_removes_that_edge_only "n-0" "n-1" Sample.template HAB)
    as [Hedge _].
  destruct (Hedge 0%nat _ eq_refl) as [g0 [Hg0 [_ Hx0]]].
  destruct (Hedge 1%nat _ eq_refl) as [g1 [Hg1 [_ Hx1]]].
  exists g0, g1. split.
  - injection Hg0 as <-. injection Hg1 as <-. reflexivity.
  - split; intros H.
    + apply Hx0 in H. destruct H as [_ H]. apply H. split; reflexivity.
    + apply Hx1 in H. destruct H as [_ H]. apply H. split; reflexivity.
Defined.

Lemma handleDeleteNode_ids (X : string) (st : AppState) :
  map StoryboardGroup.id (storyboards (handleDeleteNode X st)) =
  filter (fun i => negb (i =? X)) (map StoryboardGroup.id (storyboards st)).
Proof.
  rewrite handleDeleteNode_storyboards, map_map. simpl.
  induction (storyboards st) as [|a l IH]; simpl; [reflexivity|].
  destruct (StoryboardGroup.id a =? X); simpl; [exact IH | now rewrite IH].
Qed.

(** Each node left by [handleDeleteNode X] comes from a node other than [X]
    and lists what that node listed, [X] apart. *)
Lemma handleDeleteNode_survivor (X : string) (st : AppState) (g' : StoryboardGroup.t) :
  In g' (storyboards (handleDeleteNode X st)) ->
  exists g, In g (storyboards st) /\
    StoryboardGroup.id g' = StoryboardGroup.id g /\ StoryboardGroup.id g <> X /\
    forall x,
      (In x (StoryboardGroup.connections g') <-> In x (StoryboardGroup.connections g) /\ x <> X) /\
      (In x (StoryboardGroup.inputs_or_empty g') <->
       In x (StoryboardGroup.inputs_or_empty g) /\ x <> X).
Proof.
  rewrite handleDeleteNode_storyboards. intros Hg'.
  apply in_map_iff in Hg'. destruct Hg' as [g [<- Hg]].
  apply filter_In in Hg. destruct Hg as [Hg Hne].
  exists g. split; [assumption|]. split; [reflexivity|]. split.
  - intros E. rewrite E, String.eqb_refl in Hne. discriminate.
  - intros x. simpl. split; [apply In_filter_neq|].
    unfold StoryboardGroup.inputs_or_empty. simpl.
    destruct (StoryboardGroup.inputs g); [apply In_filter_neq | simpl; tauto].
Qed.



(** ** Undo after the discrete actions *)

Lemma undo_after_snapshot (st st' : AppState) :
  history st' = history (saveHistory (storyboards st) st) ->
  heap st' = heap st ->
  storyboards (handleUndo st') = storyboards st /\
  heap (handleUndo st') = heap st /\
  (length (history (handleUndo st')) <= length (history st))%nat.
Proof.
  intros Hh Hheap.
  destruct (saveHistory_snoc (storyboards st) st) as [l [Hl Hcase]].
  rewrite <- Hh in Hl. rewrite (handleUndo_snoc st' l (storyboards st) Hl).
  split; [reflexivity|]. split; [exact Hheap|]. simpl.
  destruct Hcase as [->| ->]; [lia|]. destruct (history st); simpl; lia.
Qed.

Lemma step_snapshot (a : Action) (st : AppState) :
  commits a st = true ->
  history (step a st) = history (saveHistory (storyboards st) st) /\
  heap (step a st) = heap st.
Proof.
  destruct a; intros Hc; simpl in *; try (split; reflexivity).
  - unfold handleDeleteItem. destruct (selectedItemId st) as [sel|]; [|split; reflexivity].
    destruct (sel =? itemId); split; reflexivity.
  - unfold handleDuplicateNode.
    destruct (find_node nodeId (storyboards st)); split; reflexivity.
  - rewrite handleConnect_unfold.
    apply andb_true_iff in Hc. destruct Hc as [H1 H2].
    apply negb_true_iff in H1, H2. rewrite H1, H2. split; reflexivity.
  - unfold handlePaste. destruct (clipboard st); [split; reflexivity | discriminate].
Qed.

Lemma step_rejected (a : Action) (st : AppState) :
  commits a st = false -> step a st = st.
Proof.
  destruct a; intros Hc; simpl in *; try discriminate.
  - rewrite handleConnect_unfold.
    destruct (sourceNodeId =? targetNodeId); [reflexivity|].
    destruct (already_connected _ _); [reflexivity | discriminate].
  - unfold handlePaste. destruct (clipboard st); [discriminate | reflexivity].
Qed.

(** X4. Undo right after a discrete action that got past its guards
    (rename, delete node, delete item, duplicate, connect, disconnect,
    paste, create music or video bin) puts the node collection back as it
    was, with every clip array as it was, so the two collections are deeply
    equal; an action stopped by its guard changes nothing at all. *)
Theorem undo_reverts_discrete_action (a : Action) (st : AppState) :
  (commits a st = true ->
     storyboards (handleUndo (step a st)) = storyboards st /\
     deep (heap (handleUndo (step a st))) (storyboards (handleUndo (step a st))) =
       deep (heap st) (storyboards st)) /\
  (commits a st = false -> step a st = st).
Proof.
  split; [|apply step_rejected].
  intros Hc. destruct (step_snapshot a st Hc) as [Hh Hheap].
  destruct (undo_after_snapshot st (step a st) Hh Hheap) as [Hsb [Hhp _]].
  split; [exact Hsb|]. now rewrite Hsb, Hhp.
Qed.

Lemma undo_reverts_discrete_action_witness :
  storyboards (handleUndo (step (DeleteNode "n-1") Sample.template)) =
    storyboards Sample.template /\
  length (storyboards (step (DeleteNode "n-1") Sample.template)) = 1%nat /\
  step (Connect "n-0" "n-1") Sample.template = Sample.template.
Proof.
  split; [|split].
  - apply (proj1 (undo_reverts_discrete_action (DeleteNode "n-1") Sample.template)).
    reflexivity.
  - reflexivity.
  - apply (proj2 (undo_reverts_discrete_action (Connect "n-0" "n-1") Sample.template)).
    reflexivity.
Defined.

Lemma steps_history_capped (l : list Action) :
  forall st, (length (history st) <= 20)%nat -> (length (history (steps l st)) <= 20)%nat.
Proof.
  induction l as [|a l IH]; intros st H; [exact H|].
  unfold steps in *. cbn [fold_left]. apply IH.
  destruct (commits a st) eqn:Hc.
  - rewrite (proj1 (step_snapshot a st Hc)). now apply saveHistory_capped.
  - now rewrite (step_rejected a st Hc).
Qed.

(** X5. Over any session of discrete actions and undos the history stack
    never holds more than 20 snapshots. *)
Theorem history_never_exceeds_20 (session : list (Action + unit)) (st : AppState) :
  (length (history st) <= 20)%nat ->
  (length (history
     (fold_left (fun s e => match e with inl a => step a s | inr _ => handleUndo s end)
                session st)) <= 20)%nat.
Proof.
  revert st. induction session as [|e l IH]; intros st H; [exact H|].
  cbn [fold_left]. apply IH. destruct e as [a|[]].
  - exact (steps_history_capped [a] st H).
  - unfold handleUndo. destruct (length (history st) =? 0)%nat; [exact H|]. simpl.
    destruct (history st) as [|x l'] using rev_ind; [exact H|].
    rewrite removelast_last. rewrite length_app in H. simpl in H. lia.
Qed.

Lemma history_never_exceeds_20_witness :
  (length (history
     (fold_left (fun s e => match e with inl a => step a s | inr _ => handleUndo s end)
        (repeat (inl (Rename "n-0" "Refs")) 25 ++ [inr tt]) Sample.template)) <= 20)%nat /\
  length (history (steps (repeat (Rename "n-0" "Refs") 25) Sample.template)) = 20%nat.
Proof.
  split.
  - apply (history_never_exceeds_20 _ Sample.template). simpl. lia.
  - reflexivity.
Defined.

(** ** Duplicating a node, deleting an item, copy and paste *)

Lemma nth_error_mapi_from {A B : Type} (f : nat -> A -> B) (l : list A) :
  forall k i, nth_error (mapi_from k f l) i = option_map (f (k + i)%nat) (nth_error l i).
Proof.
  induction l as [|a l IH]; intros k i.
  - now destruct i.
  - destruct i as [|i]; simpl.
    + now rewrite Nat.add_0_r.
    + rewrite IH. now rewrite Nat.add_succ_r.
Qed.

Lemma nth_error_mapi {A B : Type} (f : nat -> A -> B) (l : list A) (i : nat) :
  nth_error (mapi f l) i = option_map (f i) (nth_error l i).
Proof. unfold mapi. now rewrite nth_error_mapi_from. Qed.

Lemma length_mapi_from {A B : Type} (f : nat -> A -> B) (l : list A) :
  forall k, length (mapi_from k f l) = length l.
Proof. induction l as [|a l IH]; intros k; simpl; [reflexivity | now rewrite IH]. Qed.

Lemma closed_snoc_detached (sb : list StoryboardGroup.t) (d : StoryboardGroup.t) :
  StoryboardGroup.connections d = [] ->
  StoryboardGroup.inputs_or_empty d = [] ->
  closed sb -> closed (sb ++ [d]).
Proof.
  intros Hc Hi Hcl g r Hg Hr. rewrite map_app, in_app_iff.
  apply in_app_iff in Hg. destruct Hg as [Hg|[<-|[]]].
  - left. exact (Hcl g r Hg Hr).
  - rewrite Hc, Hi in Hr. now destruct Hr.
Qed.

Lemma no_self_loops_snoc_detached (sb : list StoryboardGroup.t) (d : StoryboardGroup.t) :
  StoryboardGroup.connections d = [] ->
  StoryboardGroup.inputs_or_empty d = [] ->
  no_self_loops sb -> no_self_loops (sb ++ [d]).
Proof.
  intros Hc Hi Hn g Hg. apply in_app_iff in Hg. destruct Hg as [Hg|[<-|[]]].
  - exact (Hn g Hg).
  - rewrite Hc, Hi. split; intros [].
Qed.

Lemma symmetric_snoc_detached (sb : list StoryboardGroup.t) (d : StoryboardGroup.t) :
  StoryboardGroup.connections d = [] ->
  StoryboardGroup.inputs_or_empty d = [] ->
  closed sb -> ~ In (StoryboardGroup.id d) (map StoryboardGroup.id sb) ->
  symmetric sb -> symmetric (sb ++ [d]).
Proof.
  intros Hc Hi Hcl Hfresh Hs a b Ha Hb.
  apply in_app_iff in Ha. apply in_app_iff in Hb.
  destruct Ha as [Ha|[<-|[]]]; destruct Hb as [Hb|[<-|[]]].
  - exact (Hs a b Ha Hb).
  - rewrite Hi. split; [|intros []].
    intros H. exfalso. apply Hfresh. exact (Hcl a _ Ha (or_introl H)).
  - rewrite Hc. split; [intros []|].
    intros H. exfalso. apply Hfresh. exact (Hcl b _ Hb (or_intror H)).
  - rewrite Hc, Hi. split; intros [].
Qed.

(** X6. [handleDuplicateNode]: when the node exists, exactly one node is
    appended and the others are left as they were; the new node carries the
    fresh identifier, sits 50 units right and 50 units down of the original,
    keeps its kind and configuration, lists no edge in either direction,
    and holds the original's items in the same order, each with a new
    identifier and time stamp and otherwise unchanged.  An unknown
    identifier leaves the collection as it was.  In both cases one history
    snapshot is taken.  The copy keeps the graph closed and free of self
    loops, and symmetric when the new identifier is not yet in use. *)
Theorem handleDuplicateNode_appends_detached_copy
    (randomUUID : nat -> string) (dateNow : nat -> Z) (nodeId : string) (st : AppState) :
  let st' := handleDuplicateNode randomUUID dateNow nodeId st in
  history st' = history (saveHistory (storyboards st) st) /\
  match find_node nodeId (storyboards st) with
  | None => storyboards st' = storyboards st
  | Some n =>
      exists d,
        storyboards st' = storyboards st ++ [d] /\
        edges d = (randomUUID 0%nat, [], []) /\
        same_position (position d)
          (StoryboardGroup.x n + 50, StoryboardGroup.y n + 50)%Q /\
        StoryboardGroup.type d = StoryboardGroup.type n /\
        StoryboardGroup.config d = StoryboardGroup.config n /\
        StoryboardGroup.title d = (StoryboardGroup.title n ++ " (Copy)")%string /\
        length (StoryboardGroup.items d) = length (StoryboardGroup.items n) /\
        forall i item, nth_error (StoryboardGroup.items n) i = Some item ->
          nth_error (StoryboardGroup.items d) i =
            Some (CanvasItem.with_id_timestamp (randomUUID (S i)) (dateNow i) item)
  end /\
  (closed (storyboards st) -> closed (storyboards st')) /\
  (no_self_loops (storyboards st) -> no_self_loops (storyboards st')) /\
  (closed (storyboards st) ->
   ~ In (randomUUID 0%nat) (map StoryboardGroup.id (storyboards st)) ->
   symmetric (storyboards st) -> symmetric (storyboards st')).
Proof.
  cbv zeta. unfold handleDuplicateNode.
  destruct (find_node nodeId (storyboards st)) as [n|] eqn:E.
  - cbn [storyboards setStoryboards history saveHistory setHistory].
    split; [reflexivity|]. split; [|split; [|split]].
    + eexists. split; [reflexivity|].
      split; [reflexivity|]. split; [split; reflexivity|].
      split; [reflexivity|]. split; [reflexivity|]. split; [reflexivity|].
      cbn [StoryboardGroup.items]. split.
      * unfold mapi. apply length_mapi_from.
      * intros i item Hi. rewrite nth_error_mapi, Hi. reflexivity.
    + now apply closed_snoc_detached.
    + now apply no_self_loops_snoc_detached.
    + intros Hcl Hfresh. now apply symmetric_snoc_detached.
  - split; [reflexivity|]. split; [reflexivity|].
    split; [|split]; intros; assumption.
Qed.

Lemma handleDuplicateNode_appends_detached_copy_witness :
  symmetric (storyboards (handleDuplicateNode (Sample.uuid "d") (Sample.clock 3000) "n-1" Sample.template)) /\
  length (storyboards (handleDuplicateNode (Sample.uuid "d") (Sample.clock 3000) "n-1" Sample.template)) = 3%nat.
Proof.
  split; [|reflexivity].
  apply (proj2 (proj2 (proj2 (proj2
    (handleDuplicateNode_appends_detached_copy (Sample.uuid "d") (Sample.clock 3000) "n-1" Sample.template))))).
  - intros g r Hg Hr. simpl in Hg.
    destruct Hg as [<-|[<-|[]]]; simpl in Hr; destruct Hr as [Hr|Hr];
      simpl in Hr; try destruct Hr as [<-|[]]; try contradiction; simpl; auto.
  - simpl. intros [H|[H|[]]]; discriminate.
  - intros a b Ha Hb. simpl in Ha, Hb.
    destruct Ha as [<-|[<-|[]]]; destruct Hb as [<-|[<-|[]]]; cbv;
      split; intros H; repeat (destruct H as [H|H]); try discriminate;
      try contradiction; auto.
Defined.

(** X7. [handleDeleteItem itemId groupId] takes one history snapshot and
    touches items only: every node keeps its place, identifier, edges,
    title, position and configuration; a node other than [groupId] keeps
    its items; a node [groupId] keeps, in order, the items whose identifier
    is not [itemId].  The item selection is cleared exactly when it was
    [itemId].  When no item of that node has the identifier the collection
    is left as it was. *)
Theorem handleDeleteItem_removes_that_item_only (itemId groupId : string) (st : AppState) :
  let st' := handleDeleteItem itemId groupId st in
  history st' = history (saveHistory (storyboards st) st) /\
  (forall k g, nth_error (storyboards st) k = Some g ->
     exists g', nth_error (storyboards st') k = Some g' /\
       StoryboardGroup.with_items [] g' = StoryboardGroup.with_items [] g /\
       StoryboardGroup.items g' =
         filter (fun i => negb ((StoryboardGroup.id g =? groupId) && (CanvasItem.id i =? itemId)))
                (StoryboardGroup.items g)) /\
  length (storyboards st') = length (storyboards st) /\
  (selectedItemId st = Some itemId -> selectedItemId st' = None) /\
  (selectedItemId st <> Some itemId -> selectedItemId st' = selectedItemId st) /\
  ((forall g item, In g (storyboards st) -> StoryboardGroup.id g = groupId ->
      In item (StoryboardGroup.items g) -> CanvasItem.id item <> itemId) ->
   storyboards st' = storyboards st).
Proof.
  cbv zeta.
  set (f := fun group =>
      if negb (StoryboardGroup.id group =? groupId) then group
      else StoryboardGroup.with_items
             (filter (fun i => negb (CanvasItem.id i =? itemId)) (StoryboardGroup.items group))
             group).
  assert (Hsb : storyboards (handleDeleteItem itemId groupId st) = map f (storyboards st)).
  { unfold handleDeleteItem. destruct (selectedItemId st) as [sel|]; [|reflexivity].
    destruct (sel =? itemId); reflexivity. }
  assert (Hh : history (handleDeleteItem itemId groupId st) =
               history (saveHistory (storyboards st) st)).
  { unfold handleDeleteItem. destruct (selectedItemId st) as [sel|]; [|reflexivity].
    destruct (sel =? itemId); reflexivity. }
  split; [exact Hh|]. split; [|split; [|split; [|split]]].
  - intros k g Hk. exists (f g). rewrite Hsb, nth_error_map, Hk. split; [reflexivity|].
    unfold f. destruct (StoryboardGroup.id g =? groupId); simpl.
    + split; [reflexivity|reflexivity].
    + split; [reflexivity|]. symmetry. apply forallb_filter_id. now apply forallb_forall.
  - now rewrite Hsb, length_map.
  - intros Hsel. unfold handleDeleteItem. rewrite Hsel, String.eqb_refl. reflexivity.
  - intros Hsel. unfold handleDeleteItem.
    destruct (selectedItemId st) as [sel|] eqn:E0; [|exact E0].
    destruct (sel =? itemId) eqn:E; [|exact E0].
    apply String.eqb_eq in E. now subst sel.
  - intros Habs. rewrite Hsb. rewrite <- (map_id (storyboards st)) at 2.
    apply map_ext_in. intros g Hg. unfold f.
    destruct (StoryboardGroup.id g =? groupId) eqn:E; [|reflexivity]. simpl.
    apply String.eqb_eq in E.
    rewrite forallb_filter_id; [now destruct g|].
    apply forallb_forall. intros item Hitem. apply negb_true_iff, String.eqb_neq.
    exact (Habs g item Hg E Hitem).
Qed.

Lemma handleDeleteItem_removes_that_item_only_witness :
  selectedItemId (handleDeleteItem "item-song" "m-0"
                    (setSelectedItemId (Some "item-song") Sample.music_and_timeline)) = None /\
  map StoryboardGroup.items
    (storyboards (handleDeleteItem "item-song" "m-0" Sample.music_and_timeline)) = [[]; []] /\
  storyboards (handleDeleteItem "item-song" "t-0" Sample.music_and_timeline) =
    storyboards Sample.music_and_timeline.
Proof.
  split; [|split].
  - apply (handleDeleteItem_removes_that_item_only "item-song" "m-0"
             (setSelectedItemId (Some "item-song") Sample.music_and_timeline)).
    reflexivity.
  - reflexivity.
  - apply (handleDeleteItem_removes_that_item_only "item-song" "t-0" Sample.music_and_timeline).
    intros g item Hg Hid Hitem. simpl in Hg.
    destruct Hg as [<-|[<-|[]]]; [discriminate Hid | destruct Hitem].
Defined.




Lemma edit_history (e : Edit) (st : AppState) : history (edit e st) = history st.
Proof. destruct e; reflexivity. Qed.

Lemma edits_history (l : list Edit) :
  forall st, history (edits l st) = history st.
Proof.
  induction l as [|e l IH]; intros st; [reflexivity|].
  unfold edits in *. cbn [fold_left]. now rewrite IH, edit_history.
Qed.

(** X9. Resizing a node, replacing a node's data, selecting a node and
    editing a timeline's clips in the player never touch the history stack;
    hence an undo after a discrete action followed by any number of such
    edits puts the node collection back as it was before the action, so the
    edits are lost together with the action. *)
Theorem unguarded_edits_fall_with_last_action (a : Action) (l : list Edit) (st : AppState) :
  history (edits l st) = history st /\
  (commits a st = true ->
   storyboards (handleUndo (edits l (step a st))) = storyboards st).
Proof.
  split; [apply edits_history|].
  intros Hc. destruct (step_snapshot a st Hc) as [Hh _].
  destruct (saveHistory_snoc (storyboards st) st) as [h [Hl _]].
  rewrite <- Hh, <- (edits_history l) in Hl.
  now rewrite (handleUndo_snoc _ h (storyboards st) Hl).
Qed.

Lemma unguarded_edits_fall_with_last_action_witness :
  storyboards (handleUndo (edits [Resize "n-0" 640 480; Select (Some "n-1")]
                 (step (Rename "n-0" "Refs") Sample.template))) =
    storyboards Sample.template /\
  map StoryboardGroup.width
    (storyboards (edits [Resize "n-0" 640 480] Sample.template)) = [Some 640%Q; None].
Proof.
  split; [|reflexivity].
  apply (unguarded_edits_fall_with_last_action (Rename "n-0" "Refs")
           [Resize "n-0" 640 480; Select (Some "n-1")] Sample.template).
  reflexivity.
Defined.

(** ** The active clip of the player *)

(** The span test of [syncVideo] and of the track, as a proposition. *)
Lemma span_test (s t d : Q) :
  Qle_bool s t && negb (Qle_bool (s + d) t) = true <-> (s <= t /\ t < s + d)%Q.
Proof.
  rewrite andb_true_iff, negb_true_iff, Qle_bool_iff.
  split; intros [H1 H2]; split; try assumption.
  - apply Qnot_le_lt. intros H. apply Qle_bool_iff in H. congruence.
  - destruct (Qle_bool (s + d) t) eqn:E; [|reflexivity].
    apply Qle_bool_iff in E. exfalso. exact (Qlt_not_le _ _ H2 E).
Qed.

Lemma span_test_compat (s s' t d : Q) :
  (s == s')%Q ->
  Qle_bool s t && negb (Qle_bool (s + d) t) = Qle_bool s' t && negb (Qle_bool (s' + d) t).
Proof.
  intros E. apply eq_true_iff_eq. rewrite !span_test. now rewrite E.
Qed.

Lemma isActive_spec (t : Q) (clips : list TimelineClip.t) (i : nat) :
  Playback.isActive t clips i = true <->
  exists c, nth_error clips i = Some c /\
    (sum_durations (firstn i clips) <= t /\
     t < sum_durations (firstn i clips) + TimelineClip.duration c)%Q.
Proof.
  unfold Playback.isActive. destruct (nth_error clips i) as [c|] eqn:E.
  - assert (Hi : (i <= length clips)%nat).
    { apply Nat.lt_le_incl. apply nth_error_Some. congruence. }
    rewrite (span_test_compat _ _ t _ (startTime_prefix_sum clips i Hi)), span_test.
    split.
    + intros H. exists c. now split.
    + intros [c' [Hc' H]]. injection Hc' as <-. exact H.
  - split; [discriminate|]. intros [c [Hc _]]. discriminate.
Qed.

Lemma scan_spec (t : Q) (clips : list TimelineClip.t) :
  forall acc,
  match Playback.scan acc t clips with
  | Some (c, s) =>
      exists i, nth_error clips i = Some c /\
        (s == acc + sum_durations (firstn i clips))%Q /\
        (s <= t /\ t < s + TimelineClip.duration c)%Q /\
        forall j cj, (j < i)%nat -> nth_error clips j = Some cj ->
          ~ (acc + sum_durations (firstn j clips) <= t /\
             t < acc + sum_durations (firstn j clips) + TimelineClip.duration cj)%Q
  | None =>
      forall j cj, nth_error clips j = Some cj ->
        ~ (acc + sum_durations (firstn j clips) <= t /\
           t < acc + sum_durations (firstn j clips) + TimelineClip.duration cj)%Q
  end.
Proof.
  induction clips as [|c clips IH]; intros acc.
  - simpl. intros j cj H. destruct j; discriminate.
  - cbn [Playback.scan].
    destruct (Qle_bool acc t && negb (Qle_bool (acc + TimelineClip.duration c) t)) eqn:E.
    + apply span_test in E. exists 0%nat. split; [reflexivity|].
      split; [simpl; ring|]. split; [exact E|]. intros j cj Hj. lia.
    + assert (Hnot : ~ (acc <= t /\ t < acc + TimelineClip.duration c)%Q).
      { intros H. apply span_test in H. congruence. }
      specialize (IH (acc + TimelineClip.duration c)%Q).
      destruct (Playback.scan (acc + TimelineClip.duration c) t clips) as [[c' s]|].
      * destruct IH as [i [Hi [Hs [Hspan Hbefore]]]].
        exists (S i). split; [exact Hi|]. split; [|split; [exact Hspan|]].
        -- rewrite Hs. simpl. ring.
        -- intros j cj Hj Hcj. destruct j as [|j].
           ++ simpl in Hcj. injection Hcj as <-. simpl.
              intros [H1 H2]. apply Hnot. split.
              ** now rewrite Qplus_0_r in H1.
              ** now rewrite Qplus_0_r in H2.
           ++ simpl in Hcj. intros [H1 H2]. apply (Hbefore j cj ltac:(lia) Hcj).
              simpl in H1, H2. split.
              ** now rewrite <- Qplus_assoc.
              ** now rewrite <- (Qplus_assoc acc).
      * intros j cj Hcj. destruct j as [|j].
        -- simpl in Hcj. injection Hcj as <-. simpl.
           intros [H1 H2]. apply Hnot. split.
           ** now rewrite Qplus_0_r in H1.
           ** now rewrite Qplus_0_r in H2.
        -- simpl in Hcj. intros [H1 H2]. apply (IH j cj Hcj).
           simpl in H1, H2. split.
           ** now rewrite <- Qplus_assoc.
           ** now rewrite <- (Qplus_assoc acc).
Qed.

(** X10. The clip the player shows at a time is the first clip the track
    highlights at that time, and the offset used for the time within the
    clip is that clip's start on the track; the player shows no clip
    exactly when the track highlights none. *)
Theorem activeClip_is_first_highlighted (time : Q) (clips : list TimelineClip.t) :
  match Playback.activeClip time clips with
  | Some (clip, clipStartTime) =>
      exists i, nth_error clips i = Some clip /\
        (clipStartTime == TimelinePlayer.startTime clips i)%Q /\
        Playback.isActive time clips i = true /\
        forall j, (j < i)%nat -> Playback.isActive time clips j = false
  | None => forall i, Playback.isActive time clips i = false
  end.
Proof.
  unfold Playback.activeClip. pose proof (scan_spec time clips 0%Q) as H.
  destruct (Playback.scan 0 time clips) as [[c s]|].
  - destruct H as [i [Hi [Hs [Hspan Hbefore]]]]. exists i.
    assert (Hle : (i <= length clips)%nat).
    { apply Nat.lt_le_incl. apply nth_error_Some. congruence. }
    split; [exact Hi|]. split; [|split].
    + rewrite Hs, (startTime_prefix_sum clips i Hle). ring.
    + apply isActive_spec. exists c. split; [exact Hi|].
      rewrite Qplus_0_l in Hs. now rewrite <- Hs.
    + intros j Hj. destruct (Playback.isActive time clips j) eqn:E; [|reflexivity].
      apply isActive_spec in E. destruct E as [cj [Hcj Hsp]].
      exfalso. apply (Hbefore j cj Hj Hcj). now rewrite Qplus_0_l.
  - intros i. destruct (Playback.isActive time clips i) eqn:E; [|reflexivity].
    apply isActive_spec in E. destruct E as [ci [Hci Hsp]].
    exfalso. apply (H i ci Hci). now rewrite Qplus_0_l.
Qed.

Lemma In_firstn_In {A : Type} (x : A) (l : list A) :
  forall n, In x (firstn n l) -> In x l.
Proof.
  induction l as [|a l IH]; intros [|n] H; simpl in H; try contradiction.
  destruct H as [H|H]; [now left | right; exact (IH n H)].
Qed.

Lemma sum_durations_nonneg (clips : list TimelineClip.t) :
  (forall c, In c clips -> (0 <= TimelineClip.duration c)%Q) ->
  (0 <= sum_durations clips)%Q.
Proof.
  induction clips as [|c clips IH]; intros H; simpl.
  - apply Qle_refl.
  - apply (Qplus_le_compat 0 _ 0 _); [apply H; now left | apply IH; intros; apply H; now right].
Qed.

Lemma prefix_sum_mono (clips : list TimelineClip.t) :
  (forall c, In c clips -> (0 <= TimelineClip.duration c)%Q) ->
  forall i j c, (i < j)%nat -> nth_error clips i = Some c ->
  (sum_durations (firstn i clips) + TimelineClip.duration c
   <= sum_durations (firstn j clips))%Q.
Proof.
  induction clips as [|a clips IH]; intros H i j c Hij Hc.
  - destruct i; discriminate.
  - destruct j as [|j]; [lia|]. destruct i as [|i]; simpl in Hc |- *.
    + injection Hc as <-. rewrite Qplus_0_l.
      rewrite <- (Qplus_0_r (TimelineClip.duration a)) at 1.
      apply Qplus_le_r. apply sum_durations_nonneg.
      intros c Hin. apply H. right. exact (In_firstn_In c _ _ Hin).
    + rewrite <- Qplus_assoc. apply Qplus_le_r.
      apply IH; [intros; apply H; now right | lia | exact Hc].
Qed.

Lemma prefix_sum_le_total (clips : list TimelineClip.t) :
  (forall c, In c clips -> (0 <= TimelineClip.duration c)%Q) ->
  forall i c, nth_error clips i = Some c ->
  (sum_durations (firstn i clips) + TimelineClip.duration c <= sum_durations clips)%Q.
Proof.
  intros H i c Hc.
  rewrite <- (firstn_all clips) at 2.
  destruct (Nat.eq_dec (S i) (length clips)) as [E|E].
  - rewrite <- E, (firstn_S_snoc clips i c Hc), sum_durations_app. simpl.
    rewrite Qplus_0_r. apply Qle_refl.
  - apply prefix_sum_mono; [exact H| |exact Hc].
    assert (i < length clips)%nat by (apply nth_error_Some; congruence). lia.
Qed.

Lemma scan_covers (t : Q) (clips : list TimelineClip.t) :
  forall acc, (acc <= t)%Q -> (t < acc + sum_durations clips)%Q ->
  Playback.scan acc t clips <> None.
Proof.
  induction clips as [|c clips IH]; intros acc H1 H2.
  - simpl in H2. rewrite Qplus_0_r in H2. exfalso. exact (Qlt_not_le _ _ H2 H1).
  - cbn [Playback.scan].
    destruct (Qle_bool acc t && negb (Qle_bool (acc + TimelineClip.duration c) t)) eqn:E;
      [discriminate|].
    apply IH.
    + destruct (Qlt_le_dec t (acc + TimelineClip.duration c)) as [Hlt|Hle]; [|exact Hle].
      exfalso. assert (Hs : Qle_bool acc t && negb (Qle_bool (acc + TimelineClip.duration c) t) = true)
        by (apply span_test; now split).
      congruence.
    + simpl in H2. now rewrite <- Qplus_assoc.
Qed.

(** X11. With no negative clip duration the spans of the clips tile the
    track: the player shows a clip exactly at the times from 0 up to, and
    not including, the sum of the durations, and the track never
    highlights two clips at once. *)
Theorem clip_spans_tile_the_track (time : Q) (clips : list TimelineClip.t) :
  (forall c, In c clips -> (0 <= TimelineClip.duration c)%Q) ->
  (Playback.activeClip time clips <> None <->
   (0 <= time /\ time < sum_durations clips)%Q) /\
  (forall i j, Playback.isActive time clips i = true ->
     Playback.isActive time clips j = true -> i = j).
Proof.
  intros Hpos. split; [split|].
  - intros Hsome. pose proof (activeClip_spec_aux := scan_spec time clips 0%Q).
    unfold Playback.activeClip in Hsome.
    destruct (Playback.scan 0 time clips) as [[c s]|]; [|congruence].
    destruct activeClip_spec_aux as [i [Hi [Hs [[H1 H2] _]]]].
    rewrite Qplus_0_l in Hs. rewrite Hs in H1, H2. split.
    + eapply Qle_trans; [|exact H1]. apply sum_durations_nonneg.
      intros c' Hin. apply Hpos. exact (In_firstn_In c' _ _ Hin).
    + eapply Qlt_le_trans; [exact H2|]. now apply prefix_sum_le_total.
  - intros [H1 H2]. unfold Playback.activeClip. apply scan_covers; [exact H1|].
    now rewrite Qplus_0_l.
  - intros i j Hi Hj. apply isActive_spec in Hi, Hj.
    destruct Hi as [ci [Hci [Hi1 Hi2]]]. destruct Hj as [cj [Hcj [Hj1 Hj2]]].
    destruct (Nat.lt_trichotomy i j) as [Hlt|[Heq|Hgt]]; [|exact Heq|]; exfalso.
    + pose proof (prefix_sum_mono clips Hpos i j ci Hlt Hci) as Hm.
      apply (Qlt_irrefl time). eapply Qlt_le_trans; [exact Hi2|].
      eapply Qle_trans; [exact Hm | exact Hj1].
    + pose proof (prefix_sum_mono clips Hpos j i cj Hgt Hcj) as Hm.
      apply (Qlt_irrefl time). eapply Qlt_le_trans; [exact Hj2|].
      eapply Qle_trans; [exact Hm | exact Hi1].
Qed.

Lemma clip_spans_tile_the_track_witness :
  Playback.activeClip 5 Sample.three_clips <> None /\
  Playback.activeClip 12 Sample.three_clips = None /\
  option_map snd (Playback.activeClip 5 Sample.three_clips) = Some (0 + 4)%Q.
Proof.
  split; [|split; reflexivity].
  apply (proj1 (clip_spans_tile_the_track 5 Sample.three_clips
    ltac:(intros c Hc; simpl in Hc; destruct Hc as [<-|[<-|[<-|[]]]]; discriminate))).
  split; [discriminate | reflexivity].
Defined.

(** ** Reordering clips by drag and drop *)

Lemma split_at_nth {A : Type} (l : list A) (k : nat) (x : A) :
  nth_error l k = Some x -> l = firstn k l ++ x :: skipn (S k) l.
Proof.
  revert k. induction l as [|a l IH]; intros [|k] H; simpl in H; try discriminate.
  - now injection H as ->.
  - simpl. f_equal. exact (IH k H).
Qed.

Lemma sum_durations_perm (l1 l2 : list TimelineClip.t) :
  Permutation l1 l2 -> (sum_durations l1 == sum_durations l2)%Q.
Proof.
  induction 1 as [|x l l' _ IH|x y l|l l' l'' _ IH1 _ IH2]; simpl.
  - reflexivity.
  - now rewrite IH.
  - ring.
  - now rewrite IH1.
Qed.

Lemma totalDuration_max (clips : list TimelineClip.t) (audioDuration : Q) :
  (TimelinePlayer.totalDuration clips audioDuration
   == Qmax (Qmax (sum_durations clips) audioDuration) 60)%Q.
Proof.
  unfold TimelinePlayer.totalDuration, Math_max. simpl. now rewrite clipsDur_sum.
Qed.

Lemma length_without {A : Type} (l : list A) (k : nat) :
  (k < length l)%nat -> S (length (without k l)) = length l.
Proof.
  intros H. unfold without. rewrite length_app, length_firstn, length_skipn. lia.
Qed.

(** X12. Dropping the dragged clip [d] on another clip [i] moves that one
    clip to index [i]: the new list is a reordering of the old one, the
    other clips keep their relative order, and the sum of the durations,
    hence the total duration, is unchanged.  A drop with no drag in
    progress, or on the dragged clip itself, does not update the clips. *)
Theorem onDrop_moves_one_clip (d i : nat) (clips : list TimelineClip.t) :
  Playback.onDrop None i clips = None /\
  Playback.onDrop (Some i) i clips = None /\
  ((d < length clips)%nat -> (i < length clips)%nat -> d <> i ->
   exists newClips,
     Playback.onDrop (Some d) i clips = Some (map Some newClips) /\
     Permutation clips newClips /\
     nth_error newClips i = nth_error clips d /\
     without i newClips = without d clips /\
     (sum_durations newClips == sum_durations clips)%Q /\
     forall audioDuration,
       (TimelinePlayer.totalDuration newClips audioDuration
        == TimelinePlayer.totalDuration clips audioDuration)%Q).
Proof.
  split; [reflexivity|]. split.
  { unfold Playback.onDrop. now rewrite Nat.eqb_refl. }
  intros Hd Hi Hne.
  destruct (nth_error clips d) as [x|] eqn:Ex;
    [|apply nth_error_None in Ex; lia].
  set (w := without d clips).
  assert (Hw : S (length w) = length clips) by now apply length_without.
  assert (Hlen : length (firstn i w) = i) by (rewrite length_firstn; lia).
  exists (firstn i w ++ x :: skipn i w).
  assert (Hperm : Permutation clips (firstn i w ++ x :: skipn i w)).
  { rewrite (split_at_nth clips d x Ex) at 1.
    transitivity (x :: w).
    - symmetry. apply Permutation_middle.
    - rewrite <- (firstn_skipn i w) at 1. apply Permutation_middle. }
  split; [|split; [exact Hperm|split; [|split; [|split]]]].
  - unfold Playback.onDrop. apply Nat.eqb_neq in Hne. rewrite Hne.
    cbn [negb]. unfold Playback.splice_out, Playback.splice_in.
    rewrite nth_error_map, Ex. cbn [option_map].
    rewrite firstn_map, skipn_map, <- map_app. fold (without d clips). fold w.
    now rewrite firstn_map, skipn_map, map_app.
  - rewrite nth_error_app2 by lia. rewrite Hlen, Nat.sub_diag. reflexivity.
  - unfold without at 1.
    rewrite firstn_app, skipn_app, Hlen, Nat.sub_diag, firstn_firstn, Nat.min_id.
    replace (S i - i)%nat with 1%nat by lia.
    rewrite (skipn_all2 (firstn i w)) by lia. simpl.
    rewrite app_nil_r. apply firstn_skipn.
  - symmetry. now apply sum_durations_perm.
  - intros a. rewrite !totalDuration_max.
    now rewrite (sum_durations_perm _ _ Hperm).
Qed.

Lemma onDrop_moves_one_clip_witness :
  Playback.onDrop (Some 0%nat) 2 Sample.three_clips =
    Some (map Some [Sample.clip "b"; Sample.clip "c"; Sample.clip "a"]) /\
  exists newClips,
    Playback.onDrop (Some 2%nat) 0 Sample.three_clips = Some (map Some newClips) /\
    (sum_durations newClips == sum_durations Sample.three_clips)%Q.
Proof.
  split; [reflexivity|].
  destruct (onDrop_moves_one_clip 2 0 Sample.three_clips) as [_ [_ H]].
  destruct H as [r [H1 [_ [_ [_ [H2 _]]]]]]; [simpl; lia | simpl; lia | discriminate |].
  exists r. split; assumption.
Defined.

(** ** The playhead *)

Lemma totalDuration_ge_60 (clips : list TimelineClip.t) (audioDuration : Q) :
  (60 <= TimelinePlayer.totalDuration clips audioDuration)%Q.
Proof. rewrite totalDuration_max. apply Q.le_max_r. Qed.

Lemma seekTime_max_min (T pps x : Q) :
  Playback.seekTime T pps x = Qmax 0 (Qmin T (x / pps)).
Proof. reflexivity. Qed.

Lemma frame_delta_nonneg (now last : Q) : (last <= now)%Q -> (0 <= (now - last) / 1000)%Q.
Proof.
  intros H. apply Qle_shift_div_l; [reflexivity|].
  rewrite Qmult_0_l. unfold Qminus. rewrite <- (Qplus_opp_r last).
  apply Qplus_le_l. exact H.
Qed.

(** X13. The playhead stays on the timeline.  A click on the ruler seeks
    to a time between 0 and the total duration, and to the clicked time
    itself when that lies in the range.  One frame of the playback loop
    leaves a paused player's time alone; keeps playing only with a time
    strictly before the total duration; keeps a time between 0 and the
    total duration in that range, as long as the frame clock does not run
    backwards and the audio position is not negative; and, when the clock
    that drives it reaches the total duration, stops, rewinds to 0 and
    pauses and rewinds the audio. *)
Theorem playhead_stays_on_the_timeline
    (clips : list TimelineClip.t) (audioDuration pixelsPerSecond clickX now : Q)
    (p : Playback.Player) :
  let T := TimelinePlayer.totalDuration clips audioDuration in
  let p' := Playback.animate T now p in
  ((0 < pixelsPerSecond)%Q ->
     (0 <= Playback.seekTime T pixelsPerSecond clickX <= T)%Q /\
     ((0 <= clickX / pixelsPerSecond <= T)%Q ->
      (Playback.seekTime T pixelsPerSecond clickX == clickX / pixelsPerSecond)%Q)) /\
  (Playback.isPlaying p = false ->
     Playback.isPlaying p' = false /\ Playback.currentTime p' = Playback.currentTime p) /\
  (Playback.isPlaying p' = true ->
     Playback.isPlaying p = true /\ (Playback.currentTime p' < T)%Q) /\
  ((0 <= Playback.currentTime p <= T)%Q ->
   (Playback.lastFrameTime p <= now)%Q ->
   (forall a, Playback.audio p = Some a -> (0 <= Playback.audioTime a)%Q) ->
   (0 <= Playback.currentTime p' <= T)%Q) /\
  (Playback.isPlaying p = true ->
   (forall a, Playback.audio p = Some a ->
      Playback.paused a = false -> Playback.ended a = false /\ (T <= Playback.audioTime a)%Q) ->
   ((Playback.audio p = None \/ exists a, Playback.audio p = Some a /\ Playback.paused a = true) ->
    (T <= Playback.currentTime p +
          (now - (if Qeq_bool (Playback.lastFrameTime p) 0 then now
                  else Playback.lastFrameTime p)) / 1000)%Q) ->
   Playback.isPlaying p' = false /\ Playback.currentTime p' = 0%Q /\
   forall a', Playback.audio p' = Some a' ->
     Playback.paused a' = true /\ Playback.audioTime a' = 0%Q).
Proof.
  cbv zeta.
  set (T := TimelinePlayer.totalDuration clips audioDuration).
  assert (HT : (0 <= T)%Q).
  { apply Qle_trans with 60%Q; [discriminate | apply totalDuration_ge_60]. }
  split; [|split; [|split; [|split]]].
  - intros _. rewrite seekTime_max_min. split; [split|].
    + apply Q.le_max_l.
    + apply Q.max_lub; [exact HT | apply Q.le_min_l].
    + intros [H1 H2]. rewrite (Q.min_r _ _ H2). now apply Q.max_r.
  - intros Hp. unfold Playback.animate. rewrite Hp. split; reflexivity.
  - unfold Playback.animate. destruct (Playback.isPlaying p); [|discriminate].
    intros H. split; [reflexivity|].
    destruct (Playback.audio p) as [a|].
    + destruct (Playback.paused a); cbn [negb] in *.
      * destruct (Qle_bool T _) eqn:E; [discriminate H|]. cbn [Playback.currentTime].
        apply Qnot_le_lt. intros Hle. apply Qle_bool_iff in Hle. congruence.
      * destruct (Playback.ended a); [discriminate H|].
        destruct (Qle_bool T _) eqn:E; [discriminate H|]. cbn [Playback.currentTime].
        apply Qnot_le_lt. intros Hle. apply Qle_bool_iff in Hle. congruence.
    + destruct (Qle_bool T _) eqn:E; [discriminate H|]. cbn [Playback.currentTime].
      apply Qnot_le_lt. intros Hle. apply Qle_bool_iff in Hle. congruence.
  - intros Hcur Hclock Haudio. unfold Playback.animate.
    destruct (Playback.isPlaying p); [|exact Hcur].
    assert (Hdt : (0 <= (now - (if Qeq_bool (Playback.lastFrameTime p) 0 then now
                                else Playback.lastFrameTime p)) / 1000)%Q).
    { apply frame_delta_nonneg. destruct (Qeq_bool _ 0); [apply Qle_refl | exact Hclock]. }
    assert (Hfin : forall nextTime pa (q := if Qle_bool T nextTime
                                then Playback.mkPlayer false 0 now pa
                                else Playback.mkPlayer true nextTime now (Playback.audio p)),
               (0 <= nextTime)%Q -> (0 <= Playback.currentTime q <= T)%Q).
    { intros nextTime pa q Hn. subst q. destruct (Qle_bool T nextTime) eqn:E.
      - cbn [Playback.currentTime]. split; [apply Qle_refl | exact HT].
      - cbn [Playback.currentTime]. split; [exact Hn|].
        apply Qlt_le_weak, Qnot_le_lt. intros Hle. apply Qle_bool_iff in Hle. congruence. }
    assert (Hnext : (0 <= Playback.currentTime p +
               (now - (if Qeq_bool (Playback.lastFrameTime p) 0 then now
                       else Playback.lastFrameTime p)) / 1000)%Q).
    { apply (Qplus_le_compat 0 _ 0 _); [apply Hcur | exact Hdt]. }
    destruct (Playback.audio p) as [a|] eqn:Ea.
    + destruct (Playback.paused a); cbn [negb].
      * apply Hfin. exact Hnext.
      * destruct (Playback.ended a); [exact Hcur|].
        apply Hfin. now apply Haudio.
    + apply Hfin. exact Hnext.
  - intros Hp Hdrive Hsys. unfold Playback.animate. rewrite Hp.
    destruct (Playback.audio p) as [a|] eqn:Ea.
    + destruct (Playback.paused a) eqn:Epa; cbn [negb].
      * assert (Hle : Qle_bool T (Playback.currentTime p +
               (now - (if Qeq_bool (Playback.lastFrameTime p) 0 then now
                       else Playback.lastFrameTime p)) / 1000) = true).
        { apply Qle_bool_iff. apply Hsys. right. exists a. now split. }
        rewrite Hle. split; [reflexivity|]. split; [reflexivity|].
        intros a' Ha'. cbn in Ha'. injection Ha' as <-. split; reflexivity.
      * destruct (Hdrive a eq_refl Epa) as [He Ht]. rewrite He.
        apply Qle_bool_iff in Ht. rewrite Ht. split; [reflexivity|]. split; [reflexivity|].
        intros a' Ha'. cbn in Ha'. injection Ha' as <-. split; reflexivity.
    + assert (Hle : Qle_bool T (Playback.currentTime p +
               (now - (if Qeq_bool (Playback.lastFrameTime p) 0 then now
                       else Playback.lastFrameTime p)) / 1000) = true).
      { apply Qle_bool_iff. apply Hsys. now left. }
      rewrite Hle. split; [reflexivity|]. split; [reflexivity|].
      intros a' Ha'. discriminate Ha'.
Qed.

Lemma playhead_stays_on_the_timeline_witness :
  (0 <= Playback.seekTime (TimelinePlayer.totalDuration Sample.three_clips 0) 40 (-80) <=
   TimelinePlayer.totalDuration Sample.three_clips 0)%Q /\
  (0 <= Playback.currentTime
          (Playback.animate (TimelinePlayer.totalDuration Sample.three_clips 0) 2000
             (Playback.mkPlayer true 59 1000 None)) <=
   TimelinePlayer.totalDuration Sample.three_clips 0)%Q /\
  Playback.isPlaying
    (Playback.animate (TimelinePlayer.totalDuration Sample.three_clips 0) 2000
       (Playback.mkPlayer true 59 1000 None)) = false.
Proof.
  pose proof (playhead_stays_on_the_timeline Sample.three_clips 0 40 (-80) 2000
                (Playback.mkPlayer true 59 1000 None)) as H.
  cbv zeta in H. destruct H as [Hseek [_ [_ [Hrange Hend]]]].
  split; [|split].
  - apply Hseek. reflexivity.
  - apply Hrange.
    + split; [discriminate|]. vm_compute. discriminate.
    + vm_compute. discriminate.
    + intros a Ha. discriminate Ha.
  - apply Hend.
    + reflexivity.
    + intros a Ha. discriminate Ha.
    + intros _. vm_compute. discriminate.
Defined.

(** ** Resizing a clip, continued *)

Lemma newDuration_max (rs : TimelinePlayer.ResizingState) (pps x : Q) :
  TimelinePlayer.newDuration rs pps x =
  Qmax (1 # 2) (TimelinePlayer.startDuration rs + (x - TimelinePlayer.startX rs) / pps).
Proof. reflexivity. Qed.

Lemma with_duration_twice (d1 d2 : Q) (c : TimelineClip.t) :
  TimelineClip.with_duration d2 (TimelineClip.with_duration d1 c) =
  TimelineClip.with_duration d2 c.
Proof. reflexivity. Qed.

(** X14. A resize drag is absolute and floored.  The duration given to the
    resized clip is never below half a second, does not shrink when the
    pointer moves right, and is the duration the clip had at mouse down
    when the pointer is back where it was pressed (if that was at least
    half a second).  Each mouse move overrides the one before it: two
    moves in a row leave the clip list that the second move alone gives. *)
Theorem resize_is_floored_and_absolute
    (rs : TimelinePlayer.ResizingState) (pixelsPerSecond x1 x2 : Q)
    (clips : list TimelineClip.t) :
  (0 < pixelsPerSecond)%Q ->
  ((1 # 2) <= TimelinePlayer.newDuration rs pixelsPerSecond x1)%Q /\
  ((x1 <= x2)%Q ->
   (TimelinePlayer.newDuration rs pixelsPerSecond x1
    <= TimelinePlayer.newDuration rs pixelsPerSecond x2)%Q) /\
  (((1 # 2) <= TimelinePlayer.startDuration rs)%Q ->
   (TimelinePlayer.newDuration rs pixelsPerSecond (TimelinePlayer.startX rs)
    == TimelinePlayer.startDuration rs)%Q) /\
  (forall clips1,
     TimelinePlayer.handleMouseMove (Some rs) pixelsPerSecond x1 clips = Some clips1 ->
     TimelinePlayer.handleMouseMove (Some rs) pixelsPerSecond x2 clips1 =
     TimelinePlayer.handleMouseMove (Some rs) pixelsPerSecond x2 clips) /\
  (forall clips1 c,
     TimelinePlayer.handleMouseMove (Some rs) pixelsPerSecond x1 clips = Some clips1 ->
     In c clips1 -> TimelineClip.id c = TimelinePlayer.id rs ->
     ((1 # 2) <= TimelineClip.duration c)%Q).
Proof.
  intros Hpps. rewrite !newDuration_max.
  split; [apply Q.le_max_l|]. split; [|split; [|split]].
  - intros Hx. apply Q.max_le_compat_l. apply Qplus_le_r.
    unfold Qdiv. apply Qmult_le_compat_r.
    + apply Qplus_le_l. exact Hx.
    + apply Qlt_le_weak, Qinv_lt_0_compat. exact Hpps.
  - intros Hd. rewrite Q.max_r.
    + unfold Qminus. rewrite Qplus_opp_r. unfold Qdiv. rewrite Qmult_0_l. apply Qplus_0_r.
    + unfold Qminus. rewrite Qplus_opp_r. unfold Qdiv. rewrite Qmult_0_l, Qplus_0_r.
      exact Hd.
  - intros clips1 H. injection H as <-. unfold TimelinePlayer.handleMouseMove.
    f_equal. rewrite map_map. apply map_ext. intros c.
    destruct (TimelineClip.id c =? TimelinePlayer.id rs) eqn:E.
    + replace (TimelineClip.id (TimelineClip.with_duration _ c)) with (TimelineClip.id c)
        by reflexivity.
      rewrite E. reflexivity.
    + now rewrite E.
  - intros clips1 c H Hin Hid. injection H as <-.
    apply in_map_iff in Hin. destruct Hin as [c0 [Hc0 _]].
    destruct (TimelineClip.id c0 =? TimelinePlayer.id rs) eqn:E.
    + subst c. cbn [TimelineClip.duration TimelineClip.with_duration].
      rewrite newDuration_max. apply Q.le_max_l.
    + subst c. apply String.eqb_neq in E. contradiction.
Qed.

Lemma resize_is_floored_and_absolute_witness :
  (TimelinePlayer.newDuration (TimelinePlayer.onMouseDown (Sample.clip "a") 100) 40 100 == 4)%Q /\
  (TimelinePlayer.newDuration (TimelinePlayer.onMouseDown (Sample.clip "a") 100) 40 (-900)
   == 1 # 2)%Q.
Proof.
  split; [|reflexivity].
  apply (resize_is_floored_and_absolute (TimelinePlayer.onMouseDown (Sample.clip "a") 100)
           40 0 0 Sample.three_clips).
  - reflexivity.
  - discriminate.
Defined.

(** ** The time code *)








(** ** Importing videos into a timeline *)

Lemma some_videoUrl (u : string) (clips : list TimelineClip.t) :
  existsb (fun c => TimelineClip.videoUrl c =? u) clips = true <->
  In u (map TimelineClip.videoUrl clips).
Proof.
  rewrite existsb_exists, in_map_iff. split.
  - intros [c [Hc E]]. apply String.eqb_eq in E. now exists c.
  - intros [c [E Hc]]. exists c. split; [exact Hc | now apply String.eqb_eq].
Qed.

Lemma import_inputs_flat (u : nat -> string) (now : nat -> Z)
    (sb : list StoryboardGroup.t) (l : Loc) (ins : list string) :
  forall acc,
    fold_left (import_input u now sb l) ins acc =
    fold_left (import_item u now l)
      (flat_map (fun inputId =>
                   match find_node inputId sb with
                   | Some inputNode =>
                       if StoryboardType_beq (StoryboardGroup.type inputNode) video
                       then StoryboardGroup.items inputNode else []
                   | None => []
                   end) ins) acc.
Proof.
  induction ins as [|i ins IH]; intros acc; [reflexivity|].
  cbn [fold_left flat_map]. rewrite fold_left_app, IH. f_equal.
  unfold import_input. destruct (find_node i sb) as [n|]; [|reflexivity].
  now destruct (StoryboardType_beq (StoryboardGroup.type n) video).
Qed.

(** What the import loop does to the array at [l]. *)
Lemma import_items_spec (u : nat -> string) (now : nat -> Z) (l : Loc)
    (items : list CanvasItem.t) :
  forall (h : Heap) (n : nat), (l < length h)%nat ->
  exists h' added,
    fold_left (import_item u now l) items (h, n) = (h', (n + length added)%nat) /\
    length h' = length h /\
    Store.read h' l = Store.read h l ++ added /\
    (forall r, r <> l -> Store.read h' r = Store.read h r) /\
    NoDup (map TimelineClip.videoUrl added) /\
    (forall c, In c added ->
       In (TimelineClip.videoUrl c) (map CanvasItem.url items) /\
       ~ In (TimelineClip.videoUrl c) (map TimelineClip.videoUrl (Store.read h l)) /\
       TimelineClip.thumbUrl c = TimelineClip.videoUrl c /\
       TimelineClip.status c = TimelineClip.done) /\
    (forall item, In item items ->
       In (CanvasItem.url item) (map TimelineClip.videoUrl (Store.read h l ++ added))).
Proof.
  induction items as [|item items IH]; intros h n Hl.
  - exists h, []. cbn [fold_left length]. rewrite Nat.add_0_r, app_nil_r.
    repeat split; try reflexivity; try constructor; intros; contradiction.
  - cbn [fold_left]. unfold import_item at 2.
    destruct (existsb (fun c => TimelineClip.videoUrl c =? CanvasItem.url item)
                      (Store.read h l)) eqn:E; cbn [negb].
    + destruct (IH h n Hl) as [h' [added [Hf [Hlen [Hr [Ho [Hnd [Hadd Hall]]]]]]]].
      exists h', added. split; [exact Hf|]. split; [exact Hlen|]. split; [exact Hr|].
      split; [exact Ho|]. split; [exact Hnd|]. split.
      * intros c Hc. destruct (Hadd c Hc) as [H1 H2]. split; [now right | exact H2].
      * intros it [<-|Hit]; [|now apply Hall].
        rewrite map_app, in_app_iff. left. now apply some_videoUrl.
    + set (c := TimelineClip.mk (u n)
                  ("import-" ++ show_Z (now n) ++ "-" ++ show_nat n)%string
                  (CanvasItem.url item) (CanvasItem.url item)
                  (duration_or_5 (CanvasItem.duration item))
                  (or_else (CanvasItem.fileName item) "Imported Video")
                  TimelineClip.done).
      set (h1 := Store.push l c h).
      assert (Hl1 : (l < length h1)%nat) by (unfold h1, Store.push; now rewrite write_length).
      assert (Hr1 : Store.read h1 l = Store.read h l ++ [c])
        by (unfold h1, Store.push; now apply read_write_same).
      assert (Hnot : ~ In (CanvasItem.url item) (map TimelineClip.videoUrl (Store.read h l))).
      { intros Hin. apply some_videoUrl in Hin. congruence. }
      destruct (IH h1 (S n) Hl1) as [h' [added [Hf [Hlen [Hr [Ho [Hnd [Hadd Hall]]]]]]]].
      exists h', (c :: added). split; [|split; [|split; [|split; [|split; [|split]]]]].
      * rewrite Hf. f_equal. simpl. lia.
      * rewrite Hlen. unfold h1, Store.push. apply write_length.
      * rewrite Hr, Hr1, <- app_assoc. reflexivity.
      * intros r Hne. rewrite (Ho r Hne). unfold h1, Store.push.
        now apply read_write_other.
      * cbn [map]. constructor; [|exact Hnd].
        intros Hin. apply in_map_iff in Hin. destruct Hin as [c' [Eu Hc']].
        destruct (Hadd c' Hc') as [_ [Hn' _]]. apply Hn'.
        rewrite Hr1, map_app, in_app_iff. right. left. now rewrite Eu.
      * intros c' [<-|Hc'].
        -- split; [now left|]. split; [exact Hnot|]. split; reflexivity.
        -- destruct (Hadd c' Hc') as [H1 [H2 H3]]. split; [now right|]. split; [|exact H3].
           intros Hin. apply H2. rewrite Hr1, map_app, in_app_iff. now left.
      * intros it [<-|Hit].
        -- rewrite map_app, in_app_iff. right. now left.
        -- specialize (Hall it Hit). rewrite Hr1, <- app_assoc in Hall. exact Hall.
Qed.

Lemma find_node_set_clips (agentId : string) (l : Loc) (sb : list StoryboardGroup.t)
    (T : StoryboardGroup.t) :
  find_node agentId sb = Some T ->
  find_node agentId
    (map (fun g => if StoryboardGroup.id g =? agentId
                   then set_clips_ref (Some l) g else g) sb) =
  Some (set_clips_ref (Some l) T).
Proof.
  intros H. rewrite find_node_map.
  - rewrite H. simpl. destruct (find_node_Some _ _ _ H) as [_ Hid].
    apply String.eqb_eq in Hid. now rewrite Hid.
  - intros g. now destruct (StoryboardGroup.id g =? agentId).
Qed.

(** X16. Import into a timeline adds each video of the wired libraries
    once.  Given a timeline whose clip reference is valid, the import
    takes one history snapshot and appends clips to the clips the
    timeline had: every appended clip plays a file of a wired video
    library that no earlier clip played, is its own thumbnail and is
    marked done; no two appended clips play the same file; afterwards
    every file of the wired libraries is played by some clip.  When
    clips were appended the timeline shows the old clips followed by
    the new ones and the error slot is left alone; when none was, the
    node collection is unchanged and the error slot reports that no
    videos were found - in particular whenever every file was already
    on the timeline. *)
Theorem import_adds_each_video_once (randomUUID : nat -> string) (dateNow : nat -> Z)
    (agentId : string) (st : AppState) (agentNode : StoryboardGroup.t) :
  find_node agentId (storyboards st) = Some agentNode ->
  refs_ok (heap st) (storyboards st) ->
  let st' := handleImportVideosToTimeline randomUUID dateNow agentId st in
  let before := clips_at agentId st in
  let files := map CanvasItem.url (video_items (storyboards st) agentNode) in
  exists added,
    history st' = history (saveHistory (storyboards st) st) /\
    NoDup (map TimelineClip.videoUrl added) /\
    (forall c, In c added ->
       In (TimelineClip.videoUrl c) files /\
       ~ In (TimelineClip.videoUrl c) (map TimelineClip.videoUrl before) /\
       TimelineClip.thumbUrl c = TimelineClip.videoUrl c /\
       TimelineClip.status c = TimelineClip.done) /\
    (forall f, In f files -> In f (map TimelineClip.videoUrl (before ++ added))) /\
    (added <> [] ->
       clips_at agentId st' = before ++ added /\ error st' = error st /\
       map edges (storyboards st') = map edges (storyboards st)) /\
    (added = [] ->
       storyboards st' = storyboards st /\
       error st' = Some "No videos found in connected Video Nodes.") /\
    ((forall f, In f files -> In f (map TimelineClip.videoUrl before)) -> added = []).
Proof.
  intros Hfind Hrefs. cbv zeta.
  destruct (find_node_Some _ _ _ Hfind) as [Hin Hid].
  assert (Hvalid : forall r, clips_ref agentNode = Some r -> (r < length (heap st))%nat)
    by (intros r Hr; exact (Hrefs agentNode Hin r Hr)).
  destruct (clips_or_new_spec agentNode (heap st) Hvalid) as [Hext [Hl Hread]].
  assert (Hbefore : clips_at agentId st = clips_of (heap st) agentNode)
    by (unfold clips_at; now rewrite Hfind).
  rewrite Hbefore.
  unfold handleImportVideosToTimeline. rewrite Hfind.
  replace (heap (saveHistory (storyboards st) st)) with (heap st) by reflexivity.
  destruct (clips_or_new agentNode (heap st)) as [l h0] eqn:Ecn. cbn [fst snd] in *.
  assert (Hfold :
    match StoryboardGroup.inputs agentNode with
    | Some ins => fold_left (import_input randomUUID dateNow (storyboards st) l) ins (h0, 0%nat)
    | None => (h0, 0%nat)
    end =
    fold_left (import_item randomUUID dateNow l) (video_items (storyboards st) agentNode)
      (h0, 0%nat)).
  { unfold video_items, StoryboardGroup.inputs_or_empty.
    destruct (StoryboardGroup.inputs agentNode) as [ins|]; [|reflexivity].
    apply import_inputs_flat. }
  rewrite Hfold.
  destruct (import_items_spec randomUUID dateNow l
              (video_items (storyboards st) agentNode) h0 0%nat Hl)
    as [h1 [added [Hf [Hlen [Hr [Ho [Hnd [Hadd Hall]]]]]]]].
  rewrite Hf, Hread in *. cbn [Nat.add].
  exists added.
  assert (Hnone : (forall f, In f (map CanvasItem.url (video_items (storyboards st) agentNode)) ->
                     In f (map TimelineClip.videoUrl (clips_of (heap st) agentNode))) ->
                  added = []).
  { intros Hcov. destruct added as [|c added]; [reflexivity|]. exfalso.
    destruct (Hadd c (or_introl eq_refl)) as [H1 [H2 _]]. exact (H2 (Hcov _ H1)). }
  destruct added as [|c added].
  - cbn [length Nat.eqb].
    split; [reflexivity|]. split; [constructor|]. split; [intros c []|].
    split; [intros f Hf'; apply in_map_iff in Hf'; destruct Hf' as [it [<- Hit]];
            exact (Hall it Hit)|].
    split; [intros H; now contradiction H|]. split; [|exact Hnone].
    intros _. split; reflexivity.
  - cbn [length Nat.eqb].
    split; [reflexivity|]. split; [exact Hnd|]. split; [exact Hadd|].
    split; [intros f Hf'; apply in_map_iff in Hf'; destruct Hf' as [it [<- Hit]];
            exact (Hall it Hit)|].
    split; [|split; [discriminate | exact Hnone]].
    intros _. unfold clips_at.
    cbn [storyboards setStoryboards with_heap saveHistory setHistory heap error].
    rewrite (find_node_set_clips agentId l (storyboards st) agentNode Hfind).
    split; [|split; [reflexivity|]].
    + unfold clips_of. rewrite clips_ref_set. exact Hr.
    + rewrite map_map. apply map_ext. intros g.
      now destruct (StoryboardGroup.id g =? agentId).
Qed.

Lemma import_adds_each_video_once_witness :
  map TimelineClip.videoUrl (clips_at "t-0" Sample.imported) = ["blob:take1.mp4"] /\
  error (handleImportVideosToTimeline (Sample.uuid "c2") (Sample.clock 3000) "t-0" Sample.imported)
    = Some "No videos found in connected Video Nodes." /\
  exists added,
    NoDup (map TimelineClip.videoUrl added) /\
    clips_at "t-0" Sample.imported = clips_at "t-0" Sample.video_into_timeline ++ added.
Proof.
  split; [reflexivity|]. split; [reflexivity|].
  destruct (import_adds_each_video_once (Sample.uuid "c") (Sample.clock 2000) "t-0"
              Sample.video_into_timeline
              (nth 1 (storyboards Sample.video_into_timeline)
                     (StoryboardGroup.mk EmptyString timeline EmptyString 0 0 None None [] 0
                        [] None None None)))
    as [added [_ [Hnd [_ [Hcov [Hsome _]]]]]].
  - reflexivity.
  - intros g Hg r Hr. simpl in Hg. destruct Hg as [<-|[<-|[]]].
    + discriminate Hr.
    + injection Hr as <-. simpl. lia.
  - exists added. split; [exact Hnd|]. apply Hsome.
    intros ->. specialize (Hcov "blob:take1.mp4" (or_introl eq_refl)).
    simpl in Hcov. exact Hcov.
Defined.

(** ** What batch generation leaves alone *)





(** ** The canvas: zoom, drag, resize, pan and mouse up *)

Lemma wheel_zoom_ok (s d : Q) :
  scale_ok (Math_min (Math_max (2 # 10) [(s - d * (1 # 1000))%Q]) [3%Q]).
Proof.
  unfold scale_ok, Math_min, Math_max. cbn [fold_left]. split.
  - apply Q.min_glb; [apply Q.le_max_l | discriminate].
  - apply Q.le_min_r.
Qed.

Lemma zoom_out_ok (s : Q) : scale_ok s -> scale_ok (Math_max (2 # 10) [(s - (1 # 10))%Q]).
Proof.
  unfold scale_ok, Math_max. cbn [fold_left]. intros [H1 H2]. split.
  - apply Q.le_max_l.
  - apply Q.max_lub; [discriminate|].
    apply Qle_trans with s; [|exact H2].
    rewrite <- (Qplus_0_r s) at 2. unfold Qminus. apply Qplus_le_r. discriminate.
Qed.

Lemma zoom_in_ok (s : Q) : scale_ok s -> scale_ok (Math_min 3 [(s + (1 # 10))%Q]).
Proof.
  unfold scale_ok, Math_min. cbn [fold_left]. intros [H1 H2]. split.
  - apply Q.min_glb; [discriminate|].
    apply Qle_trans with s; [exact H1|].
    rewrite <- (Qplus_0_r s) at 1. apply Qplus_le_r. discriminate.
  - apply Q.le_min_l.
Qed.

Lemma handle_scale (e : Canvas.Event) (w : Canvas.World) :
  scale_ok (Canvas.scale (fst w)) -> scale_ok (Canvas.scale (fst (Canvas.handle e w))).
Proof.
  destruct w as [c st]. intros H. destruct e; cbn [Canvas.handle].
  - unfold Canvas.handleWindowMouseMove.
    destruct (if Canvas.isResizing c then Canvas.resizeStart c else None); [exact H|].
    destruct (Canvas.isPanning c); [exact H|].
    destruct (truthy (Canvas.draggingGroupId c)); [|exact H].
    destruct (Canvas.draggingGroupId c); [|exact H].
    destruct (find_node _ _); exact H.
  - exact H.
  - unfold Canvas.handleKeyDown.
    destruct (_ && (code =? "Space")); [exact H|].
    destruct ((key =? "Delete") || (key =? "Backspace")).
    + destruct (Canvas.selectedConnection c) as [[s t]|]; destruct (code =? "Space"); exact H.
    + destruct (code =? "Space"); exact H.
  - unfold Canvas.handleKeyUp. destruct (code =? "Space"); exact H.
  - unfold Canvas.handleCanvasMouseDown.
    destruct (Canvas.isSpacePressed c || (button =? 1)%Z); [exact H|].
    destruct (negb onPath && negb onNode); exact H.
  - unfold Canvas.handleStartConnection. destruct (find_node _ _); exact H.
  - exact H.
  - exact H.
  - unfold Canvas.onWheel. destruct ctrlOrMeta; [|exact H].
    cbn [fst Canvas.scale Canvas.setScale]. apply wheel_zoom_ok.
  - cbn [Canvas.onZoomOut fst Canvas.scale Canvas.setScale]. now apply zoom_out_ok.
  - cbn [Canvas.onZoomIn fst Canvas.scale Canvas.setScale]. now apply zoom_in_ok.
  - exact H.
  - unfold Canvas.onHeaderMouseDown. destruct (Canvas.isSpacePressed c); exact H.
Qed.

(** X18. The zoom factor of the canvas never leaves the range from 0.2
    to 3: it starts at 1, and whatever the sequence of mouse, wheel, key
    and button events, a factor in the range stays in the range; in
    particular it is never zero, so [screenToCanvas] never divides by
    zero. *)
Theorem scale_stays_in_range (es : list Canvas.Event) (w : Canvas.World) :
  scale_ok (Canvas.scale Canvas.initial) /\
  (scale_ok (Canvas.scale (fst w)) ->
   scale_ok (Canvas.scale (fst (Canvas.handle_all es w))) /\
   (0 < Canvas.scale (fst (Canvas.handle_all es w)))%Q).
Proof.
  split; [split; discriminate|].
  revert w. induction es as [|e es IH]; intros w H.
  - split; [exact H|]. eapply Qlt_le_trans; [|exact (proj1 H)]. reflexivity.
  - unfold Canvas.handle_all in *. cbn [fold_left]. apply IH. now apply handle_scale.
Qed.

Lemma scale_stays_in_range_witness :
  scale_ok (Canvas.scale (fst (Canvas.handle_all
    (repeat Canvas.ZoomIn 30 ++ [Canvas.Wheel true 0 5000])
    (Canvas.initial, Sample.template)))) /\
  (Canvas.scale (fst (Canvas.handle_all (repeat Canvas.ZoomIn 30)
                        (Canvas.initial, Sample.template))) == 3)%Q.
Proof.
  split; [|reflexivity].
  apply (scale_stays_in_range _ (Canvas.initial, Sample.template)).
  split; discriminate.
Defined.

Lemma no_resize_in_progress (c : Canvas.State) :
  Canvas.isResizing c = false \/ Canvas.resizeStart c = None ->
  (if Canvas.isResizing c then Canvas.resizeStart c else None) = None.
Proof. intros [H|H]; rewrite H; [reflexivity | now destruct (Canvas.isResizing c)]. Qed.

Lemma find_node_update (u : StoryboardGroup.t) (sb : list StoryboardGroup.t)
    (g : StoryboardGroup.t) :
  find_node (StoryboardGroup.id u) sb = Some g ->
  find_node (StoryboardGroup.id u)
    (map (fun g0 => if StoryboardGroup.id g0 =? StoryboardGroup.id u then u else g0) sb)
  = Some u.
Proof.
  intros H. rewrite find_node_map.
  - rewrite H. simpl. destruct (find_node_Some _ _ _ H) as [_ Hid].
    apply String.eqb_eq in Hid. now rewrite Hid.
  - intros g0. destruct (StoryboardGroup.id g0 =? StoryboardGroup.id u) eqn:E; [|reflexivity].
    apply String.eqb_eq in E. now symmetry.
Qed.

(** X19. Dragging a node by its header makes it follow the pointer.
    After a press on the header of a node at pointer position (x0, y0) and
    a pointer move to (x1, y1), with no resize or pan in progress, the
    node sits at its old position plus the pointer displacement divided
    by the zoom factor and is otherwise as it was; nodes with another
    identifier are untouched; the node is selected; the history stack, the
    zoom factor and the pan offset are as before. *)
Theorem drag_follows_pointer (g : StoryboardGroup.t) (bounds : Canvas.Rect.t)
    (x0 y0 x1 y1 movementX movementY : Q) (c : Canvas.State) (st : AppState) :
  Canvas.isSpacePressed c = false ->
  Canvas.isPanning c = false ->
  Canvas.isResizing c = false \/ Canvas.resizeStart c = None ->
  ~ (Canvas.scale c == 0)%Q ->
  StoryboardGroup.id g <> EmptyString ->
  find_node (StoryboardGroup.id g) (storyboards st) = Some g ->
  let w' := Canvas.handleWindowMouseMove (Some bounds) x1 y1 movementX movementY
              (Canvas.onHeaderMouseDown g (Some bounds) x0 y0 (c, st)) in
  (exists g',
     find_node (StoryboardGroup.id g) (storyboards (snd w')) = Some g' /\
     same_position (position g')
       (StoryboardGroup.x g + (x1 - x0) / Canvas.scale c,
        StoryboardGroup.y g + (y1 - y0) / Canvas.scale c)%Q /\
     with_xy 0 0 g' = with_xy 0 0 g) /\
  (forall k n, nth_error (storyboards st) k = Some n ->
     StoryboardGroup.id n <> StoryboardGroup.id g ->
     nth_error (storyboards (snd w')) k = Some n) /\
  selectedNodeId (snd w') = Some (StoryboardGroup.id g) /\
  history (snd w') = history st /\
  Canvas.scale (fst w') = Canvas.scale c /\
  Canvas.position (fst w') = Canvas.position c.
Proof.
  intros Hspace Hpan Hres Hscale Hid Hfind. cbv zeta.
  unfold Canvas.onHeaderMouseDown. rewrite Hspace.
  unfold Canvas.handleWindowMouseMove.
  cbn [Canvas.isResizing Canvas.resizeStart Canvas.setDragOffset Canvas.setDraggingGroupId
       Canvas.isPanning Canvas.draggingGroupId Canvas.dragOffset].
  rewrite (no_resize_in_progress c Hres), Hpan.
  assert (Ht : truthy (Some (StoryboardGroup.id g)) = true).
  { simpl. apply negb_true_iff. now apply String.eqb_neq. }
  rewrite Ht.
  replace (storyboards (handleSelectNode (Some (StoryboardGroup.id g)) st))
    with (storyboards st) by reflexivity.
  rewrite Hfind. cbn [fst snd].
  set (u := with_xy _ _ g).
  assert (Hu : StoryboardGroup.id u = StoryboardGroup.id g) by reflexivity.
  unfold handleUpdateStoryboard.
  cbn [storyboards setStoryboards handleSelectNode setSelectedNodeId history selectedNodeId].
  split; [|split; [|repeat split]].
  - exists u. split; [|split].
    + rewrite <- Hu. apply (find_node_update u (storyboards st) g). now rewrite Hu.
    + unfold same_position, position, u, Canvas.screenToCanvas.
      cbn [fst snd StoryboardGroup.x StoryboardGroup.y with_xy Canvas.Point.x Canvas.Point.y
           Canvas.position Canvas.scale Canvas.setMousePos Canvas.setDragOffset
           Canvas.setDraggingGroupId].
      split; field; exact Hscale.
    + reflexivity.
  - intros k n Hk Hne. rewrite nth_error_map, Hk. cbn [option_map].
    rewrite Hu. apply String.eqb_neq in Hne. now rewrite Hne.
Qed.

Lemma drag_follows_pointer_witness :
  exists g',
    find_node "n-0"
      (storyboards (snd (Canvas.handleWindowMouseMove
         (Some (Canvas.Rect.mk 0 0 1000 800)) 260 380 0 0
         (Canvas.onHeaderMouseDown (node_of "n-0" Sample.template)
            (Some (Canvas.Rect.mk 0 0 1000 800)) 200 350
            (Canvas.initial, Sample.template))))) = Some g' /\
    same_position (position g') (100 + (260 - 200) / 1, 300 + (380 - 350) / 1)%Q.
Proof.
  destruct (drag_follows_pointer (node_of "n-0" Sample.template)
              (Canvas.Rect.mk 0 0 1000 800) 200 350 260 380 0 0
              Canvas.initial Sample.template)
    as [[g' [Hg' [Hpos _]]] _];
    [reflexivity | reflexivity | now left | discriminate | discriminate | reflexivity |].
  exists g'. split; [exact Hg' | exact Hpos].
Defined.

Lemma resize_width_truthy (w : Q) : (300 <= w)%Q -> Canvas.truthy_num (Some w) = true.
Proof.
  intros H. unfold Canvas.truthy_num. apply negb_true_iff.
  destruct (Qeq_bool w 0) eqn:E; [|reflexivity].
  apply Qeq_bool_iff in E. rewrite E in H. exfalso. now apply H.
Qed.

(** X20. Resizing a node is floored and takes precedence.  While a
    resize is in progress a pointer move gives every node with the resized
    identifier a width of at least 300 and a height of at least 200, which
    is then the width the canvas lays it out with, and changes nothing else
    of it; the other nodes, the history stack and the pan offset are left
    alone, even if a pan or a node drag is flagged at the same time.  With
    the pointer back where the resize began the width is the larger of 300
    and the width at the start. *)
Theorem node_resize_is_floored (bounds : option Canvas.Rect.t)
    (clientX clientY movementX movementY : Q) (c : Canvas.State) (st : AppState)
    (rs : Canvas.ResizeStart.t) :
  Canvas.isResizing c = true ->
  Canvas.resizeStart c = Some rs ->
  let w' := Canvas.handleWindowMouseMove bounds clientX clientY movementX movementY (c, st) in
  (forall k n, nth_error (storyboards st) k = Some n ->
     exists n', nth_error (storyboards (snd w')) k = Some n' /\
       StoryboardGroup.with_size None None n' = StoryboardGroup.with_size None None n /\
       (StoryboardGroup.id n <> Canvas.ResizeStart.nodeId rs -> n' = n) /\
       (StoryboardGroup.id n = Canvas.ResizeStart.nodeId rs ->
        exists w h,
          StoryboardGroup.width n' = Some w /\ StoryboardGroup.height n' = Some h /\
          (300 <= w)%Q /\ (200 <= h)%Q /\ Canvas.getNodeWidth n' = w /\
          (~ (Canvas.scale c == 0)%Q -> (clientX == Canvas.ResizeStart.x rs)%Q ->
           (w == Qmax 300 (Canvas.ResizeStart.initialWidth rs))%Q))) /\
  history (snd w') = history st /\
  Canvas.position (fst w') = Canvas.position c /\
  Canvas.scale (fst w') = Canvas.scale c.
Proof.
  intros Hres Hrs. cbv zeta. unfold Canvas.handleWindowMouseMove.
  rewrite Hres, Hrs. cbn [fst snd]. split; [|repeat split].
  intros k n Hk. unfold handleResizeNode. cbn [storyboards setStoryboards].
  rewrite nth_error_map, Hk. cbn [option_map].
  destruct (StoryboardGroup.id n =? Canvas.ResizeStart.nodeId rs) eqn:E.
  - eexists. split; [reflexivity|]. split; [reflexivity|]. split.
    + intros Hne. apply String.eqb_eq in E. contradiction.
    + intros _. eexists. eexists. split; [reflexivity|]. split; [reflexivity|].
      unfold Math_max. cbn [fold_left].
      split; [apply Q.le_max_l|]. split; [apply Q.le_max_l|]. split.
      * unfold Canvas.getNodeWidth. cbn [StoryboardGroup.width StoryboardGroup.with_size].
        rewrite resize_width_truthy; [reflexivity | apply Q.le_max_l].
      * intros Hs Hx. rewrite Hx.
        setoid_replace ((Canvas.ResizeStart.x rs - Canvas.ResizeStart.x rs) / Canvas.scale c)%Q
          with 0%Q by (field; exact Hs).
        now rewrite Qplus_0_r.
  - exists n. split; [reflexivity|]. split; [reflexivity|]. split; [reflexivity|].
    intros Heq. apply String.eqb_neq in E. contradiction.
Qed.

Lemma node_resize_is_floored_witness :
  map StoryboardGroup.width
    (storyboards (snd (Canvas.handleWindowMouseMove None 0 0 0 0
       (Canvas.handleResizeStart (node_of "n-0" Sample.template) 500 500
          (Canvas.initial, Sample.template)))))
  = [Some (Qmax 300 (300 + (0 - 500) / 1)); None] /\
  history (snd (Canvas.handleWindowMouseMove None 0 0 0 0
       (Canvas.handleResizeStart (node_of "n-0" Sample.template) 500 500
          (Canvas.initial, Sample.template)))) = history Sample.template.
Proof.
  split; [reflexivity|].
  apply (node_resize_is_floored None 0 0 0 0
           (fst (Canvas.handleResizeStart (node_of "n-0" Sample.template) 500 500
                   (Canvas.initial, Sample.template)))
           Sample.template
           (Canvas.ResizeStart.mk "n-0" 500 500 300 200)); reflexivity.
Defined.


(** X22. Panning moves the canvas with the pointer.  While a pan is in
    progress (and no resize) a pointer move by (dx, dy) leaves the
    application state and the zoom factor alone and shifts the view so
    that the canvas point that was under the pointer is still under it;
    a wheel scroll by (dx, dy) without a modifier key shifts the view the
    opposite way.  At any zoom factor the canvas origin sits at the centre
    of the container displaced by the pan offset, so zooming happens about
    that point. *)
Theorem pan_moves_canvas_with_pointer (bounds : Canvas.Rect.t)
    (clientX clientY dx dy : Q) (c : Canvas.State) (st : AppState) :
  ~ (Canvas.scale c == 0)%Q ->
  (Canvas.isPanning c = true ->
   Canvas.isResizing c = false \/ Canvas.resizeStart c = None ->
   let w' := Canvas.handleWindowMouseMove (Some bounds) clientX clientY dx dy (c, st) in
   snd w' = st /\ Canvas.scale (fst w') = Canvas.scale c /\
   forall sx sy,
     same_point (Canvas.screenToCanvas (Some bounds) (fst w') (sx + dx) (sy + dy))
                (Canvas.screenToCanvas (Some bounds) c sx sy)) /\
  (let w' := Canvas.onWheel false dx dy (c, st) in
   snd w' = st /\ Canvas.scale (fst w') = Canvas.scale c /\
   forall sx sy,
     same_point (Canvas.screenToCanvas (Some bounds) (fst w') (sx - dx) (sy - dy))
                (Canvas.screenToCanvas (Some bounds) c sx sy)) /\
  same_point
    (Canvas.screenToCanvas (Some bounds) c
       (Canvas.Rect.left bounds + Canvas.Point.x (Canvas.position c)
        + Canvas.Rect.width bounds / 2)
       (Canvas.Rect.top bounds + Canvas.Point.y (Canvas.position c)
        + Canvas.Rect.height bounds / 2))
    (Canvas.Point.mk 0 0).
Proof.
  intros Hs. split; [|split].
  - intros Hpan Hres. cbv zeta. unfold Canvas.handleWindowMouseMove.
    rewrite (no_resize_in_progress c Hres), Hpan. cbn [fst snd].
    split; [reflexivity|]. split; [reflexivity|].
    intros sx sy. unfold same_point, Canvas.screenToCanvas.
    cbn [Canvas.Point.x Canvas.Point.y Canvas.position Canvas.scale Canvas.setPosition
         Canvas.setMousePos].
    split; field; exact Hs.
  - cbv zeta. cbn [Canvas.onWheel fst snd].
    split; [reflexivity|]. split; [reflexivity|].
    intros sx sy. unfold same_point, Canvas.screenToCanvas.
    cbn [Canvas.Point.x Canvas.Point.y Canvas.position Canvas.scale Canvas.setPosition].
    split; field; exact Hs.
  - unfold same_point, Canvas.screenToCanvas. cbn [Canvas.Point.x Canvas.Point.y].
    split; field; exact Hs.
Qed.

Lemma pan_moves_canvas_with_pointer_witness :
  same_point
    (Canvas.screenToCanvas (Some (Canvas.Rect.mk 0 0 1000 800))
       (fst (Canvas.handleWindowMouseMove (Some (Canvas.Rect.mk 0 0 1000 800)) 30 40 30 40
               (Canvas.setIsPanning true Canvas.initial, Sample.template)))
       (500 + 30) (400 + 40))
    (Canvas.screenToCanvas (Some (Canvas.Rect.mk 0 0 1000 800))
       (Canvas.setIsPanning true Canvas.initial) 500 400) /\
  Canvas.position
    (fst (Canvas.handleWindowMouseMove (Some (Canvas.Rect.mk 0 0 1000 800)) 30 40 30 40
            (Canvas.setIsPanning true Canvas.initial, Sample.template)))
  = Canvas.Point.mk (0 + 30) (0 + 40).
Proof.
  split; [|reflexivity].
  destruct (pan_moves_canvas_with_pointer (Canvas.Rect.mk 0 0 1000 800) 30 40 30 40
              (Canvas.setIsPanning true Canvas.initial) Sample.template) as [H _];
    [discriminate|].
  apply (H eq_refl (or_introl eq_refl)).
Defined.

(** ** Keyboard shortcuts *)




(** ** Well-formedness is an invariant of editing sessions *)

Lemma edges_transfer (sb sb' : list StoryboardGroup.t) (a : StoryboardGroup.t) :
  map edges sb = map edges sb' -> In a sb' ->
  exists a0, In a0 sb /\ StoryboardGroup.id a0 = StoryboardGroup.id a /\
    StoryboardGroup.connections a0 = StoryboardGroup.connections a /\
    StoryboardGroup.inputs_or_empty a0 = StoryboardGroup.inputs_or_empty a.
Proof.
  intros E Ha. apply (in_map edges) in Ha. rewrite <- E in Ha.
  apply in_map_iff in Ha. destruct Ha as [a0 [Ee Ha0]].
  exists a0. split; [exact Ha0|]. unfold edges in Ee. now injection Ee.
Qed.

Lemma edges_ids (sb sb' : list StoryboardGroup.t) :
  map edges sb = map edges sb' -> map StoryboardGroup.id sb = map StoryboardGroup.id sb'.
Proof.
  intros E.
  assert (H : forall l, map StoryboardGroup.id l = map (fun e => fst (fst e)) (map edges l))
    by (intros l; rewrite map_map; reflexivity).
  now rewrite (H sb), (H sb'), E.
Qed.

Lemma well_formed_edges (sb sb' : list StoryboardGroup.t) :
  map edges sb = map edges sb' -> well_formed sb -> well_formed sb'.
Proof.
  intros E [Hnd [Hsym [Hcl Hno]]]. split; [|split; [|split]].
  - now rewrite <- (edges_ids _ _ E).
  - intros a b Ha Hb.
    destruct (edges_transfer sb sb' a E Ha) as [a0 [Ha0 [Ia [Ca _]]]].
    destruct (edges_transfer sb sb' b E Hb) as [b0 [Hb0 [Ib [_ Nb]]]].
    rewrite <- Ia, <- Ib, <- Ca, <- Nb. exact (Hsym a0 b0 Ha0 Hb0).
  - intros g r Hg Hr.
    destruct (edges_transfer sb sb' g E Hg) as [g0 [Hg0 [_ [Cg Ng]]]].
    rewrite <- (edges_ids _ _ E). apply (Hcl g0 r Hg0). now rewrite Cg, Ng.
  - intros g Hg.
    destruct (edges_transfer sb sb' g E Hg) as [g0 [Hg0 [Ig [Cg Ng]]]].
    rewrite <- Ig, <- Cg, <- Ng. exact (Hno g0 Hg0).
Qed.

Lemma well_formed_snoc_detached (sb : list StoryboardGroup.t) (d : StoryboardGroup.t) :
  StoryboardGroup.connections d = [] ->
  StoryboardGroup.inputs_or_empty d = [] ->
  ~ In (StoryboardGroup.id d) (map StoryboardGroup.id sb) ->
  well_formed sb -> well_formed (sb ++ [d]).
Proof.
  intros Hc Hi Hfresh [Hnd [Hsym [Hcl Hno]]]. split; [|split; [|split]].
  - rewrite map_app. simpl. apply NoDup_app; [exact Hnd | repeat constructor; intros [] |].
    intros x Hx [<-|[]]. contradiction.
  - now apply symmetric_snoc_detached.
  - now apply closed_snoc_detached.
  - now apply no_self_loops_snoc_detached.
Qed.

Lemma well_formed_connect (src : option StoryboardGroup.t) (A B : string)
    (sb : list StoryboardGroup.t) :
  A <> B ->
  In A (map StoryboardGroup.id sb) -> In B (map StoryboardGroup.id sb) ->
  well_formed sb -> well_formed (connect_update src A B sb).
Proof.
  intros HAB HA HB [Hnd [Hsym [Hcl Hno]]]. split; [|split; [|split]].
  - now rewrite connect_update_ids.
  - unfold connect_update. intros a' b' Ha' Hb'.
    apply in_map_iff in Ha'. destruct Ha' as [a [<- Ha]].
    apply in_map_iff in Hb'. destruct Hb' as [b [<- Hb]].
    rewrite !connect_node_id.
    rewrite (connect_node_connections src A B _ a HAB).
    rewrite (connect_node_inputs src A B _ b HAB).
    rewrite (Hsym a b Ha Hb). tauto.
  - intros g' r Hg' Hr. rewrite connect_update_ids.
    unfold connect_update in Hg'.
    apply in_map_iff in Hg'. destruct Hg' as [g [<- Hg]].
    rewrite (connect_node_connections src A B _ g HAB) in Hr.
    rewrite (connect_node_inputs src A B _ g HAB) in Hr.
    destruct Hr as [[Hr|[_ ->]]|[Hr|[_ ->]]]; try assumption.
    + apply (Hcl g r Hg). now left.
    + apply (Hcl g r Hg). now right.
  - unfold connect_update. intros g' Hg'.
    apply in_map_iff in Hg'. destruct Hg' as [g [<- Hg]].
    rewrite connect_node_id.
    rewrite (connect_node_connections src A B _ g HAB).
    rewrite (connect_node_inputs src A B _ g HAB).
    destruct (Hno g Hg) as [H1 H2].
    split; intros [H|[E1 E2]]; try contradiction; congruence.
Qed.

Lemma well_formed_disconnect (A B : string) (sb : list StoryboardGroup.t) :
  A <> B -> well_formed sb -> well_formed (map (disconnect_node A B) sb).
Proof.
  intros HAB [Hnd [Hsym [Hcl Hno]]].
  assert (Hids : map StoryboardGroup.id (map (disconnect_node A B) sb) =
                 map StoryboardGroup.id sb).
  { rewrite map_map. apply map_ext. apply disconnect_node_id. }
  split; [|split; [|split]].
  - now rewrite Hids.
  - intros a' b' Ha' Hb'.
    apply in_map_iff in Ha'. destruct Ha' as [a [<- Ha]].
    apply in_map_iff in Hb'. destruct Hb' as [b [<- Hb]].
    rewrite !disconnect_node_id.
    rewrite (disconnect_node_connections A B _ a HAB), (disconnect_node_inputs A B _ b).
    rewrite (Hsym a b Ha Hb). tauto.
  - intros g' r Hg' Hr. rewrite Hids.
    apply in_map_iff in Hg'. destruct Hg' as [g [<- Hg]].
    rewrite (disconnect_node_connections A B _ g HAB), (disconnect_node_inputs A B _ g) in Hr.
    apply (Hcl g r Hg). tauto.
  - intros g' Hg'. apply in_map_iff in Hg'. destruct Hg' as [g [<- Hg]].
    rewrite disconnect_node_id.
    rewrite (disconnect_node_connections A B _ g HAB), (disconnect_node_inputs A B _ g).
    destruct (Hno g Hg). tauto.
Qed.

Lemma well_formed_delete (X : string) (st : AppState) :
  well_formed (storyboards st) -> well_formed (storyboards (handleDeleteNode X st)).
Proof.
  intros [Hnd [Hsym [Hcl Hno]]]. split; [|split; [|split]].
  - rewrite handleDeleteNode_ids. now apply NoDup_filter.
  - intros a' b' Ha' Hb'.
    destruct (handleDeleteNode_survivor X st a' Ha') as [a [Ha [Hida [Hnea Hxa]]]].
    destruct (handleDeleteNode_survivor X st b' Hb') as [b [Hb [Hidb [Hneb Hxb]]]].
    rewrite Hida, Hidb.
    rewrite (proj1 (Hxa _)), (proj2 (Hxb _)), (Hsym a b Ha Hb). tauto.
  - intros g' r Hg' Hr.
    destruct (handleDeleteNode_survivor X st g' Hg') as [g [Hg [_ [_ Hx]]]].
    rewrite handleDeleteNode_ids. apply In_filter_neq.
    rewrite (proj1 (Hx r)), (proj2 (Hx r)) in Hr.
    split; [apply (Hcl g r Hg) |]; tauto.
  - intros g' Hg'.
    destruct (handleDeleteNode_survivor X st g' Hg') as [g [Hg [Hid [_ Hx]]]].
    rewrite Hid. rewrite (proj1 (Hx _)), (proj2 (Hx _)).
    destruct (Hno g Hg). tauto.
Qed.

Lemma step_well_formed (a : Action) (st : AppState) :
  legal a st -> well_formed (storyboards st) -> well_formed (storyboards (step a st)).
Proof.
  intros Hlegal Hwf. destruct a; cbn [step legal] in *.
  - apply (well_formed_edges (storyboards st)); [|exact Hwf].
    unfold handleRenameNode. cbn [storyboards setStoryboards saveHistory setHistory].
    rewrite map_map. apply map_ext. intros g.
    now destruct (StoryboardGroup.id g =? nodeId).
  - now apply well_formed_delete.
  - apply (well_formed_edges (storyboards st)); [|exact Hwf].
    assert (E : storyboards (handleDeleteItem itemId groupId st) =
                map (fun group =>
                  if negb (StoryboardGroup.id group =? groupId) then group
                  else StoryboardGroup.with_items
                         (filter (fun i => negb (CanvasItem.id i =? itemId))
                                 (StoryboardGroup.items group)) group) (storyboards st)).
    { unfold handleDeleteItem. destruct (selectedItemId st) as [sel|]; [|reflexivity].
      destruct (sel =? itemId); reflexivity. }
    rewrite E, map_map. apply map_ext. intros g.
    now destruct (StoryboardGroup.id g =? groupId).
  - unfold handleDuplicateNode.
    destruct (find_node nodeId (storyboards st)); [|exact Hwf].
    cbn [storyboards setStoryboards saveHistory setHistory].
    now apply well_formed_snoc_detached.
  - rewrite handleConnect_unfold.
    destruct (String.eqb_spec sourceNodeId targetNodeId) as [E|HAB]; [exact Hwf|].
    destruct (already_connected _ _); [exact Hwf|].
    rewrite storyboards_guarded. destruct Hlegal as [HA HB].
    now apply well_formed_connect.
  - rewrite handleDisconnect_storyboards. now apply well_formed_disconnect.
  - unfold handlePaste. destruct (clipboard st) as [n|]; [|exact Hwf].
    cbn [storyboards setStoryboards setSelectedNodeId saveHistory setHistory].
    now apply well_formed_snoc_detached.
  - cbn [handleCreateMusicNode storyboards setStoryboards saveHistory setHistory].
    now apply well_formed_snoc_detached.
  - cbn [handleCreateVideoNode storyboards setStoryboards saveHistory setHistory].
    now apply well_formed_snoc_detached.
Qed.

Lemma step_sound (a : Action) (st : AppState) :
  legal a st -> sound st -> sound (step a st).
Proof.
  intros Hlegal [Hwf Hhist]. split; [now apply step_well_formed|].
  destruct (commits a st) eqn:Hc.
  - rewrite (proj1 (step_snapshot a st Hc)).
    destruct (saveHistory_snoc (storyboards st) st) as [l [-> Hl]].
    apply Forall_app. split; [|now constructor].
    destruct Hl as [-> | ->]; [exact Hhist|].
    destruct (history st) as [|s h]; [constructor|]. now inversion Hhist.
  - now rewrite (step_rejected a st Hc).
Qed.

Lemma handleUndo_sound (st : AppState) : sound st -> sound (handleUndo st).
Proof.
  intros [Hwf Hhist]. destruct (history st) as [|s0 h0] eqn:E.
  - rewrite (handleUndo_nil st E). split; [exact Hwf | rewrite E; constructor].
  - destruct (@exists_last _ (s0 :: h0) ltac:(discriminate)) as [h [s Hl]].
    rewrite Hl in E, Hhist. rewrite (handleUndo_snoc st h s E).
    apply Forall_app in Hhist. destruct Hhist as [Hh Hs].
    split; [now inversion Hs | exact Hh].
Qed.

(** X24. Well-formedness is an invariant of editing sessions.  The
    template the application starts from is well formed when its two
    identifiers differ: identifiers are unique, every edge is recorded on
    both ends, every listed identifier names a node and no node lists
    itself.  From a state whose graph and history snapshots are all well
    formed, any sequence of discrete actions and undos leads to such a
    state again, provided each new node draws an unused identifier,
    connections are made between nodes of the graph, and disconnections
    name two different nodes. *)
Theorem sessions_keep_graph_well_formed (es : list (Action + unit)) (st : AppState) :
  (forall randomUUID dateNow prompt st0,
     randomUUID 0%nat <> randomUUID 1%nat ->
     well_formed (storyboards (initTemplate randomUUID dateNow prompt st0))) /\
  (sound st -> admissible es st -> sound (session es st)).
Proof.
  split.
  - intros u now prompt st0 Hne.
    cbn [initTemplate storyboards setStoryboards]. split; [|split; [|split]].
    + cbn [map StoryboardGroup.id]. repeat constructor.
      * intros [H|[]]. congruence.
      * intros [].
    + intros a b [<-|[<-|[]]] [<-|[<-|[]]]; cbn; split;
        intros H; repeat (destruct H as [H|H]); try contradiction; try congruence; auto.
    + intros g r [<-|[<-|[]]] [H|H]; cbn in *;
        repeat (destruct H as [H|H]); try contradiction; subst; auto.
    + intros g [<-|[<-|[]]]; cbn; split; intros H;
        repeat (destruct H as [H|H]); try contradiction; congruence.
  - revert st. induction es as [|e es IH]; intros st Hs Hadm; [exact Hs|].
    unfold session in *. cbn [fold_left]. destruct Hadm as [He Hrest].
    apply IH; [|exact Hrest].
    destruct e as [a|[]]; cbn [session_step].
    + now apply step_sound.
    + now apply handleUndo_sound.
Qed.

Lemma sessions_keep_graph_well_formed_witness :
  sound (session
    [inl (Duplicate (Sample.uuid "d") (Sample.clock 3000) "n-1");
     inl (Connect "n-0" "d-0");
     inl (DeleteNode "n-1");
     inr tt;
     inl (Disconnect "n-0" "d-0")]
    Sample.template) /\
  map edges (storyboards (session
    [inl (Duplicate (Sample.uuid "d") (Sample.clock 3000) "n-1");
     inl (Connect "n-0" "d-0");
     inl (DeleteNode "n-1");
     inr tt;
     inl (Disconnect "n-0" "d-0")]
    Sample.template))
  = [("n-0", ["n-1"], []); ("n-1", [], ["n-0"]); ("d-0", [], [])].
Proof.
  split; [|reflexivity].
  destruct (sessions_keep_graph_well_formed
    [inl (Duplicate (Sample.uuid "d") (Sample.clock 3000) "n-1");
     inl (Connect "n-0" "d-0");
     inl (DeleteNode "n-1");
     inr tt;
     inl (Disconnect "n-0" "d-0")]
    Sample.template) as [Hinit Hsess].
  apply Hsess.
  - split; [|constructor].
    apply (Hinit (Sample.uuid "n") (Sample.clock 1000) "ACT AS: An Expert Visual Director."
                 Sample.mounted).
    discriminate.
  - cbn. repeat split; try discriminate; auto.
    intros [H|[H|[]]]; discriminate.
Defined.

(** ** Dropping files *)

Lemma screen_files_bin (createObjectURL : nat -> string) (files : list File.t)
    (T : string) (tn : StoryboardGroup.t) :
  StoryboardGroup.type tn <> timeline ->
  StoryboardGroup.type tn <> mv_attribute_settings ->
  screen_files createObjectURL files T (Some tn) =
  Kept (filter (accepts (StoryboardGroup.type tn)) files).
Proof.
  intros H1 H2. unfold screen_files, accepts.
  assert (Hall : filter (fun _ : File.t => true) files = files).
  { induction files as [|f l IH]; simpl; [reflexivity | now rewrite IH]. }
  destruct (StoryboardGroup.type tn); try reflexivity; try (now rewrite Hall);
    contradiction.
Qed.

Lemma new_items_fileNames (createObjectURL randomUUID : nat -> string) (dateNow : nat -> Z)
    (l : list File.t) :
  forall k,
    map CanvasItem.fileName (mapi_from k (new_item createObjectURL randomUUID dateNow) l) =
    map (fun f => Some (File.name f)) l.
Proof. induction l as [|f l IH]; intros k; simpl; [reflexivity | now rewrite IH]. Qed.

Lemma new_items_types (createObjectURL randomUUID : nat -> string) (dateNow : nat -> Z)
    (l : list File.t) :
  forall k,
    map CanvasItem.type (mapi_from k (new_item createObjectURL randomUUID dateNow) l) =
    map item_type l.
Proof. induction l as [|f l IH]; intros k; simpl; [reflexivity | now rewrite IH]. Qed.

(** X25. Files dropped on a bin.  With the target an existing music bin,
    asset bin, video library or any node other than a timeline or a style
    panel, [handleAddAsset] takes one history snapshot, leaves every edge
    as it was, and appends to every node with the target identifier one
    item per file the kind of the target keeps - audio files for a music
    bin (each item then typed audio), files of image MIME type for an
    asset bin, of video MIME type for a video library, every file
    otherwise - in the order of the drop, after the items already there;
    the other nodes are untouched and the [assets] slot grows by one entry
    per kept file.  When no file is kept the node collection and the
    [assets] slot are unchanged, yet the snapshot has been taken. *)
Theorem drop_on_bin_keeps_matching_files
    (createObjectURL randomUUID : nat -> string) (dateNow : nat -> Z)
    (files : list File.t) (x y : option Q) (T : string) (tn : StoryboardGroup.t)
    (st : AppState) (assets0 : list Asset.t) :
  T <> EmptyString ->
  find_node T (storyboards st) = Some tn ->
  StoryboardGroup.type tn <> timeline ->
  StoryboardGroup.type tn <> mv_attribute_settings ->
  let w' := handleAddAsset createObjectURL randomUUID dateNow files x y (Some T) (st, assets0) in
  let kept := filter (accepts (StoryboardGroup.type tn)) files in
  history (fst w') = history (saveHistory (storyboards st) st) /\
  map edges (storyboards (fst w')) = map edges (storyboards st) /\
  (forall k g, nth_error (storyboards st) k = Some g ->
     exists g' added,
       nth_error (storyboards (fst w')) k = Some g' /\
       StoryboardGroup.with_items [] g' = StoryboardGroup.with_items [] g /\
       StoryboardGroup.items g' =
         (if StoryboardGroup.id g =? T then StoryboardGroup.items g ++ added
          else StoryboardGroup.items g) /\
       map CanvasItem.fileName added = map (fun f => Some (File.name f)) kept /\
       (StoryboardGroup.type tn = music ->
        Forall (fun i => CanvasItem.type i = audio_t) added)) /\
  length (snd w') = (length assets0 + length kept)%nat /\
  (kept = [] -> storyboards (fst w') = storyboards st /\ snd w' = assets0).
Proof.
  intros HT Hfind Ht1 Ht2. cbv zeta. unfold handleAddAsset.
  assert (Htr : truthy (Some T) = true)
    by (simpl; apply negb_true_iff; now apply String.eqb_neq).
  rewrite Htr, Hfind, (screen_files_bin _ _ _ _ Ht1 Ht2).
  set (kept := filter (accepts (StoryboardGroup.type tn)) files).
  assert (Haudio : StoryboardGroup.type tn = music ->
            Forall (fun i => CanvasItem.type i = audio_t)
                   (mapi (new_item createObjectURL randomUUID dateNow) kept)).
  { intros Hm. apply Forall_forall. intros i Hi.
    apply (in_map CanvasItem.type) in Hi. unfold mapi in Hi.
    rewrite new_items_types in Hi. apply in_map_iff in Hi. destruct Hi as [f [<- Hf]].
    unfold kept in Hf. apply filter_In in Hf. destruct Hf as [_ Hacc].
    rewrite Hm in Hacc. unfold item_type. cbn [accepts] in Hacc. now rewrite Hacc. }
  destruct kept as [|first rest] eqn:Ek.
  - cbn [fst snd]. split; [reflexivity|]. split; [reflexivity|]. split; [|split].
    + intros k g Hk. exists g, []. split; [exact Hk|]. split; [reflexivity|].
      split; [|split; [reflexivity | constructor]].
      rewrite app_nil_r. now destruct (StoryboardGroup.id g =? T).
    + simpl. lia.
    + intros _. split; reflexivity.
  - cbn [fst snd]. split; [reflexivity|]. split; [|split; [|split]].
    + cbn [storyboards setStoryboards saveHistory setHistory].
      rewrite map_map. apply map_ext. intros g.
      now destruct (StoryboardGroup.id g =? T).
    + intros k g Hk.
      exists (if StoryboardGroup.id g =? T
              then StoryboardGroup.with_items
                     (StoryboardGroup.items g ++
                      mapi (new_item createObjectURL randomUUID dateNow) (first :: rest)) g
              else g),
             (mapi (new_item createObjectURL randomUUID dateNow) (first :: rest)).
      split; [|split; [|split; [|split]]].
      * cbn [storyboards setStoryboards saveHistory setHistory].
        now rewrite nth_error_map, Hk.
      * now destruct (StoryboardGroup.id g =? T).
      * now destruct (StoryboardGroup.id g =? T).
      * unfold mapi. apply new_items_fileNames.
      * exact Haudio.
    + rewrite length_app. unfold mapi. now rewrite length_mapi_from.
    + discriminate.
Qed.

Lemma drop_on_bin_keeps_matching_files_witness :
  map (fun g => map CanvasItem.fileName (StoryboardGroup.items g))
    (storyboards (fst (handleAddAsset (Sample.uuid "blob") (Sample.uuid "f") (Sample.clock 5000)
       [File.mk "image/png" "cover.png"; File.mk "audio/mpeg" "intro.mp3";
        File.mk "application/octet-stream" "Outro.WAV"]
       None None (Some "m-0") (Sample.music_and_timeline, []))))
  = [[Some "song.mp3"; Some "intro.mp3"; Some "Outro.WAV"]; []] /\
  length (snd (handleAddAsset (Sample.uuid "blob") (Sample.uuid "f") (Sample.clock 5000)
       [File.mk "image/png" "cover.png"; File.mk "audio/mpeg" "intro.mp3";
        File.mk "application/octet-stream" "Outro.WAV"]
       None None (Some "m-0") (Sample.music_and_timeline, []))) = (0 + 2)%nat.
Proof.
  split; [reflexivity|].
  apply (drop_on_bin_keeps_matching_files (Sample.uuid "blob") (Sample.uuid "f")
           (Sample.clock 5000)
           [File.mk "image/png" "cover.png"; File.mk "audio/mpeg" "intro.mp3";
            File.mk "application/octet-stream" "Outro.WAV"]
           None None "m-0" (node_of "m-0" Sample.music_and_timeline)
           Sample.music_and_timeline []);
    [discriminate | reflexivity | discriminate | discriminate].
Defined.

(** X26. Files dropped on the empty canvas.  With no target node and at
    least one file, [handleAddAsset] takes one history snapshot and appends
    exactly one node: it has the identifier drawn after those of the items,
    the kind and title chosen from the first file (music for an audio file,
    video library for a video MIME type, reference assets otherwise), the
    drop position with 100 standing in for a missing or zero coordinate, no
    edge in either direction, and one item per dropped file, in order, each
    typed by its own file; the [assets] slot grows by one entry per file.
    A well-formed graph stays well formed when the new identifier is
    unused.  With no file at all only the snapshot is taken. *)
Theorem drop_on_canvas_creates_bin
    (createObjectURL randomUUID : nat -> string) (dateNow : nat -> Z)
    (files : list File.t) (x y : option Q) (st : AppState) (assets0 : list Asset.t) :
  let w' := handleAddAsset createObjectURL randomUUID dateNow files x y None (st, assets0) in
  history (fst w') = history (saveHistory (storyboards st) st) /\
  match files with
  | [] => storyboards (fst w') = storyboards st /\ snd w' = assets0
  | first :: _ =>
      exists group,
        storyboards (fst w') = storyboards st ++ [group] /\
        edges group = (randomUUID (length files), [], []) /\
        StoryboardGroup.type group = firstFileType first /\
        StoryboardGroup.title group = title_of (firstFileType first) /\
        position group = (or_100 x, or_100 y) /\
        map CanvasItem.fileName (StoryboardGroup.items group) =
          map (fun f => Some (File.name f)) files /\
        map CanvasItem.type (StoryboardGroup.items group) = map item_type files /\
        map Asset.id (skipn (length assets0) (snd w')) =
          map CanvasItem.id (StoryboardGroup.items group) /\
        (~ In (randomUUID (length files)) (map StoryboardGroup.id (storyboards st)) ->
         well_formed (storyboards st) -> well_formed (storyboards (fst w')))
  end.
Proof.
  cbv zeta. unfold handleAddAsset. cbn [truthy screen_files].
  destruct files as [|first rest].
  - split; [reflexivity|]. split; reflexivity.
  - cbn [fst snd]. split; [reflexivity|].
    eexists. split; [reflexivity|]. split; [reflexivity|]. split; [reflexivity|].
    split; [reflexivity|]. split; [reflexivity|].
    cbn [StoryboardGroup.items]. split; [|split; [|split]].
    + unfold mapi. apply new_items_fileNames.
    + unfold mapi. apply new_items_types.
    + rewrite skipn_app, Nat.sub_diag, skipn_all. cbn [skipn app].
      unfold mapi. generalize 0%nat.
      induction (first :: rest) as [|f l IH]; intros k; simpl; [reflexivity|].
      now rewrite IH.
    + intros Hfresh Hwf.
      cbn [storyboards setStoryboards saveHistory setHistory].
      now apply well_formed_snoc_detached.
Qed.

(** X27. An audio file dropped on a timeline becomes its soundtrack.
    When the target is an existing timeline and the drop holds an audio
    file (by MIME type or by extension), [handleAddAsset] takes one history
    snapshot, gives every node with the target identifier the object URL
    of that file as timeline audio, and adds no item to any node and no
    entry to the [assets] slot; edges are untouched. *)
Theorem drop_audio_on_timeline_sets_soundtrack
    (createObjectURL randomUUID : nat -> string) (dateNow : nat -> Z)
    (files : list File.t) (x y : option Q) (T : string) (tn : StoryboardGroup.t)
    (st : AppState) (assets0 : list Asset.t) :
  T <> EmptyString ->
  find_node T (storyboards st) = Some tn ->
  StoryboardGroup.type tn = timeline ->
  existsb isAudioFile files = true ->
  let w' := handleAddAsset createObjectURL randomUUID dateNow files x y (Some T) (st, assets0) in
  history (fst w') = history (saveHistory (storyboards st) st) /\
  snd w' = assets0 /\
  map edges (storyboards (fst w')) = map edges (storyboards st) /\
  map StoryboardGroup.items (storyboards (fst w')) =
    map StoryboardGroup.items (storyboards st) /\
  (forall g', In g' (storyboards (fst w')) -> StoryboardGroup.id g' = T ->
     audio_ref g' = Some (createObjectURL 0%nat)) /\
  (exists g', find_node T (storyboards (fst w')) = Some g' /\
     audio_ref g' = Some (createObjectURL 0%nat) /\ clips_ref g' = clips_ref tn).
Proof.
  intros HT Hfind Htl Haud. cbv zeta. unfold handleAddAsset.
  assert (Htr : truthy (Some T) = true)
    by (simpl; apply negb_true_iff; now apply String.eqb_neq).
  rewrite Htr, Hfind. unfold screen_files. rewrite Htl.
  destruct (find isAudioFile files) as [audioFile|] eqn:Ef.
  - cbn [fst snd storyboards setStoryboards saveHistory setHistory history].
    split; [reflexivity|]. split; [reflexivity|].
    assert (Hkeep : forall g, edges (set_audio T (Some (createObjectURL 0%nat)) g) = edges g /\
              StoryboardGroup.items (set_audio T (Some (createObjectURL 0%nat)) g) =
              StoryboardGroup.items g /\
              StoryboardGroup.id (set_audio T (Some (createObjectURL 0%nat)) g) =
              StoryboardGroup.id g).
    { intros g. unfold set_audio. now destruct (StoryboardGroup.id g =? T). }
    split; [rewrite map_map; apply map_ext; intros g; apply Hkeep|].
    split; [rewrite map_map; apply map_ext; intros g; apply Hkeep|].
    split.
    + intros g' Hg' Hid. apply in_map_iff in Hg'. destruct Hg' as [g [<- Hg]].
      rewrite (proj2 (proj2 (Hkeep g))) in Hid. unfold set_audio.
      apply String.eqb_eq in Hid. rewrite Hid. reflexivity.
    + exists (set_audio T (Some (createObjectURL 0%nat)) tn).
      rewrite find_node_map by (intros g; apply Hkeep). rewrite Hfind.
      split; [reflexivity|].
      destruct (find_node_Some _ _ _ Hfind) as [_ Hid].
      unfold set_audio. apply String.eqb_eq in Hid. rewrite Hid.
      split; [reflexivity|]. unfold clips_ref, spread_config.
      cbn [StoryboardGroup.config StoryboardGroup.with_config
           NodeConfig.timelineClips NodeConfig.with_timelineAudioUrl].
      now destruct (StoryboardGroup.config tn).
  - exfalso. apply existsb_exists in Haud. destruct Haud as [f [Hf Hfa]].
    pose proof (find_none _ _ Ef f Hf) as Hn. congruence.
Qed.

Lemma drop_audio_on_timeline_sets_soundtrack_witness :
  map audio_ref
    (storyboards (fst (handleAddAsset (Sample.uuid "blob") (Sample.uuid "f") (Sample.clock 5000)
       [File.mk "image/png" "cover.png"; File.mk EmptyString "Theme.FLAC"]
       None None (Some "t-0") (Sample.music_and_timeline, []))))
  = [None; Some "blob-0"] /\
  snd (handleAddAsset (Sample.uuid "blob") (Sample.uuid "f") (Sample.clock 5000)
         [File.mk "image/png" "cover.png"; File.mk EmptyString "Theme.FLAC"]
         None None (Some "t-0") (Sample.music_and_timeline, [])) = [].
Proof.
  split; [reflexivity|].
  apply (drop_audio_on_timeline_sets_soundtrack (Sample.uuid "blob") (Sample.uuid "f")
           (Sample.clock 5000)
           [File.mk "image/png" "cover.png"; File.mk EmptyString "Theme.FLAC"]
           None None "t-0" (node_of "t-0" Sample.music_and_timeline)
           Sample.music_and_timeline []);
    [discriminate | reflexivity | reflexivity | reflexivity].
Defined.

(** ** The node palette and the prompt editor *)

(** X28. Every entry of the node palette appends one detached node.
    Each of the nine create handlers takes one history snapshot and
    appends exactly one node of its kind at the given position, with the
    drawn identifier, no item and no edge in either direction; an undo
    right after removes it.  Only the timeline entry touches the clip
    store: the new timeline refers to a new, empty clip array that no
    node of the graph referred to, and the arrays already there are as
    before; the other entries leave the store alone and give the node no
    clip reference.  A well-formed graph stays well formed when the new
    identifier is unused. *)
Theorem palette_appends_detached_node (p : Palette)
    (randomUUID : nat -> string) (dateNow : nat -> Z) (prompts : Prompts)
    (x y : Q) (st : AppState) :
  let st' := create p randomUUID dateNow prompts x y st in
  history st' = history (saveHistory (storyboards st) st) /\
  storyboards (handleUndo st') = storyboards st /\
  exists n,
    storyboards st' = storyboards st ++ [n] /\
    edges n = (randomUUID 0%nat, [], []) /\
    position n = (x, y) /\
    StoryboardGroup.type n = kind_of p /\
    StoryboardGroup.items n = [] /\
    (p <> NewTimeline -> heap st' = heap st /\ clips_ref n = None) /\
    (p = NewTimeline ->
     clips_ref n = Some (length (heap st)) /\ clips_of (heap st') n = [] /\
     extends (heap st) (heap st') /\
     (refs_ok (heap st) (storyboards st) ->
      refs_ok (heap st') (storyboards st') /\
      forall g, In g (storyboards st) -> clips_ref g <> clips_ref n)) /\
    (~ In (randomUUID 0%nat) (map StoryboardGroup.id (storyboards st)) ->
     well_formed (storyboards st) -> well_formed (storyboards st')).
Proof.
  cbv zeta.
  assert (Hundo : forall st', history st' = history (saveHistory (storyboards st) st) ->
            storyboards (handleUndo st') = storyboards st).
  { intros st' Hh. destruct (saveHistory_snoc (storyboards st) st) as [l [Hl _]].
    rewrite <- Hh in Hl. now rewrite (handleUndo_snoc st' l (storyboards st) Hl). }
  destruct p; cbn [create kind_of];
    (split; [reflexivity|]); (split; [now apply Hundo|]);
    eexists; (split; [reflexivity|]); (split; [reflexivity|]); (split; [reflexivity|]);
    (split; [reflexivity|]); (split; [reflexivity|]);
    (split; [intros Hp; try (now split); now contradiction Hp|]);
    (split; [intros Hp; try discriminate Hp
            | intros Hfresh Hwf; now apply well_formed_snoc_detached]).
  split; [reflexivity|].
  cbn [handleCreateTimelineNode heap with_heap Store.alloc saveHistory setHistory
       setStoryboards storyboards].
  split; [|split].
  - unfold clips_of, clips_ref. cbn. unfold Store.read.
    now rewrite nth_middle.
  - split; [rewrite length_app; simpl; lia|]. intros r Hr. now apply read_app_l.
  - intros Hrefs. split.
    + intros g Hg r Hr. rewrite length_app. simpl.
      apply in_app_iff in Hg. destruct Hg as [Hg|[<-|[]]].
      * specialize (Hrefs g Hg r Hr). lia.
      * unfold clips_ref in Hr. cbn in Hr. injection Hr as <-. lia.
    + intros g Hg Heq. unfold clips_ref at 2 in Heq. cbn in Heq.
      specialize (Hrefs g Hg _ Heq). lia.
Qed.

Lemma palette_appends_detached_node_witness :
  well_formed (storyboards
    (create NewTimeline (Sample.uuid "t") (Sample.clock 6000)
       (mkPrompts "agent" "analysis" "style" "storyboard") 10 20 Sample.template)) /\
  map StoryboardGroup.type (storyboards
    (create NewTimeline (Sample.uuid "t") (Sample.clock 6000)
       (mkPrompts "agent" "analysis" "style" "storyboard") 10 20 Sample.template))
  = [assets; agent; timeline].
Proof.
  split; [|reflexivity].
  destruct (palette_appends_detached_node NewTimeline (Sample.uuid "t") (Sample.clock 6000)
              (mkPrompts "agent" "analysis" "style" "storyboard") 10 20 Sample.template)
    as [_ [_ [n [_ [_ [_ [_ [_ [_ [_ Hwf]]]]]]]]]].
  apply Hwf.
  - simpl. intros [H|[H|[]]]; discriminate.
  - split; [|split; [|split]].
    + simpl. repeat constructor; simpl; intuition discriminate.
    + intros a b [<-|[<-|[]]] [<-|[<-|[]]]; cbv; split; intros H;
        repeat (destruct H as [H|H]); try discriminate; try contradiction; auto.
    + intros g r [<-|[<-|[]]] [H|H]; cbv in H;
        repeat (destruct H as [H|H]); try contradiction; subst; cbv; auto.
    + intros g [<-|[<-|[]]]; cbv; split; intros H;
        repeat (destruct H as [H|H]); try discriminate; try contradiction.
Defined.

Lemma find_app_first {A : Type} (f : A -> bool) (l1 l2 : list A) :
  find f (l1 ++ l2) = match find f l1 with Some a => Some a | None => find f l2 end.
Proof.
  induction l1 as [|a l1 IH]; simpl; [reflexivity|]. now destruct (f a).
Qed.

Lemma set_prompt_keeps (editor p : string) (g : StoryboardGroup.t) :
  StoryboardGroup.with_config None (set_prompt editor p g) = StoryboardGroup.with_config None g /\
  clips_ref (set_prompt editor p g) = clips_ref g /\
  audio_ref (set_prompt editor p g) = audio_ref g.
Proof.
  unfold set_prompt. destruct (StoryboardGroup.id g =? editor); [|now repeat split].
  split; [reflexivity|]. unfold clips_ref, audio_ref, spread_config.
  cbn [StoryboardGroup.config StoryboardGroup.with_config].
  now destruct (StoryboardGroup.config g).
Qed.

(** X29. The prompt editor.  With no node under edit, saving or
    resetting the prompt changes nothing, not even the history.  With a
    node under edit, saving takes one history snapshot and, node by node,
    changes the configuration only: the nodes with the edited identifier
    get the new prompt, keeping their clip and audio references; every
    other node is untouched.  Resetting is saving the default prompt of
    the kind of the edited node (the empty prompt for a kind without a
    default or for a missing node).  A node fresh from the palette already carries its
    default, so resetting it leaves the node collection as it is. *)
Theorem prompt_editor_edits_one_field (prompts : Prompts) (newPrompt : string)
    (st : AppState) :
  (truthy (editorNodeId st) = false ->
   handleSavePrompt newPrompt st = st /\ handleResetPrompt prompts st = st) /\
  (forall editor, editorNodeId st = Some editor -> editor <> EmptyString ->
     let st' := handleSavePrompt newPrompt st in
     history st' = history (saveHistory (storyboards st) st) /\
     (forall k g, nth_error (storyboards st) k = Some g ->
        exists g', nth_error (storyboards st') k = Some g' /\
          StoryboardGroup.with_config None g' = StoryboardGroup.with_config None g /\
          clips_ref g' = clips_ref g /\ audio_ref g' = audio_ref g /\
          (StoryboardGroup.id g = editor -> prompt_of g' = Some newPrompt) /\
          (StoryboardGroup.id g <> editor -> g' = g)) /\
     handleResetPrompt prompts st =
       handleSavePrompt
         (default_prompt prompts
            (option_map StoryboardGroup.type (find_node editor (storyboards st)))) st) /\
  (forall p randomUUID dateNow x y,
     ~ In (randomUUID 0%nat) (map StoryboardGroup.id (storyboards st)) ->
     randomUUID 0%nat <> EmptyString ->
     let made := create p randomUUID dateNow prompts x y st in
     p = NewAgent \/ p = NewMusicAnalysis \/ p = NewMVSettings \/ p = NewMVStoryboard ->
     storyboards (handleResetPrompt prompts (handleOpenPromptEditor (randomUUID 0%nat) made)) =
     storyboards made).
Proof.
  split; [|split].
  - intros H. unfold handleSavePrompt, handleResetPrompt. now rewrite H.
  - intros editor He Hne. cbv zeta.
    assert (Ht : truthy (Some editor) = true)
      by (simpl; apply negb_true_iff; now apply String.eqb_neq).
    unfold handleSavePrompt, handleResetPrompt. rewrite He, Ht.
    split; [reflexivity|]. split; [|reflexivity].
    intros k g Hk. exists (set_prompt editor newPrompt g).
    cbn [storyboards setStoryboards saveHistory setHistory].
    rewrite nth_error_map, Hk.
    destruct (set_prompt_keeps editor newPrompt g) as [K1 [K2 K3]].
    split; [reflexivity|]. split; [exact K1|]. split; [exact K2|]. split; [exact K3|].
    unfold set_prompt. split.
    + intros Hid. apply String.eqb_eq in Hid. now rewrite Hid.
    + intros Hid. apply String.eqb_neq in Hid. now rewrite Hid.
  - intros p u now x y Hfresh Hne made Hkind. subst made.
    assert (Ht : truthy (Some (u 0%nat)) = true)
      by (simpl; apply negb_true_iff; now apply String.eqb_neq).
    unfold handleResetPrompt, handleOpenPromptEditor.
    cbn [editorNodeId setEditorNodeId]. rewrite Ht.
    cbn [storyboards setStoryboards saveHistory setHistory setEditorNodeId].
    assert (Hother : forall sb, ~ In (u 0%nat) (map StoryboardGroup.id sb) ->
              forall q, map (set_prompt (u 0%nat) q) sb = sb).
    { intros sb Hnot q. rewrite <- (map_id sb) at 2. apply map_ext_in.
      intros g Hg. unfold set_prompt.
      destruct (String.eqb_spec (StoryboardGroup.id g) (u 0%nat)) as [E|E]; [|reflexivity].
      exfalso. apply Hnot. rewrite <- E. now apply in_map. }
    assert (Hfind : forall n, StoryboardGroup.id n = u 0%nat ->
              find_node (u 0%nat) (storyboards st ++ [n]) = Some n).
    { intros n Hid. unfold find_node. rewrite find_app_first.
      destruct (find _ (storyboards st)) as [g|] eqn:Ef.
      - exfalso. apply find_some in Ef. destruct Ef as [Hg Eg].
        apply String.eqb_eq in Eg. apply Hfresh. rewrite <- Eg. now apply in_map.
      - simpl. rewrite Hid. now rewrite String.eqb_refl. }
    destruct Hkind as [-> | [-> | [-> | ->]]];
      cbn [create handleCreateAgent handleCreateMusicAnalysisAgent
           handleCreateMVAttributeSettings handleCreateMVStoryboard
           storyboards setStoryboards saveHistory setHistory];
      rewrite Hfind by reflexivity; cbn [option_map StoryboardGroup.type default_prompt];
      rewrite map_app, (Hother _ Hfresh); cbn [map]; f_equal; f_equal;
      unfold set_prompt; cbn [StoryboardGroup.id]; rewrite String.eqb_refl; reflexivity.
Qed.

Lemma prompt_editor_edits_one_field_witness :
  map prompt_of
    (storyboards (handleSavePrompt "Be brief."
       (handleOpenPromptEditor "n-1" Sample.template)))
  = [None; Some "Be brief."] /\
  handleResetPrompt (mkPrompts "agent" "analysis" "style" "storyboard")
    (handleOpenPromptEditor "n-1" Sample.template) =
  handleSavePrompt "agent" (handleOpenPromptEditor "n-1" Sample.template).
Proof.
  split; [reflexivity|].
  destruct (prompt_editor_edits_one_field (mkPrompts "agent" "analysis" "style" "storyboard")
              "Be brief." (handleOpenPromptEditor "n-1" Sample.template)) as [_ [H _]].
  destruct (H "n-1" eq_refl ltac:(discriminate)) as [_ [_ Hreset]].
  exact Hreset.
Defined.

(** ** Edits made in the timeline player *)

Lemma deep_extends (h h' : Heap) (sb : list StoryboardGroup.t) :
  extends h h' -> refs_ok h sb -> deep h' sb = deep h sb.
Proof.
  intros He Hok. unfold deep. apply map_ext_in. intros g Hg. f_equal.
  apply clips_of_extends; [exact He|]. intros r Hr. exact (Hok g Hg r Hr).
Qed.

(** X30. Edits made in the timeline player are copy-on-write.  When the
    player hands a new clip list to [onUpdateClips] (after a resize or a
    reorder), the list is stored in a new array: the first node with the
    timeline's identifier shows the new clips, every node with another
    identifier shows the clips it showed, and each history snapshot, read
    through the store, still holds exactly the clips it held.  The history
    stack itself is left alone, so an undo skips the edit. *)
Theorem player_edits_are_copy_on_write (group : StoryboardGroup.t)
    (newClips : list TimelineClip.t) (st : AppState) :
  refs_ok (heap st) (storyboards st) ->
  Forall (refs_ok (heap st)) (history st) ->
  let st' := onUpdateClips group newClips st in
  history st' = history st /\
  map (deep (heap st')) (history st') = map (deep (heap st)) (history st) /\
  (forall k g, nth_error (storyboards st) k = Some g ->
     StoryboardGroup.id g <> StoryboardGroup.id group ->
     nth_error (storyboards st') k = Some g /\ clips_of (heap st') g = clips_of (heap st) g) /\
  (forall g0, find_node (StoryboardGroup.id group) (storyboards st) = Some g0 ->
     clips_at (StoryboardGroup.id group) st' = newClips) /\
  refs_ok (heap st') (storyboards st') /\
  Forall (refs_ok (heap st')) (history st').
Proof.
  intros Hok Hhist. cbv zeta. unfold onUpdateClips.
  cbn [Store.alloc]. unfold handleUpdateStoryboard.
  cbn [history storyboards heap with_heap setStoryboards].
  assert (Hext : extends (heap st) (heap st ++ [newClips])) by apply (extends_alloc newClips).
  split; [reflexivity|]. split; [|split; [|split; [|split]]].
  - apply map_ext_in. intros sb Hsb. apply deep_extends; [exact Hext|].
    rewrite Forall_forall in Hhist. now apply Hhist.
  - intros k g Hk Hne. split.
    + rewrite nth_error_map, Hk. cbn [option_map].
      destruct (_ =? _) eqn:E; [|reflexivity].
      apply String.eqb_eq in E. exfalso. apply Hne. exact E.
    + apply clips_of_extends; [exact Hext|]. intros r Hr.
      apply (Hok g (nth_error_In _ _ Hk) r Hr).
  - intros g0 Hg0. unfold clips_at. cbn [storyboards heap with_heap setStoryboards].
    pose proof (find_node_update (set_clips_ref (Some (length (heap st))) group)
                  (storyboards st) g0 Hg0) as Hf.
    change (StoryboardGroup.id (set_clips_ref (Some (length (heap st))) group))
      with (StoryboardGroup.id group) in Hf |- *.
    match goal with
    | |- match ?e with _ => _ end = _ =>
        replace e with (Some (set_clips_ref (Some (length (heap st))) group))
          by (symmetry; exact Hf)
    end.
    unfold clips_of. rewrite clips_ref_set. unfold Store.read.
    now rewrite nth_middle.
  - intros g' Hg' r Hr. rewrite length_app. simpl.
    apply in_map_iff in Hg'. destruct Hg' as [g [Eg Hg]].
    destruct (StoryboardGroup.id g =? _) in Eg.
    + subst g'. rewrite clips_ref_set in Hr. injection Hr as <-. lia.
    + subst g'. specialize (Hok g Hg r Hr). lia.
  - rewrite Forall_forall in *. intros sb Hsb.
    apply (refs_ok_extends (heap st)); [exact Hext | now apply Hhist].
Qed.

Lemma player_edits_are_copy_on_write_witness :
  map (deep (heap (onUpdateClips (node_of "t-0" Sample.imported) [] Sample.imported)))
      (history (onUpdateClips (node_of "t-0" Sample.imported) [] Sample.imported))
  = map (deep (heap Sample.imported)) (history Sample.imported) /\
  clips_at "t-0" (onUpdateClips (node_of "t-0" Sample.imported) [] Sample.imported) = [] /\
  length (clips_at "t-0" Sample.imported) = 1%nat.
Proof.
  destruct (player_edits_are_copy_on_write (node_of "t-0" Sample.imported) []
              Sample.imported) as [_ [Hdeep [_ [Hshow _]]]].
  - intros g Hg r Hr. vm_compute in Hg.
    repeat (destruct Hg as [<-|Hg]); try contradiction; try discriminate Hr.
    injection Hr as <-. vm_compute. constructor.
  - apply Forall_forall. intros sb Hsb g Hg r Hr. vm_compute in Hsb.
    repeat (destruct Hsb as [<-|Hsb]); try contradiction;
      vm_compute in Hg; repeat (destruct Hg as [<-|Hg]); try contradiction;
      try discriminate Hr; injection Hr as <-; vm_compute; constructor.
  - split; [exact Hdeep|]. split; [|reflexivity].
    apply (Hshow (node_of "t-0" Sample.imported)). reflexivity.
Defined.
